(** * MetricsReloaded: pairwise measures, embedded and verified

    Shallow embedding of [pairwise_measures.py] (the box functions,
    MorphologyOps, BinaryPairwiseMeasures, MultiClassPairwiseMeasures) and
    [prob_pairwise_measures.py] (ProbabilityPairwiseMeasures).

    Conventions of the embedding.
    - A NumPy array is a shape together with its row-major buffer.
    - Hard masks hold integers; counts (sums of 0/1 maps) are integers.
    - A comparison records the element type of its arrays: NumPy subtracts
      two arrays in their common element type, and an unsigned type wraps
      a negative difference around.
    - Floating-point values are idealised: exact rationals where only field
      operations occur, real numbers where a square root occurs.  The IEEE
      special values produced by NumPy scalar division (nan, inf, -inf) are
      kept as constructors of [npfloat].
    - Python exceptions are the [Raise] outcomes of [result].
    - [CacheFunctionOutput] memoises a method per instance and argument
      tuple; every cached method below is a pure function of the instance
      fields, so the cache is transparent and the methods are embedded as
      plain functions. Calls to [print] are omitted. *)

From Stdlib Require Import ZArith QArith Qround Qabs Qminmax Reals.
From Stdlib Require Import String Ascii Bool List Lia Psatz.
From Stdlib Require Import Sorting.Sorted.
Import ListNotations.

Set Implicit Arguments.

(* ================================================================== *)
(** * Python: exceptions, tuples, ranges, dictionaries *)

Module Py.

Inductive exn : Type :=
| IndexError
| ZeroDivisionError
| ValueError
| RuntimeError
| UnboundLocalError
| Unspecified (* not an exception: a result the library leaves unspecified *).

Inductive result (A : Type) : Type :=
| Ok (a : A)
| Raise (e : exn).

Arguments Ok {A} a.
Arguments Raise {A} e.

Definition bind {A B : Type} (c : result A) (k : A -> result B) : result B :=
  match c with
  | Ok a => k a
  | Raise e => Raise e
  end.

Definition raises {A : Type} (c : result A) (e : exn) : Prop := c = Raise e.

(** [t[i]] on a tuple (or list) with a non-negative index. *)
Definition getitem {A : Type} (t : list A) (i : nat) : result A :=
  match nth_error t i with
  | Some a => Ok a
  | None => Raise IndexError
  end.

(** [range(lo, hi)]. *)
Definition range (lo hi : Z) : list Z :=
  map (fun i => (lo + Z.of_nat i)%Z) (seq 0 (Z.to_nat (hi - lo))).

(** [dict_args]: string keys, numeric values. *)
Definition dict := list (string * Q).

Fixpoint dict_get (d : dict) (k : string) : option Q :=
  match d with
  | [] => None
  | (k', v) :: d' => if String.eqb k k' then Some v else dict_get d' k
  end.

(** [d[k] if k in d else dflt]. *)
Definition dict_get_default (d : dict) (k : string) (dflt : Q) : Q :=
  match dict_get d k with
  | Some v => v
  | None => dflt
  end.

(** Monadic map: a comprehension whose body may raise. *)
Fixpoint mapM {A B : Type} (f : A -> result B) (l : list A) : result (list B) :=
  match l with
  | [] => Ok []
  | a :: l' =>
      bind (f a) (fun b => bind (mapM f l') (fun bs => Ok (b :: bs)))
  end.

End Py.

Import Py.

Notation "'do' x <- c ; k" := (Py.bind c (fun x => k))
  (at level 10, x pattern, c at level 100, k at level 200).

(* ================================================================== *)
(** * NumPy scalars with the IEEE special values *)

Inductive npfloat (K : Type) : Type :=
| Fin (x : K)
| NaN
| PInf
| NInf.

Arguments Fin {K} x.
Arguments NaN {K}.
Arguments PInf {K}.
Arguments NInf {K}.

Definition Qltb (a b : Q) : bool := negb (Qle_bool b a).

(** Rational-valued floats: every finite result is kept in lowest terms, so
    that equal values are equal terms. *)
Module FQ.

Definition sign (a : Q) : comparison := (a ?= 0)%Q.

Definition of_Z (z : Z) : npfloat Q := Fin (inject_Z z).

(** NumPy scalar division: [x/0] is nan, inf or -inf, never an exception. *)
Definition div (a b : Q) : npfloat Q :=
  if Qeq_bool b 0 then
    match sign a with
    | Eq => NaN
    | Gt => PInf
    | Lt => NInf
    end
  else Fin (Qred (a / b)).

Definition divf (a : npfloat Q) (b : Q) : npfloat Q :=
  match a with
  | Fin x => div x b
  | NaN => NaN
  | PInf => match sign b with Lt => NInf | _ => PInf end
  | NInf => match sign b with Lt => PInf | _ => NInf end
  end.

Definition add (a b : npfloat Q) : npfloat Q :=
  match a, b with
  | Fin x, Fin y => Fin (Qred (x + y))
  | NaN, _ | _, NaN => NaN
  | PInf, NInf | NInf, PInf => NaN
  | PInf, _ | _, PInf => PInf
  | NInf, _ | _, NInf => NInf
  end.

Definition opp (a : npfloat Q) : npfloat Q :=
  match a with
  | Fin x => Fin (Qred (- x))
  | NaN => NaN
  | PInf => NInf
  | NInf => PInf
  end.

Definition sub (a b : npfloat Q) : npfloat Q := add a (opp b).

Definition abs (a : npfloat Q) : npfloat Q :=
  match a with
  | Fin x => Fin (Qred (Qabs x))
  | NaN => NaN
  | PInf | NInf => PInf
  end.

Definition scale_inf (s : comparison) (pos : bool) : npfloat Q :=
  match s with
  | Eq => NaN
  | Gt => if pos then PInf else NInf
  | Lt => if pos then NInf else PInf
  end.

Definition mul (a b : npfloat Q) : npfloat Q :=
  match a, b with
  | Fin x, Fin y => Fin (Qred (x * y))
  | NaN, _ | _, NaN => NaN
  | Fin x, PInf | PInf, Fin x => scale_inf (sign x) true
  | Fin x, NInf | NInf, Fin x => scale_inf (sign x) false
  | PInf, PInf | NInf, NInf => PInf
  | PInf, NInf | NInf, PInf => NInf
  end.

(** IEEE comparison [a <= b]: false as soon as one side is nan. *)
Definition leb (a b : npfloat Q) : bool :=
  match a, b with
  | NaN, _ | _, NaN => false
  | NInf, _ => true
  | _, PInf => true
  | Fin x, Fin y => Qle_bool x y
  | _, _ => false
  end.

Definition le (a b : npfloat Q) : Prop := leb a b = true.

Definition sum (l : list (npfloat Q)) : npfloat Q := fold_left add l (Fin 0).

(** Division of two floats, with the IEEE rules for the special values
    (the sign of a zero is not tracked: a zero divisor counts as +0). *)
Definition fdiv (a b : npfloat Q) : npfloat Q :=
  match a, b with
  | NaN, _ | _, NaN => NaN
  | Fin x, Fin y => div x y
  | Fin _, (PInf | NInf) => Fin 0
  | PInf, Fin y => match sign y with Lt => NInf | _ => PInf end
  | NInf, Fin y => match sign y with Lt => PInf | _ => NInf end
  | (PInf | NInf), (PInf | NInf) => NaN
  end.

(** A ratio that is either undefined (nan) or a value between 0 and 1. *)
Definition unit_or_nan (a : npfloat Q) : Prop :=
  a = NaN \/ exists q, a = Fin q /\ 0 <= q <= 1.

(** [a == 0]: false on nan and on the infinities. *)
Definition is_zero (a : npfloat Q) : bool :=
  match a with
  | Fin x => Qeq_bool x 0
  | _ => false
  end.

End FQ.

(** Real-valued floats, for the quantities that go through a square root. *)
Module FR.

Definition div (a b : R) : npfloat R :=
  if Req_dec_T b 0 then
    (if Req_dec_T a 0 then NaN else if Rlt_dec 0 a then PInf else NInf)
  else Fin (a / b)%R.

Definition add (a b : npfloat R) : npfloat R :=
  match a, b with
  | Fin x, Fin y => Fin (x + y)%R
  | NaN, _ | _, NaN => NaN
  | PInf, NInf | NInf, PInf => NaN
  | PInf, _ | _, PInf => PInf
  | NInf, _ | _, NInf => NInf
  end.

End FR.

(* ================================================================== *)
(** * NumPy arrays *)

Module Np.

Record ndarray (A : Type) : Type := mk_ndarray {
  shape : list nat;
  data : list A
}.

Definition prod (l : list nat) : nat := fold_right Nat.mul 1%nat l.

(** The buffer has as many entries as the shape says. *)
Definition wf {A : Type} (a : ndarray A) : Prop :=
  length (data a) = prod (shape a).

(** [np.size]. *)
Definition size {A : Type} (a : ndarray A) : nat := length (data a).

Definition amap {A B : Type} (f : A -> B) (a : ndarray A) : ndarray B :=
  mk_ndarray (shape a) (map f (data a)).

Fixpoint zip_with {A B C : Type} (f : A -> B -> C) (l : list A) (m : list B)
  : list C :=
  match l, m with
  | x :: l', y :: m' => f x y :: zip_with f l' m'
  | _, _ => []
  end.

(** Element-wise binary operation on two arrays of one shape. The class
    invariant is that pred and ref have the same shape; arrays of different
    shapes (which NumPy broadcasts or rejects) are outside the embedding. *)
Definition amap2 {A B C : Type} (f : A -> B -> C) (a : ndarray A) (b : ndarray B)
  : ndarray C :=
  mk_ndarray (shape a) (zip_with f (data a) (data b)).

Definition same_shape {A B : Type} (a : ndarray A) (b : ndarray B) : Prop :=
  shape a = shape b /\ wf a /\ wf b.

Definition sumZ (l : list Z) : Z := fold_left Z.add l 0%Z.
Definition sumQ (l : list Q) : Q := fold_left Qplus l 0%Q.
Definition sumR (l : list R) : R := fold_left Rplus l 0%R.

Definition b2z (b : bool) : Z := if b then 1%Z else 0%Z.

(** [np.sum] of a 0/1 map obtained from a boolean array. *)
Definition count (l : list bool) : Z := sumZ (map b2z l).

(** [a[mask]]: boolean-mask selection, in buffer order. *)
Fixpoint select {A : Type} (l : list A) (mask : list bool) : list A :=
  match l, mask with
  | x :: l', b :: mask' => if b then x :: select l' mask' else select l' mask'
  | _, _ => []
  end.

(** [a[mask] = v]. *)
Definition assign_where {A : Type} (l : list A) (mask : list bool) (v : A)
  : list A :=
  zip_with (fun x (b : bool) => if b then v else x) l
           (mask ++ repeat false (length l - length mask)).

(** Wrap-around of a signed 8-bit integer ([dtype=np.int8]). *)
Definition int8 (z : Z) : Z := ((z + 128) mod 256 - 128)%Z.

(** ** Element types

    NumPy computes [a - b] in the common element type of the two arrays
    ([np.result_type(a, b)]). In a signed integer type of [bits] bits the
    result is reduced to [-2^(bits-1), 2^(bits-1)), in an unsigned one to
    [0, 2^bits); a floating-point result is idealised as exact. Boolean
    arrays, on which NumPy refuses [-], are outside the embedding. *)
Inductive width : Type := W8 | W16 | W32 | W64.

Definition bits (w : width) : Z :=
  match w with W8 => 8 | W16 => 16 | W32 => 32 | W64 => 64 end%Z.

Inductive dtype : Type :=
| Int (w : width)     (* np.int8, ..., np.int64 *)
| UInt (w : width)    (* np.uint8, ..., np.uint64 *)
| Float               (* np.float32, np.float64 *).

(** The value an integer result takes in the element type. *)
Definition wrap (d : dtype) (z : Z) : Z :=
  match d with
  | Int w => ((z + 2 ^ (bits w - 1)) mod 2 ^ bits w - 2 ^ (bits w - 1))%Z
  | UInt w => (z mod 2 ^ bits w)%Z
  | Float => z
  end.

(** The same for an array held as rationals: the elements of an
    integer-typed array are whole numbers. *)
Definition wrapQ (d : dtype) (x : Q) : Q :=
  match d with
  | Float => x
  | _ => inject_Z (wrap d (Qfloor x))
  end.

(** The element types in which a negative difference stays negative. *)
Definition signed (d : dtype) : Prop :=
  match d with
  | UInt _ => False
  | _ => True
  end.

(** Number of positions at which the first array holds [a] and the second
    holds [b]. *)
Definition pair_count (a b : Z) (ps rs : list Z) : Z :=
  sumZ (zip_with (fun p r => b2z ((p =? a) && (r =? b))%Z) ps rs).

(** ** Sorting and [np.unique] *)

Fixpoint insertQ (x : Q) (l : list Q) : list Q :=
  match l with
  | [] => [x]
  | y :: l' => if Qle_bool x y then x :: l else y :: insertQ x l'
  end.

(** [np.sort] on a rational array (ascending). *)
Definition sortQ (l : list Q) : list Q := fold_right insertQ [] l.

Fixpoint insertZ (x : Z) (l : list Z) : list Z :=
  match l with
  | [] => [x]
  | y :: l' => if (x <=? y)%Z then x :: l else y :: insertZ x l'
  end.

Definition sortZ (l : list Z) : list Z := fold_right insertZ [] l.

Fixpoint insertR (x : R) (l : list R) : list R :=
  match l with
  | [] => [x]
  | y :: l' => if Rle_dec x y then x :: l else y :: insertR x l'
  end.

Definition sortR (l : list R) : list R := fold_right insertR [] l.

(** Runs of equal neighbours of a sorted list, with their lengths. *)
Fixpoint runsQ (l : list Q) : list (Q * Z) :=
  match l with
  | [] => []
  | x :: l' =>
      match runsQ l' with
      | (y, c) :: r => if Qeq_bool x y then (x, (c + 1)%Z) :: r
                       else (x, 1%Z) :: (y, c) :: r
      | [] => [(x, 1%Z)]
      end
  end.

(** [np.unique(a, return_counts=True)], as (value, count) pairs. *)
Definition unique_counts (l : list Q) : list (Q * Z) := runsQ (sortQ l).

Fixpoint dedupZ (l : list Z) : list Z :=
  match l with
  | [] => []
  | x :: l' =>
      match dedupZ l' with
      | y :: r => if (x =? y)%Z then y :: r else x :: y :: r
      | [] => [x]
      end
  end.

(** [np.unique] on an integer array. *)
Definition uniqueZ (l : list Z) : list Z := dedupZ (sortZ l).

(** Runs of equal neighbours of a sorted integer list, with their lengths. *)
Fixpoint runsZ (l : list Z) : list (Z * Z) :=
  match l with
  | [] => []
  | x :: l' =>
      match runsZ l' with
      | (y, c) :: r => if (x =? y)%Z then (x, (c + 1)%Z) :: r
                       else (x, 1%Z) :: (y, c) :: r
      | [] => [(x, 1%Z)]
      end
  end.

(** [np.unique(a, return_counts=True)] on an integer array. *)
Definition unique_countsZ (l : list Z) : list (Z * Z) := runsZ (sortZ l).

(** ** Reductions on real arrays *)

(** [np.max]: a zero-size array has no maximum. *)
Definition maxR (l : list R) : result R :=
  match l with
  | [] => Raise ValueError
  | x :: l' => Ok (fold_left Rmax l' x)
  end.

(** [np.mean]: nan on a zero-size array. *)
Definition meanR (l : list R) : npfloat R := FR.div (sumR l) (INR (length l)).

Definition meanQ (l : list Q) : npfloat Q :=
  FQ.div (sumQ l) (inject_Z (Z.of_nat (length l))).

(** [np.percentile(a, q)] with the default linear interpolation: with the
    sorted values [s] and the virtual index [v = (n-1) q / 100], the result
    is [s[floor v] + (v - floor v) (s[floor v + 1] - s[floor v])]. *)
Definition percentile (l : list R) (q : Q) : result R :=
  if Qltb q 0 || Qltb 100 q then Raise ValueError
  else
    match l with
    | [] => Raise IndexError
    | _ :: _ =>
        let s := sortR l in
        let n := length l in
        let v := (inject_Z (Z.of_nat (n - 1)) * q / 100)%Q in
        let lo := Z.to_nat (Qfloor v) in
        let hi := Nat.min (lo + 1) (n - 1) in
        let g := (v - inject_Z (Qfloor v))%Q in
        let a := nth lo s 0%R in
        let b := nth hi s 0%R in
        Ok (a + Q2R g * (b - a))%R
    end.

(** [np.arange(start, stop, step)]: [ceil((stop - start) / step)] values
    [start + i step] (none when that number is not positive). *)
Definition arange (start stop step : Q) : list Q :=
  let n := Z.to_nat (Qceiling ((stop - start) / step)) in
  map (fun i => Qred (start + inject_Z (Z.of_nat i) * step)) (seq 0 n).

(** ** Coordinates *)

(** All index tuples of a shape, in row-major (buffer) order. *)
Fixpoint indices (sh : list nat) : list (list Z) :=
  match sh with
  | [] => [[]]
  | n :: rest =>
      flat_map (fun i => map (cons (Z.of_nat i)) (indices rest)) (seq 0 n)
  end.

(** Buffer offset of an index tuple; [None] outside the array. *)
Fixpoint ravel (sh : list nat) (idx : list Z) : option nat :=
  match sh, idx with
  | [], [] => Some 0%nat
  | n :: rest, i :: idx' =>
      if ((0 <=? i) && (i <? Z.of_nat n))%Z then
        match ravel rest idx' with
        | Some o => Some (Z.to_nat i * prod rest + o)%nat
        | None => None
        end
      else None
  | _, _ => None
  end.

(** Value at an index tuple, [outside] beyond the array bounds. *)
Definition at_index {A : Type} (a : ndarray A) (outside : A) (idx : list Z) : A :=
  match ravel (shape a) idx with
  | Some o => nth o (data a) outside
  | None => outside
  end.

End Np.

Import Np.

(* ================================================================== *)
(** * scipy.ndimage

    The library routines the measures call. They are compiled library
    code, embedded by their documented results with the default arguments
    the callers leave in place. *)

Module Ndimage.

(** The two neighbours of an index tuple along every axis: the default
    structuring element [generate_binary_structure(rank, 1)] without its
    centre. *)
Fixpoint axis_neighbours (idx : list Z) : list (list Z) :=
  match idx with
  | [] => []
  | i :: rest =>
      ((i - 1)%Z :: rest) :: ((i + 1)%Z :: rest)
      :: map (cons i) (axis_neighbours rest)
  end.

Definition nonzero (a : ndarray Z) (idx : list Z) : bool :=
  negb (at_index a 0%Z idx =? 0)%Z.

(** [binary_erosion(input)]: one iteration, cross-shaped structuring
    element, [border_value=0]: an element survives when it and its axis
    neighbours are all non-zero, positions outside the array counting as 0. *)
Definition binary_erosion (input : ndarray Z) : ndarray bool :=
  mk_ndarray (shape input)
    (map (fun p => forallb (nonzero input) (p :: axis_neighbours p))
         (indices (shape input))).

(** One sweep of a flood fill: an unlabelled non-zero element with an axis
    neighbour labelled [n] takes the label [n]. *)
Definition grow (input : ndarray Z) (n : Z) (lab : list Z) : list Z :=
  let labelled := mk_ndarray (shape input) lab in
  map (fun p =>
         let cur := at_index labelled 0%Z p in
         if negb (cur =? 0)%Z then cur
         else if nonzero input p
                 && existsb (fun q => (at_index labelled 0 q =? n)%Z)
                            (axis_neighbours p)
              then n else 0%Z)
      (indices (shape input)).

Definition set_nth {A : Type} (o : nat) (v : A) (l : list A) : list A :=
  firstn o l ++ match skipn o l with [] => [] | _ :: r => v :: r end.

Definition label_step (input : ndarray Z) (st : list Z * Z) (op : nat * list Z)
  : list Z * Z :=
  let '(lab, n) := st in
  let '(o, p) := op in
  if nonzero input p && (nth o lab 0 =? 0)%Z then
    let n' := (n + 1)%Z in
    (Nat.iter (size input) (grow input n') (set_nth o n' lab), n')
  else (lab, n).

(** [label(input)]: the connected components of the non-zero elements under
    axis adjacency, numbered 1, 2, ... in the row-major order of their first
    element; returns the labelled array and the number of components. *)
Definition label (input : ndarray Z) : ndarray Z * Z :=
  let idx := indices (shape input) in
  let '(lab, n) :=
    fold_left (label_step input) (combine (seq 0 (length idx)) idx)
              (repeat 0%Z (length idx), 0%Z) in
  (mk_ndarray (shape input) lab, n).

(** [shift(input, shift, order=0)]: every element moves by a whole number
    of positions along each axis, zeros entering at the far side
    ([mode='constant'], [cval=0]); [shift] must have one entry per axis. *)
Definition shift (input : ndarray Z) (s : list Z) : result (ndarray Z) :=
  if negb (length s =? length (shape input))%nat then Raise RuntimeError
  else
    Ok (mk_ndarray (shape input)
          (map (fun p => at_index input 0%Z (zip_with Z.sub p s))
               (indices (shape input)))).

(** Squared distance between two index tuples, each axis scaled by its
    sampling. *)
Fixpoint sq_dist (sampling : list Q) (p q : list Z) : Q :=
  match sampling, p, q with
  | s :: sampling', i :: p', j :: q' =>
      (s * inject_Z (i - j)) ^ 2 + sq_dist sampling' p' q'
  | _, _, _ => 0
  end.

(** The zero elements of the input. *)
Definition background (input : ndarray Z) : list (list Z) :=
  filter (fun p => negb (nonzero input p)) (indices (shape input)).

Definition nearest_sq (sampling : list Q) (targets : list (list Z)) (p : list Z)
  : option Q :=
  match targets with
  | [] => None
  | b :: rest =>
      Some (fold_left (fun m q => Qmin m (sq_dist sampling p q)) rest
                      (sq_dist sampling p b))
  end.

(** Squared values of the transform below. *)
Definition edt_sq (input : ndarray Z) (sampling : list Q) : result (list Q) :=
  if negb (length sampling =? length (shape input))%nat then Raise RuntimeError
  else
    mapM (fun p =>
            if nonzero input p then
              match nearest_sq sampling (background input) p with
              | Some d => Ok (Qred d)
              | None => Raise Unspecified
              end
            else Ok 0)
         (indices (shape input)).

(** [distance_transform_edt(input, sampling=sampling)]: every non-zero
    element is replaced by its Euclidean distance to the nearest zero
    element (the background), every zero element by 0; [sampling] is the
    spacing along each axis and must have one entry per axis. With no zero
    element at all SciPy does not specify the result. *)
Definition distance_transform_edt (input : ndarray Z) (sampling : list Q)
  : result (ndarray R) :=
  do d2 <- edt_sq input sampling;
  Ok (mk_ndarray (shape input) (map (fun d => sqrt (Q2R d)) d2)).

End Ndimage.

(* ================================================================== *)
(** * Axis-aligned boxes

    A box is the vector of the coordinates of its first corner followed by
    those of its opposite corner, both included (integer pixel indices). The
    two halves have the same length; vectors of odd length, which NumPy
    broadcasts or rejects, are outside the embedding. *)

Module Boxes.

(** [np.prod]. *)
Definition prodZ (l : list Z) : Z := fold_left Z.mul l 1%Z.

Definition intersection_boxes (box1 box2 : list Z) : Z :=
  let min_values := zip_with Z.min box1 box2 in
  let max_values := zip_with Z.max box1 box2 in
  let box_inter := firstn (length min_values / 2) max_values in
  let box_inter2 := skipn (length max_values / 2) min_values in
  let box_intersect := box_inter ++ box_inter2 in
  let box_intersect_area :=
    prodZ (zip_with (fun hi lo => Z.max (hi + 1 - lo) 0) box_inter2 box_inter) in
  Z.max 0 box_intersect_area.

Definition area_box (box1 : list Z) : Z :=
  let box_corner1 := firstn (length box1 / 2) box1 in
  let box_corner2 := skipn (length box1 / 2) box1 in
  prodZ (zip_with (fun hi lo => hi + 1 - lo)%Z box_corner2 box_corner1).

Definition union_boxes (box1 box2 : list Z) : Z :=
  let value :=
    (area_box box1 + area_box box2 - intersection_boxes box1 box2)%Z in
  value.

Definition box_iou (box1 box2 : list Z) : npfloat Q :=
  let numerator := intersection_boxes box1 box2 in
  let denominator := union_boxes box1 box2 in
  FQ.div (inject_Z numerator) (inject_Z denominator).

Definition box_ior (box1 box2 : list Z) : npfloat Q :=
  let numerator := intersection_boxes box1 box2 in
  let denominator := area_box box2 in
  FQ.div (inject_Z numerator) (inject_Z denominator).

End Boxes.

(* ================================================================== *)
(** * class MorphologyOps *)

Module MorphologyOps.

Record t : Type := mk {
  binary_map : ndarray Z;
  neigh : Z
}.

(** [np.asarray(binary_img, dtype=np.int8)]. *)
Definition __init__ (binary_img : ndarray Z) (neigh : Z) : t :=
  mk (amap int8 binary_img) neigh.

Definition border_map (self : t) : ndarray Z :=
  let eroded := Ndimage.binary_erosion (binary_map self) in
  let border := amap2 (fun x e => int8 (x - b2z e)) (binary_map self) eroded in
  border.

(** The border of a 3-D image, from its six shifted copies. *)
Definition border_map2 (self : t) : result (ndarray bool) :=
  do west <- Ndimage.shift (binary_map self) [-1; 0; 0]%Z;
  do east <- Ndimage.shift (binary_map self) [1; 0; 0]%Z;
  do north <- Ndimage.shift (binary_map self) [0; 1; 0]%Z;
  do south <- Ndimage.shift (binary_map self) [0; -1; 0]%Z;
  do top <- Ndimage.shift (binary_map self) [0; 0; 1]%Z;
  do bottom <- Ndimage.shift (binary_map self) [0; 0; -1]%Z;
  let add := amap2 (fun x y => int8 (x + y)) in
  let cumulative := add (add (add (add (add west east) north) south) top) bottom in
  let border :=
    amap2 (fun c x => (int8 (b2z (c <? 6)%Z * x) =? 1)%Z)
          cumulative (binary_map self) in
  Ok border.

Definition foreground_component (self : t) : ndarray Z * Z :=
  Ndimage.label (binary_map self).

End MorphologyOps.


(* ================================================================== *)
(** * class BinaryPairwiseMeasures *)

Module BinaryPairwiseMeasures.

(** [dtype] is the element type in which NumPy combines the two masks
    ([np.result_type(pred, ref)]); the arrays carry it themselves. *)
Record t : Type := mk {
  dtype : Np.dtype;
  pred : ndarray Z;
  ref : ndarray Z;
  measures : list string;
  neigh : Z;
  pixdim : list Q;
  flag_empty : bool;
  dict_args : dict
}.

(** [__init__(self, pred, ref, measures=[], num_neighbors=8,
    pixdim=[1, 1, 1], empty=False, dict_args={})], with the element type of
    the two arrays. The registry [measures_dict] only serves the string
    dispatch of [to_dict_meas] and is not embedded. *)
Definition __init__ (dtype : Np.dtype) (pred ref : ndarray Z)
  (measures : list string) (num_neighbors : Z) (pixdim : list Q) (empty : bool)
  (dict_args : dict) : t :=
  mk dtype pred ref measures num_neighbors pixdim empty dict_args.

(** The class invariant: pred and ref are well-formed arrays of one shape. *)
Definition wf (self : t) : Prop := same_shape (pred self) (ref self).

(** Every voxel of both masks is 0 or 1. *)
Definition binary (self : t) : Prop :=
  Forall (fun v => v = 0 \/ v = 1)%Z (data (pred self)) /\
  Forall (fun v => v = 0 \/ v = 1)%Z (data (ref self)).

(** ** Confusion maps and counts *)

(** [(self.pred - self.ref) > 0.0]: the difference is taken in the element
    type of the masks. *)
Definition __fp_map (self : t) : ndarray Z :=
  amap2 (fun p r => b2z (Qltb 0 (inject_Z (wrap (dtype self) (p - r)))))
        (pred self) (ref self).

Definition __fn_map (self : t) : ndarray Z :=
  amap2 (fun p r => b2z (Qltb 0 (inject_Z (wrap (dtype self) (r - p)))))
        (pred self) (ref self).

Definition __tp_map (self : t) : ndarray Z :=
  amap2 (fun p r => b2z (Qltb 1 (inject_Z (r + p)))) (pred self) (ref self).

Definition __tn_map (self : t) : ndarray Z :=
  amap2 (fun p r => b2z (Qltb (inject_Z (r + p)) (1 # 2))) (pred self) (ref self).

Definition __union_map (self : t) : ndarray Z :=
  amap2 (fun p r => b2z (Qltb (1 # 2) (inject_Z (r + p)))) (pred self) (ref self).

Definition __intersection_map (self : t) : ndarray Z :=
  amap2 (fun p r => (r * p)%Z) (pred self) (ref self).

Definition n_pos_ref (self : t) : Z := sumZ (data (ref self)).
Definition n_neg_ref (self : t) : Z := sumZ (data (amap (fun r => 1 - r)%Z (ref self))).
Definition n_pos_pred (self : t) : Z := sumZ (data (pred self)).
Definition n_neg_pred (self : t) : Z := sumZ (data (amap (fun p => 1 - p)%Z (pred self))).

Definition fp (self : t) : Z := sumZ (data (__fp_map self)).
Definition fn (self : t) : Z := sumZ (data (__fn_map self)).
Definition tp (self : t) : Z := sumZ (data (__tp_map self)).
Definition tn (self : t) : Z := sumZ (data (__tn_map self)).

Definition n_intersection (self : t) : Z := sumZ (data (__intersection_map self)).
Definition n_union (self : t) : Z := sumZ (data (__union_map self)).

Definition divZ (a b : Z) : npfloat Q := FQ.div (inject_Z a) (inject_Z b).

Definition sensitivity (self : t) : npfloat Q := divZ (tp self) (n_pos_ref self).

Definition specificity (self : t) : npfloat Q := divZ (tn self) (n_neg_ref self).

Definition positive_predictive_values (self : t) : npfloat Q :=
  if flag_empty self then Fin (-1)
  else divZ (tp self) (tp self + fp self).

Definition recall (self : t) : npfloat Q := divZ (tp self) (tp self + fn self).

Definition intersection_over_union (self : t) : npfloat Q :=
  divZ (n_intersection self) (n_union self).

(** ** Overlap and agreement ratios *)

Definition youden_index (self : t) : npfloat Q :=
  FQ.add (FQ.sub (Fin 1) (specificity self)) (sensitivity self).

Definition balanced_accuracy (self : t) : npfloat Q :=
  FQ.add (FQ.mul (Fin (1 # 2)) (sensitivity self))
         (FQ.mul (Fin (1 # 2)) (specificity self)).

Definition accuracy (self : t) : npfloat Q :=
  divZ (tn self + tp self) (tn self + tp self + fn self + fp self).

Definition false_positive_rate (self : t) : npfloat Q :=
  divZ (fp self) (n_neg_ref self).

Definition pred_in_ref (self : t) : Z :=
  let intersection := sumZ (data (amap2 Z.mul (pred self) (ref self))) in
  if (0 <? intersection)%Z then 1%Z else 0%Z.

(** [np.square(beta)] with [beta = dict_args['beta']], 1 by default. *)
Definition fbeta (self : t) : npfloat Q :=
  let beta := dict_get_default (dict_args self) "beta" 1 in
  let numerator :=
    FQ.mul (FQ.mul (Fin (Qred (1 + beta * beta)))
                   (positive_predictive_values self))
           (recall self) in
  let denominator :=
    FQ.add (FQ.mul (Fin (Qred (beta * beta))) (positive_predictive_values self))
           (recall self) in
  if FQ.is_zero denominator then NaN
  else FQ.fdiv numerator denominator.

Definition negative_predictive_values (self : t) : npfloat Q :=
  divZ (tn self) (fn self + tn self).

Definition dice_score (self : t) : npfloat Q :=
  divZ (2 * tp self) (sumZ (data (amap2 (fun p r => r + p)%Z (pred self) (ref self)))).

Definition intersection_over_reference (self : t) : npfloat Q :=
  divZ (n_intersection self) (n_pos_ref self).

Definition jaccard (self : t) : npfloat Q :=
  divZ (n_intersection self) (n_union self).

Definition informedness (self : t) : npfloat Q :=
  FQ.sub (FQ.add (sensitivity self) (specificity self)) (Fin 1).

Definition markedness (self : t) : npfloat Q :=
  FQ.sub (FQ.add (positive_predictive_values self)
                 (negative_predictive_values self)) (Fin 1).

(** [numerator / np.sqrt(denominator)]. *)
Definition matthews_correlation_coefficient (self : t) : npfloat R :=
  let numerator := (tp self * tn self - fp self * fn self)%Z in
  let denominator :=
    ((tp self + fp self) * (tp self + fn self)
     * (tn self + fp self) * (tn self + fn self))%Z in
  FR.div (IZR numerator) (sqrt (IZR denominator)).

Definition positive_likelihood_ratio (self : t) : npfloat Q :=
  let numerator := sensitivity self in
  let denominator := FQ.sub (Fin 1) (specificity self) in
  FQ.fdiv numerator denominator.

(** The comparison with the two masks exchanged. *)
Definition swap (self : t) : t :=
  mk (dtype self) (ref self) (pred self) (measures self) (neigh self)
     (pixdim self) (flag_empty self) (dict_args self).

(** ** Borders and distances *)

Definition boundary_iou (self : t) : npfloat Q :=
  let border_ref :=
    MorphologyOps.border_map (MorphologyOps.__init__ (ref self) (neigh self)) in
  let border_pred :=
    MorphologyOps.border_map (MorphologyOps.__init__ (pred self) (neigh self)) in
  divZ (sumZ (data (amap2 (fun a b => int8 (a * b)) border_ref border_pred)))
       (sumZ (data border_ref) + sumZ (data border_pred)).

(** Returns [(distance_border_ref, distance_border_pred, border_ref,
    border_pred)]. *)
Definition border_distance (self : t)
  : result (ndarray R * ndarray R * ndarray Z * ndarray Z) :=
  let border_ref :=
    MorphologyOps.border_map (MorphologyOps.__init__ (ref self) (neigh self)) in
  let border_pred :=
    MorphologyOps.border_map (MorphologyOps.__init__ (pred self) (neigh self)) in
  let oppose_ref := amap (fun r => 1 - r)%Z (ref self) in
  let oppose_pred := amap (fun p => 1 - p)%Z (pred self) in
  do distance_ref <- Ndimage.distance_transform_edt border_ref (pixdim self);
  do distance_pred <- Ndimage.distance_transform_edt border_pred (pixdim self);
  let distance_border_pred :=
    amap2 (fun b d => (IZR b * d)%R) border_ref distance_pred in
  let distance_border_ref :=
    amap2 (fun b d => (IZR b * d)%R) border_pred distance_ref in
  Ok (distance_border_ref, distance_border_pred, border_ref, border_pred).

(** [np.where(dist < tau, 1, 0)]. *)
Definition within (tau : R) (d : R) : R := if Rlt_dec d tau then 1%R else 0%R.

Definition normalised_surface_distance (self : t) (tau : R)
  : result (npfloat R) :=
  do bd <- border_distance self;
  let '(dist_ref, dist_pred, border_ref, border_pred) := bd in
  let reg_ref := amap (within tau) dist_ref in
  let reg_pred := amap (within tau) dist_pred in
  let numerator :=
    (sumR (data (amap2 (fun b r => IZR b * r) border_pred reg_ref))
     + sumR (data (amap2 (fun b r => IZR b * r) border_ref reg_pred)))%R in
  let denominator := (sumZ (data border_ref) + sumZ (data border_pred))%Z in
  Ok (FR.div numerator (IZR denominator)).

(** [measured_distance(perc)]: a 3-tuple on an empty pair, else the 4-tuple
    [(hausdorff_distance, average_distance, hausdorff_distance_95, masd)]. *)
Definition measured_distance (self : t) (perc : Q) : result (list (npfloat R)) :=
  if (sumZ (data (amap2 Z.add (pred self) (ref self))) =? 0)%Z then
    Ok [Fin 0%R; Fin 0%R; Fin 0%R]
  else
    do bd <- border_distance self;
    let '(ref_border_dist, pred_border_dist, ref_border, pred_border) := bd in
    let average_distance :=
      FR.div (sumR (data ref_border_dist) + sumR (data pred_border_dist))
             (IZR (sumZ (data (amap2 (fun a b => int8 (a + b))
                                     pred_border ref_border)))) in
    let masd :=
      FR.add (meanR (data ref_border_dist)) (meanR (data pred_border_dist)) in
    do m_ref <- maxR (data ref_border_dist);
    do m_pred <- maxR (data pred_border_dist);
    do hausdorff_distance <- maxR [m_ref; m_pred];
    let union_mask :=
      data (amap2 (fun r p => (0 <? r + p)%Z) (ref self) (pred self)) in
    do p_ref <- percentile (select (data ref_border_dist) union_mask) perc;
    do p_pred <- percentile (select (data pred_border_dist) union_mask) perc;
    do hausdorff_distance_95 <- maxR [p_ref; p_pred];
    Ok [Fin hausdorff_distance; average_distance;
        Fin hausdorff_distance_95; masd].

(** The default of [measured_distance(self, perc=95)]. *)
Definition default_perc : Q := 95.

Definition measured_average_distance (self : t) : result (npfloat R) :=
  do d <- measured_distance self default_perc; getitem d 1.

Definition measured_masd (self : t) : result (npfloat R) :=
  do d <- measured_distance self default_perc; getitem d 3.

Definition measured_hausdorff_distance (self : t) : result (npfloat R) :=
  do d <- measured_distance self default_perc; getitem d 0.

Definition measured_hausdorff_distance_perc (self : t) : result (npfloat R) :=
  let perc := dict_get_default (dict_args self) "hd" 95 in
  do d <- measured_distance self perc; getitem d 2.

(** ** Connected components *)

(** Returns [(blobs_ref, blobs_pred, init)]. *)
Definition _connected_components (self : t)
  : (ndarray Z * Z) * (ndarray Z * Z) * ndarray Z :=
  let init := amap2 Z.mul (pred self) (ref self) in
  let blobs_ref :=
    MorphologyOps.foreground_component
      (MorphologyOps.__init__ (ref self) (neigh self)) in
  let blobs_pred :=
    MorphologyOps.foreground_component
      (MorphologyOps.__init__ (pred self) (neigh self)) in
  (blobs_ref, blobs_pred, init).

(** [np.unique(a[a > 0])]. *)
Definition unique_positive (a : ndarray Z) : list Z :=
  uniqueZ (filter (fun v => 0 <? v)%Z (data a)).

(** [[x for x in l if x not in tp]]. *)
Definition not_in (l tp : list Z) : list Z :=
  filter (fun x => negb (existsb (Z.eqb x) tp)) l.

Definition connected_elements (self : t) : nat * nat * nat :=
  let '(blobs_ref, blobs_pred, init) := _connected_components self in
  let list_blobs_ref := range 1 (snd blobs_ref + 1) in
  let list_blobs_pred := range 1 (snd blobs_pred + 1) in
  let mul_blobs_ref := amap2 Z.mul (fst blobs_ref) init in
  let mul_blobs_pred := amap2 Z.mul (fst blobs_pred) init in
  let list_tp_ref := unique_positive mul_blobs_ref in
  let list_tp_pred := unique_positive mul_blobs_pred in
  let list_fn := not_in list_blobs_ref list_tp_ref in
  let list_fp := not_in list_blobs_pred list_tp_pred in
  (length list_tp_ref, length list_fp, length list_fn).

(** [for i in labels: m[blobs == i] = 1]. *)
Definition mark (blobs : ndarray Z) (labels : list Z) (m : list Z) : list Z :=
  fold_left (fun m i => assign_where m (map (Z.eqb i) (data blobs)) 1%Z)
            labels m.

(** Returns [(tpc_map, fnc_map, fpc_map)]. *)
Definition connected_errormaps (self : t) : ndarray Z * ndarray Z * ndarray Z :=
  let '(blobs_ref, blobs_pred, init) := _connected_components self in
  let list_blobs_ref := range 1 (snd blobs_ref) in
  let list_blobs_pred := range 1 (snd blobs_pred) in
  let mul_blobs_ref := amap2 Z.mul (fst blobs_ref) init in
  let mul_blobs_pred := amap2 Z.mul (fst blobs_pred) init in
  let list_tp_ref := unique_positive mul_blobs_ref in
  let list_tp_pred := unique_positive mul_blobs_pred in
  let list_fn := not_in list_blobs_ref list_tp_ref in
  let list_fp := not_in list_blobs_pred list_tp_pred in
  let zeros := map (fun _ => 0%Z) (data (fst blobs_ref)) in
  let tpc_map := mark (fst blobs_pred) list_tp_pred
                      (mark (fst blobs_ref) list_tp_ref zeros) in
  let fnc_map := mark (fst blobs_ref) list_fn zeros in
  let fpc_map := mark (fst blobs_pred) list_fp zeros in
  (mk_ndarray (shape (fst blobs_ref)) tpc_map,
   mk_ndarray (shape (fst blobs_ref)) fnc_map,
   mk_ndarray (shape (fst blobs_ref)) fpc_map).

(** [c = counts[unique == v]; 0 if len(c) == 0 else c[0]]. *)
Definition count_of (v : Z) (uc : list (Z * Z)) : Z :=
  match filter (fun u => (fst u =? v)%Z) uc with
  | [] => 0%Z
  | (_, c) :: _ => c
  end.

(** Returns [(OER, OEFP, OEFN)]. *)
Definition outline_error (self : t) : npfloat Q * Z * Z :=
  let '(tpcmap, _, _) := connected_errormaps self in
  let oefmap :=
    amap2 Z.sub (amap2 Z.mul (ref self) tpcmap) (amap2 Z.mul tpcmap (pred self)) in
  let uc := unique_countsZ (data oefmap) in
  let oefn := count_of 1 uc in
  let oefp := count_of (-1) uc in
  let oer := divZ (2 * (oefn + oefp)) (n_pos_pred self + n_pos_ref self) in
  (oer, oefp, oefn).

(** Returns [(DE, DEFP, DEFN)]. *)
Definition detection_error (self : t) : Z * Z * Z :=
  let '(tpcmap, fncmap, fpcmap) := connected_errormaps self in
  let defn := sumZ (data fncmap) in
  let defp := sumZ (data fpcmap) in
  ((defn + defp)%Z, defp, defn).

End BinaryPairwiseMeasures.

(* ================================================================== *)
(** * class ProbabilityPairwiseMeasures *)

Module ProbabilityPairwiseMeasures.

(** [case], when given, is a one-dimensional array with one case identifier
    per entry of the leading axis of pred and ref. *)
(** [dtype] is the element type of [ref], which the array carries itself;
    the difference of the boolean thresholded prediction and [ref] is taken
    in it. *)
Record t : Type := mk {
  dtype : Np.dtype;
  pred : ndarray Q;
  ref : ndarray Q;
  case : option (list Z);
  measures : list string;
  flag_empty : bool;
  dict_args : dict
}.

(** [__init__(self, pred_proba, ref_proba, case=None, measures=[],
    num_neighbors=8, pixdim=[1, 1, 1], empty=False, dict_args={})], with the
    element type of [ref_proba]; [num_neighbors] and [pixdim] are accepted
    and not stored. *)
Definition __init__ (dtype : Np.dtype) (pred_proba ref_proba : ndarray Q)
  (case : option (list Z)) (measures : list string) (num_neighbors : Z)
  (pixdim : list Q) (empty : bool) (dict_args : dict) : t :=
  mk dtype pred_proba ref_proba case measures empty dict_args.

(** The class invariant: pred and ref are well-formed arrays of one shape. *)
Definition wf (self : t) : Prop := same_shape (pred self) (ref self).

Definition b2q (b : bool) : Q := if b then 1 else 0.

(** [self.pred >= thresh], element by element. *)
Definition pred_bin (thresh p : Q) : bool := Qle_bool thresh p.

(** [(pred_bin - self.ref) > 0]: the difference is taken in the element
    type of [ref]. *)
Definition __fp_map_thr (self : t) (thresh : Q) : ndarray Z :=
  amap2 (fun p r => b2z (Qltb 0 (wrapQ (dtype self) (b2q (pred_bin thresh p) - r))))
        (pred self) (ref self).

Definition __fn_map_thr (self : t) (thresh : Q) : ndarray Z :=
  amap2 (fun p r => b2z (Qltb 0 (wrapQ (dtype self) (r - b2q (pred_bin thresh p)))))
        (pred self) (ref self).

Definition __tp_map_thr (self : t) (thresh : Q) : ndarray Z :=
  amap2 (fun p r => b2z (Qltb 1 (r + b2q (pred_bin thresh p))))
        (pred self) (ref self).

Definition __tn_map_thr (self : t) (thresh : Q) : ndarray Z :=
  amap2 (fun p r => b2z (Qltb (r + b2q (pred_bin thresh p)) (1 # 2)))
        (pred self) (ref self).

Definition fp_thr (self : t) (thresh : Q) : Z := sumZ (data (__fp_map_thr self thresh)).
Definition fn_thr (self : t) (thresh : Q) : Z := sumZ (data (__fn_map_thr self thresh)).
Definition tp_thr (self : t) (thresh : Q) : Z := sumZ (data (__tp_map_thr self thresh)).
Definition tn_thr (self : t) (thresh : Q) : Z := sumZ (data (__tn_map_thr self thresh)).

Definition n_pos_ref (self : t) : Q := sumQ (data (ref self)).
Definition n_neg_ref (self : t) : Q := sumQ (data (amap (fun r => 1 - r) (ref self))).

Definition positive_predictive_values_thr (self : t) (thresh : Q) : npfloat Q :=
  if flag_empty self then Fin (-1)
  else FQ.div (inject_Z (tp_thr self thresh))
              (inject_Z (tp_thr self thresh + fp_thr self thresh)).

Definition specificity_thr (self : t) (thresh : Q) : npfloat Q :=
  FQ.div (inject_Z (tn_thr self thresh)) (n_neg_ref self).

Definition sensitivity_thr (self : t) (thresh : Q) : npfloat Q :=
  FQ.div (inject_Z (tp_thr self thresh)) (n_pos_ref self).

(** [a[ind]] with an integer index array: the selected entries of the
    leading axis, in the order of [ind]. *)
Definition take {A : Type} (a : ndarray A) (ind : list nat) : result (ndarray A) :=
  match shape a with
  | [] => Raise IndexError
  | d0 :: rest =>
      if forallb (fun i => i <? d0)%nat ind then
        Ok (mk_ndarray (length ind :: rest)
              (flat_map (fun i => firstn (prod rest) (skipn (i * prod rest) (data a)))
                        ind))
      else Raise IndexError
  end.

(** [np.where(case == f)[0]]. *)
Definition where_eq (case : list Z) (f : Z) : list nat :=
  map fst (filter (fun ic => (snd ic =? f)%Z) (combine (seq 0 (length case)) case)).

(** [np.max] on an integer array. *)
Definition maxZ (l : list Z) : result Z :=
  match l with
  | [] => Raise ValueError
  | x :: l' => Ok (fold_left Z.max l' x)
  end.

(** [np.mean] of an array of counts. *)
Definition meanZ (l : list Z) : npfloat Q :=
  FQ.div (inject_Z (sumZ l)) (inject_Z (Z.of_nat (length l))).

Fixpoint chunks {A : Type} (n L : nat) (l : list A) : list (list A) :=
  match n with
  | O => []
  | S n' => firstn L l :: chunks n' L (skipn L l)
  end.

(** [np.reshape(a, [-1, L])], as the list of its rows. *)
Definition reshape_rows {A : Type} (l : list A) (L : nat) : result (list (list A)) :=
  if (L =? 0)%nat then Raise ValueError
  else if negb (length l mod L =? 0)%nat then Raise ValueError
  else Ok (chunks (length l / L) L l).

(** [np.sum(rows, axis=0)] for rows of length [L]. *)
Definition sum_axis0 (rows : list (list Z)) (L : nat) : list Z :=
  fold_left (zip_with Z.add) rows (repeat 0%Z L).

Definition fppi_thr (self : t) (thresh : Q) : result (npfloat Q) :=
  match case self with
  | Some case =>
      do top <- maxZ case;
      do list_sum <-
        mapM (fun f =>
                let ind_case := where_eq case f in
                do p <- take (pred self) ind_case;
                do r <- take (ref self) ind_case;
                let case_tmp :=
                  __init__ (dtype self) p r None [] 8 [1; 1; 1] false [] in
                Ok (fp_thr case_tmp thresh))
             (range 0 top);
      Ok (meanZ list_sum)
  | None =>
      do L <- getitem (rev (shape (ref self))) 0;
      do rows <- reshape_rows (data (__fp_map_thr self thresh)) L;
      let sum_per_image := sum_axis0 rows L in
      Ok (meanZ sum_per_image)
  end.

(** [thresh] is a Python float: [thresh / (1 - thresh)] raises on a zero
    divisor, after the two NumPy divisions by [n], which do not raise. *)
Definition net_benefit_treated (self : t) : result (npfloat Q) :=
  let thresh := dict_get_default (dict_args self) "benefit_proba" (1 # 2) in
  let tp_thresh := tp_thr self thresh in
  let fp_thresh := fp_thr self thresh in
  let n := Z.of_nat (size (pred self)) in
  let rates :=
    FQ.mul (FQ.div (inject_Z tp_thresh) (inject_Z n))
           (FQ.div (inject_Z fp_thresh) (inject_Z n)) in
  if Qeq_bool (1 - thresh) 0 then Raise ZeroDivisionError
  else Ok (FQ.mul rates (Fin (Qred (thresh / (1 - thresh))))).

(** The body of the coalescing loop over [zip(unique_thresh,
    unique_counts)]; the state is [(unique_new_thresh, current_count,
    new_thresh)], where [new_thresh] is unbound until first assigned. *)
Definition coalesce_step (numb_samples_temp : Q)
  (st : result (list Q * Z * option Q)) (fc : Q * Z)
  : result (list Q * Z * option Q) :=
  do s <- st;
  let '(unique_new_thresh, current_count, new_thresh) := s in
  let '(f, c) := fc in
  if Qltb (inject_Z current_count) numb_samples_temp then
    Ok (unique_new_thresh, (current_count + c)%Z, Some f)
  else
    match new_thresh with
    | Some nt => Ok (unique_new_thresh ++ [nt], 0%Z, new_thresh)
    | None => Raise UnboundLocalError
    end.

(** Python's [a / b] on two integers. *)
Definition py_div (a b : Z) : result Q :=
  if (b =? 0)%Z then Raise ZeroDivisionError else Ok (inject_Z a / inject_Z b).

(** The thresholds retained by [all_multi_threshold_values], before the
    final sort. *)
Definition retained_thresholds (self : t) (max_number_samples max_number_thresh : Z)
  : result (list Q) :=
  let uc := unique_counts (data (pred self)) in
  let unique_thresh := map fst uc in
  if (Z.of_nat (length unique_thresh) <? max_number_thresh)%Z then Ok unique_thresh
  else if (Z.of_nat (size (ref self)) <? max_number_samples)%Z then Ok unique_thresh
  else
    do numb_thresh_temp <- py_div (Z.of_nat (size (ref self))) max_number_samples;
    do numb_samples_temp <- py_div (Z.of_nat (size (pred self))) max_number_thresh;
    do s <- fold_left (coalesce_step numb_samples_temp) uc (Ok ([0], 0%Z, None));
    Ok (fst (fst s)).

(** The loop [for val in unique_new_thresh], building the four lists. *)
Fixpoint sweep (self : t) (thresholds : list Q)
  : result (list (npfloat Q) * list (npfloat Q) * list (npfloat Q)
            * list (npfloat Q)) :=
  match thresholds with
  | [] => Ok ([], [], [], [])
  | val :: rest =>
      let sens := sensitivity_thr self val in
      let spec := specificity_thr self val in
      let ppv := positive_predictive_values_thr self val in
      do fppi <- fppi_thr self val;
      do r <- sweep self rest;
      let '(list_sens, list_spec, list_ppv, list_fppi) := r in
      Ok (sens :: list_sens, spec :: list_spec, ppv :: list_ppv,
          fppi :: list_fppi)
  end.

(** Returns [(unique_new_thresh, list_sens, list_spec, list_ppv,
    list_fppi)]; the defaults are [max_number_samples=150] and
    [max_number_thresh=1500]. *)
Definition all_multi_threshold_values (self : t)
  (max_number_samples max_number_thresh : Z)
  : result (list Q * list (npfloat Q) * list (npfloat Q) * list (npfloat Q)
            * list (npfloat Q)) :=
  do unique_new_thresh <- retained_thresholds self max_number_samples max_number_thresh;
  let unique_new_thresh := rev (sortQ unique_new_thresh) in
  do r <- sweep self unique_new_thresh;
  let '(list_sens, list_spec, list_ppv, list_fppi) := r in
  Ok (unique_new_thresh, list_sens, list_spec, list_ppv, list_fppi).

(** ** Calibration *)

(** [np.logical_and(self.pred > l, self.pred <= u)], element by element. *)
Definition in_bin (l u p : Q) : bool := Qltb l p && Qle_bool p u.

(** The body of the loop over the bins [(l, u)]; the state is
    [(list_values, numb_samples)]. *)
Definition ece_bin (self : t) (st : list (npfloat Q) * Z) (lu : Q * Q)
  : list (npfloat Q) * Z :=
  let '(list_values, numb_samples) := st in
  let '(l, u) := lu in
  let ref_tmp :=
    zip_with (fun p r => if in_bin l u p then r else (-1)%Q)
             (data (pred self)) (data (ref self)) in
  let ref_sel := filter (Qltb (-1)) ref_tmp in
  let nsamples := Z.of_nat (length ref_sel) in
  let prop := FQ.div (sumQ ref_sel) (inject_Z nsamples) in
  let pred_tmp :=
    map (fun p => if in_bin l u p then p else (-1)%Q) (data (pred self)) in
  let pred_sel := filter (Qltb (-1)) pred_tmp in
  let value :=
    if (nsamples =? 0)%Z then Fin 0
    else FQ.mul (FQ.of_Z nsamples) (FQ.abs (FQ.sub prop (meanQ pred_sel))) in
  (list_values ++ [value], (numb_samples + nsamples)%Z).

(** [zip(range_values[:-1], range_values[1:])] for
    [range_values = np.arange(0, 1.00001, step)]. *)
Definition ece_bins (step : Q) : list (Q * Q) :=
  let range_values := arange 0 (100001 # 100000) step in
  combine (removelast range_values) (tl range_values).

Definition expectation_calibration_error (self : t) : result (npfloat Q) :=
  let nbins := dict_get_default (dict_args self) "bins_ece" 10 in
  if Qeq_bool nbins 0 then Raise ZeroDivisionError
  else
    let step := 1 / nbins in
    let '(list_values, numb_samples) :=
      fold_left (ece_bin self) (ece_bins step) ([], 0%Z) in
    Ok (FQ.divf (FQ.sum list_values) (inject_Z numb_samples)).

(** The comparison restricted to the voxels whose predicted probability is
    not 0: [pred[pred != 0]] against [ref[pred != 0]]. *)
Definition nonzero_mask (ps : list Q) : list bool :=
  map (fun p => negb (Qeq_bool p 0)) ps.

Definition without_zero_pred (self : t) : t :=
  let keep := nonzero_mask (data (pred self)) in
  let p := select (data (pred self)) keep in
  let r := select (data (ref self)) keep in
  mk (dtype self) (mk_ndarray [length p] p) (mk_ndarray [length r] r)
     (case self) (measures self) (flag_empty self) (dict_args self).

End ProbabilityPairwiseMeasures.

(* ================================================================== *)
(** * class MultiClassPairwiseMeasures

    pred and ref are one-dimensional arrays of integer labels. *)

Module MultiClassPairwiseMeasures.

Record t : Type := mk {
  pred : ndarray Z;
  ref : ndarray Z;
  list_values : list Z;
  measures : list string;
  dict_args : dict
}.

Definition __init__ (pred ref : ndarray Z) (list_values : list Z)
  (measures : list string) (dict_args : dict) : t :=
  mk pred ref list_values measures dict_args.

(** [len(np.where(a == f)[0])]. *)
Definition n_equal (a : ndarray Z) (f : Z) : Z :=
  Z.of_nat (length (filter (Z.eqb f) (data a))).

(** The loop body divides two Python integers: an empty array raises. *)
Definition chance_agreement_probability (self : t) : result Q :=
  fold_left
    (fun acc f =>
       do chance <- acc;
       do prob_pred <- ProbabilityPairwiseMeasures.py_div
                         (n_equal (pred self) f) (Z.of_nat (size (pred self)));
       do prob_ref <- ProbabilityPairwiseMeasures.py_div
                        (n_equal (ref self) f) (Z.of_nat (size (ref self)));
       Ok (chance + prob_pred * prob_ref))
    (list_values self) (Ok 0).

(** [np.eye(k)[i]]: row [i] of the identity matrix, a negative [i] counting
    from the end; [np.eye] rejects a negative size and the indexing an [i]
    outside [-k, k). *)
Definition eye_row (k i : Z) : result (list Z) :=
  if (k <? 0)%Z then Raise ValueError
  else if ((- k <=? i) && (i <? k))%Z then
    let j := (if i <? 0 then i + k else i)%Z in
    Ok (map (fun c => b2z (c =? j)%Z) (range 0 k))
  else Raise IndexError.

(** [np.eye(np.max(self.list_values) + 1)[labels]], as the list of its
    rows. *)
Definition one_hot (self : t) (labels : ndarray Z) : result (list (list Z)) :=
  do m <- ProbabilityPairwiseMeasures.maxZ (list_values self);
  if (m + 1 <? 0)%Z then Raise ValueError
  else mapM (eye_row (m + 1)) (data labels).

Definition one_hot_pred (self : t) : result (list (list Z)) :=
  one_hot self (pred self).

Definition one_hot_ref (self : t) : result (list (list Z)) :=
  one_hot self (ref self).

(** Column [i] of a matrix given by its rows. *)
Definition column (rows : list (list Z)) (i : nat) : list Z :=
  map (fun row => nth i row 0%Z) rows.

(** [np.matmul(a.T, b)] for two matrices with the same number of rows. *)
Definition matmul_T (k : nat) (a b : list (list Z)) : result (list (list Z)) :=
  if negb (length a =? length b)%nat then Raise ValueError
  else
    Ok (map (fun i =>
               map (fun j => sumZ (zip_with Z.mul (column a i) (column b j)))
                   (seq 0 k))
            (seq 0 k)).

Definition confusion_matrix (self : t) : result (list (list Z)) :=
  do one_hot_pred <- one_hot self (pred self);
  do one_hot_ref <- one_hot self (ref self);
  do m <- ProbabilityPairwiseMeasures.maxZ (list_values self);
  matmul_T (Z.to_nat (m + 1)) one_hot_pred one_hot_ref.

End MultiClassPairwiseMeasures.

(* ================================================================== *)
(** * The specification's wording

    Each definition below follows the sentence of the specification, not the
    source, and is compared with the source's method in the theorems. *)

Module Spec.

Import BinaryPairwiseMeasures.

(** "Boundary IoU = |border_ref and border_pred| / (|border_ref| +
    |border_pred| - |border_ref and border_pred|)". *)
Definition boundary_iou (self : t) : npfloat Q :=
  let border_ref :=
    MorphologyOps.border_map (MorphologyOps.__init__ (ref self) (neigh self)) in
  let border_pred :=
    MorphologyOps.border_map (MorphologyOps.__init__ (pred self) (neigh self)) in
  let inter := sumZ (data (amap2 Z.mul border_ref border_pred)) in
  divZ inter (sumZ (data border_ref) + sumZ (data border_pred) - inter).

(** "the Euclidean distance transform of the complement of each border
    mask, scaled per-axis by the physical spacing vector": the distance from
    every voxel to the nearest border voxel. *)
Definition distance_to_border (border : ndarray Z) (pixdim : list Q)
  : result (ndarray R) :=
  Ndimage.distance_transform_edt (amap (fun b => 1 - b)%Z border) pixdim.

(** "distance-to-prediction-border evaluated at reference-border voxels, and
    symmetric distance-to-reference-border evaluated at prediction-border
    voxels", in the order of the source's tuple. *)
Definition border_distance (self : t)
  : result (ndarray R * ndarray R * ndarray Z * ndarray Z) :=
  let border_ref :=
    MorphologyOps.border_map (MorphologyOps.__init__ (ref self) (neigh self)) in
  let border_pred :=
    MorphologyOps.border_map (MorphologyOps.__init__ (pred self) (neigh self)) in
  do distance_ref <- distance_to_border border_ref (pixdim self);
  do distance_pred <- distance_to_border border_pred (pixdim self);
  Ok (amap2 (fun b d => (IZR b * d)%R) border_pred distance_ref,
      amap2 (fun b d => (IZR b * d)%R) border_ref distance_pred,
      border_ref, border_pred).

(** The voxels of the components of [blobs] (labels 1 to the component
    count, inclusive) that do not meet [init]. *)
Definition unmatched_voxels (blobs : ndarray Z * Z) (init : ndarray Z) : Z :=
  let matched := unique_positive (amap2 Z.mul (fst blobs) init) in
  let unmatched := not_in (range 1 (snd blobs + 1)) matched in
  count (map (fun v => existsb (Z.eqb v) unmatched) (data (fst blobs))).

(** "detection error sums voxels belonging entirely to unmatched
    components": [(DE, DEFP, DEFN)]. *)
Definition detection_error (self : t) : Z * Z * Z :=
  let '(blobs_ref, blobs_pred, init) := _connected_components self in
  let defn := unmatched_voxels blobs_ref init in
  let defp := unmatched_voxels blobs_pred init in
  ((defn + defp)%Z, defp, defn).

(** "The operating-point curve's sensitivity sequence is non-increasing as
    threshold increases": along the emitted order (decreasing threshold)
    every sensitivity is at most each later one. *)
Definition monotone_sweep (self : ProbabilityPairwiseMeasures.t)
  (max_number_samples max_number_thresh : Z) : Prop :=
  forall thr sens spec ppv fppi,
    ProbabilityPairwiseMeasures.all_multi_threshold_values
      self max_number_samples max_number_thresh
    = Ok (thr, sens, spec, ppv, fppi) ->
    StronglySorted FQ.le sens.

End Spec.

(* ================================================================== *)
(** * Sample comparisons *)

Module Samples.

(** Two masks built from Python integers ([int64]). *)
Definition binary_pair (sh : list nat) (pixdim : list Q) (empty : bool)
  (pred ref : list Z) : BinaryPairwiseMeasures.t :=
  BinaryPairwiseMeasures.__init__ (Int W64)
    (mk_ndarray sh pred) (mk_ndarray sh ref) [] 8 pixdim empty [].

(** Two arrays built from Python floats ([float64]). *)
Definition proba_pair (sh : list nat) (args : dict) (pred ref : list Q)
  : ProbabilityPairwiseMeasures.t :=
  ProbabilityPairwiseMeasures.__init__ Float
    (mk_ndarray sh pred) (mk_ndarray sh ref) None [] 8 [1; 1; 1] false args.

(** pred = [[0, 1]], ref = [[1, 0]], both of dtype [uint8]. *)
Definition disagreeing_uint8 : BinaryPairwiseMeasures.t :=
  BinaryPairwiseMeasures.__init__ (UInt W8)
    (mk_ndarray [1%nat; 2%nat] [0; 1]%Z) (mk_ndarray [1%nat; 2%nat] [1; 0]%Z)
    [] 8 [1; 1] false [].

(** The same two masks built from Python integers. *)
Definition disagreeing : BinaryPairwiseMeasures.t :=
  binary_pair [1%nat; 2%nat] [1; 1] false [0; 1]%Z [1; 0]%Z.

(** ref = [[1, 0, 0]], pred = [[0, 0, 1]], unit spacing. *)
Definition far_apart : BinaryPairwiseMeasures.t :=
  binary_pair [1%nat; 3%nat] [1; 1] false [0; 0; 1]%Z [1; 0; 0]%Z.

(** pred = ref = [[1, 0]], unit spacing. *)
Definition identical : BinaryPairwiseMeasures.t :=
  binary_pair [1%nat; 2%nat] [1; 1] false [1; 0]%Z [1; 0]%Z.

(** pred = ref = [[1]]. *)
Definition identical_unit : BinaryPairwiseMeasures.t :=
  binary_pair [1%nat; 1%nat] [1; 1] false [1]%Z [1]%Z.

(** pred = ref = [[0, 0], [0, 0]]. *)
Definition both_empty : BinaryPairwiseMeasures.t :=
  binary_pair [2%nat; 2%nat] [1; 1] false [0; 0; 0; 0]%Z [0; 0; 0; 0]%Z.

(** The same pair, constructed with [empty=True]. *)
Definition both_empty_flagged : BinaryPairwiseMeasures.t :=
  binary_pair [2%nat; 2%nat] [1; 1] true [0; 0; 0; 0]%Z [0; 0; 0; 0]%Z.

(** ref = [[1, 0, 1], [0, 0, 0]], pred = [[1, 0, 0], [0, 0, 1]]: the second
    component of each mask has no voxel in common with the other mask. *)
Definition unmatched_last : BinaryPairwiseMeasures.t :=
  binary_pair [2%nat; 3%nat] [1; 1] false [1; 0; 0; 0; 0; 1]%Z [1; 0; 1; 0; 0; 0]%Z.

(** The scenario of the specification: ref = [[1,1,0],[0,0,0]],
    pred = [[1,0,0],[0,1,0]]. *)
Definition scenario : BinaryPairwiseMeasures.t :=
  binary_pair [2%nat; 3%nat] [1; 1] false [1; 0; 0; 0; 1; 0]%Z [1; 1; 0; 0; 0; 0]%Z.

(** pred = [0.2, 0.8] against an all-zero reference. *)
Definition no_positive : ProbabilityPairwiseMeasures.t :=
  proba_pair [2%nat] [] [2 # 10; 8 # 10] [0; 0].

(** pred = [0.1, 0.4, 0.35, 0.8], ref = [0, 0, 1, 1]. *)
Definition four_scores : ProbabilityPairwiseMeasures.t :=
  proba_pair [4%nat] [] [1 # 10; 4 # 10; 35 # 100; 8 # 10] [0; 0; 1; 1].

(** Every prediction 0.7, half of the reference positive, one bin. *)
Definition all_seven_tenths : ProbabilityPairwiseMeasures.t :=
  proba_pair [4%nat] [("bins_ece"%string, 1)]
    [7 # 10; 7 # 10; 7 # 10; 7 # 10] [1; 0; 1; 0].

(** pred = [0, 0.3, 0, 0.9], ref = [1, 1, 0, 1], default ten bins. *)
Definition with_zero_scores : ProbabilityPairwiseMeasures.t :=
  proba_pair [4%nat] [] [0; 3 # 10; 0; 9 # 10] [1; 1; 0; 1].

End Samples.

(* ================================================================== *)
(** * Properties *)

Unset Implicit Arguments.

Module B := BinaryPairwiseMeasures.
Module P := ProbabilityPairwiseMeasures.
Module M := MultiClassPairwiseMeasures.

(** ** Sums and element-wise maps *)

Lemma sumZ_acc (l : list Z) (a : Z) :
  fold_left Z.add l a = (a + sumZ l)%Z.
Proof.
  unfold sumZ. revert a.
  induction l as [|x l IH]; intros a; simpl.
  - lia.
  - rewrite IH, (IH x). lia.
Qed.

Lemma sumZ_cons (x : Z) (l : list Z) : sumZ (x :: l) = (x + sumZ l)%Z.
Proof. unfold sumZ at 1. simpl. now rewrite sumZ_acc. Qed.

Lemma sumZ_nil : sumZ [] = 0%Z.
Proof. reflexivity. Qed.

Lemma zip_with_length {A B C : Type} (f : A -> B -> C) (l : list A) (m : list B) :
  length l = length m -> length (zip_with f l m) = length l.
Proof.
  revert m. induction l as [|x l IH]; intros [|y m] H; simpl in *;
    try discriminate; auto.
Qed.

Lemma same_shape_length {A B : Type} (a : ndarray A) (b : ndarray B) :
  same_shape a b -> length (data a) = length (data b).
Proof.
  intros (Hs & Ha & Hb). unfold Np.wf in *. now rewrite Ha, Hb, Hs.
Qed.

(** ** Confusion counts *)

(** Closes [Forall (fun v => v = 0 \/ v = 1) l] on a literal list. *)
Ltac binary_list :=
  repeat (apply Forall_cons;
          [ (left; reflexivity) || (right; reflexivity) | ]);
  apply Forall_nil.

(** What [(a - b) > 0] gives on two 0/1 values: in a signed or floating
    type only the case a = 1, b = 0; in an unsigned type every a <> b, since
    0 - 1 wraps around to the largest value of the type. *)
Lemma difference_positive (d : dtype) (a b : Z) :
  (a = 0 \/ a = 1)%Z -> (b = 0 \/ b = 1)%Z ->
  Qltb 0 (inject_Z (wrap d (a - b)))
  = match d with
    | UInt _ => negb (a =? b)%Z
    | _ => ((a =? 1) && (b =? 0))%Z
    end.
Proof.
  intros [-> | ->] [-> | ->]; destruct d as [[]|[]|]; reflexivity.
Qed.

(** At one voxel with both values in {0,1} and a signed or floating element
    type, exactly one of the four maps holds a 1. *)
Lemma confusion_voxel (d : dtype) (p r : Z) :
  signed d -> (p = 0 \/ p = 1)%Z -> (r = 0 \/ r = 1)%Z ->
  (b2z (Qltb 1 (inject_Z (r + p))) + b2z (Qltb 0 (inject_Z (wrap d (p - r))))
   + b2z (Qltb (inject_Z (r + p)) (1 # 2))
   + b2z (Qltb 0 (inject_Z (wrap d (r - p)))))%Z
  = 1%Z.
Proof.
  intros Hd Hp Hr.
  rewrite (difference_positive d p r Hp Hr), (difference_positive d r p Hr Hp).
  destruct d as [w|w|]; [| destruct Hd |];
    destruct Hp as [-> | ->], Hr as [-> | ->]; reflexivity.
Qed.

Lemma confusion_lists (d : dtype) (ps rs : list Z) :
  signed d ->
  length ps = length rs ->
  Forall (fun v => v = 0 \/ v = 1)%Z ps ->
  Forall (fun v => v = 0 \/ v = 1)%Z rs ->
  (sumZ (zip_with (fun p r => b2z (Qltb 1 (inject_Z (r + p)))) ps rs)
   + sumZ (zip_with (fun p r => b2z (Qltb 0 (inject_Z (wrap d (p - r))))) ps rs)
   + sumZ (zip_with (fun p r => b2z (Qltb (inject_Z (r + p)) (1 # 2))) ps rs)
   + sumZ (zip_with (fun p r => b2z (Qltb 0 (inject_Z (wrap d (r - p))))) ps rs))%Z
  = Z.of_nat (length ps).
Proof.
  intros Hd. revert rs.
  induction ps as [|p ps IH]; intros [|r rs] Hlen Hp Hr;
    simpl in Hlen; try discriminate.
  - reflexivity.
  - inversion Hp as [|? ? Hp0 Hps]; subst.
    inversion Hr as [|? ? Hr0 Hrs]; subst.
    injection Hlen as Hlen.
    specialize (IH rs Hlen Hps Hrs).
    cbn [zip_with length]. rewrite !sumZ_cons.
    pose proof (confusion_voxel d _ _ Hd Hp0 Hr0) as Hv.
    lia.
Qed.

(** For equal-shape 0/1 masks of a signed or floating element type the four
    confusion counts partition the grid. *)
Lemma confusion_counts_signed (self : B.t) :
  B.wf self -> B.binary self -> signed (B.dtype self) ->
  (B.tp self + B.fp self + B.tn self + B.fn self)%Z
    = Z.of_nat (Np.prod (shape (B.pred self)))
  /\ Np.prod (shape (B.pred self)) = size (B.ref self).
Proof.
  intros Hwf [Hp Hr] Hd.
  pose proof (same_shape_length _ _ Hwf) as Hlen.
  destruct Hwf as (Hs & Hwp & Hwr). unfold Np.wf in *.
  split.
  - unfold B.tp, B.fp, B.tn, B.fn, B.__tp_map, B.__fp_map, B.__tn_map,
      B.__fn_map, amap2. cbn [data].
    rewrite (confusion_lists _ _ _ Hd Hlen Hp Hr). now rewrite Hwp.
  - unfold size. now rewrite Hs, Hwr.
Qed.

(** C7. On the equal-shape 0/1 masks pred = [[0, 1]], ref = [[1, 0]] of
    dtype uint8 the four confusion counts do not partition the grid: both
    differences wrap around at the two disagreeing voxels, so each of them is
    counted as a false positive and as a false negative, and
    tp() + fp() + tn() + fn() is 4 on a grid of 2 voxels. The same masks
    built from Python integers give (tp, fp, tn, fn) = (0, 1, 0, 1). *)
Theorem confusion_counts_wrap_on_unsigned :
  B.wf Samples.disagreeing_uint8 /\ B.binary Samples.disagreeing_uint8
  /\ (B.tp Samples.disagreeing_uint8, B.fp Samples.disagreeing_uint8,
      B.tn Samples.disagreeing_uint8, B.fn Samples.disagreeing_uint8)
     = (0, 2, 0, 2)%Z
  /\ (B.tp Samples.disagreeing_uint8 + B.fp Samples.disagreeing_uint8
      + B.tn Samples.disagreeing_uint8 + B.fn Samples.disagreeing_uint8)%Z
     <> Z.of_nat (Np.prod (shape (B.pred Samples.disagreeing_uint8)))
  /\ Np.prod (shape (B.pred Samples.disagreeing_uint8)) = 2%nat
  /\ (B.tp Samples.disagreeing, B.fp Samples.disagreeing,
      B.tn Samples.disagreeing, B.fn Samples.disagreeing)
     = (0, 1, 0, 1)%Z.
Proof.
  split; [repeat split; reflexivity |].
  split; [split; binary_list |].
  split; [reflexivity |].
  split; [discriminate |].
  split; reflexivity.
Qed.

(** The two companion identities of the specification. *)
Lemma tp_fn_n_pos_ref (d : dtype) (ps rs : list Z) :
  signed d ->
  length ps = length rs ->
  Forall (fun v => v = 0 \/ v = 1)%Z ps ->
  Forall (fun v => v = 0 \/ v = 1)%Z rs ->
  (sumZ (zip_with (fun p r => b2z (Qltb 1 (inject_Z (r + p)))) ps rs)
   + sumZ (zip_with (fun p r => b2z (Qltb 0 (inject_Z (wrap d (r - p))))) ps rs))%Z
  = sumZ rs.
Proof.
  intros Hd. revert rs.
  induction ps as [|p ps IH]; intros [|r rs] Hlen Hp Hr;
    simpl in Hlen; try discriminate.
  - reflexivity.
  - inversion Hp as [|? ? Hp0 Hps]; subst.
    inversion Hr as [|? ? Hr0 Hrs]; subst.
    injection Hlen as Hlen.
    specialize (IH rs Hlen Hps Hrs).
    cbn [zip_with]. rewrite !sumZ_cons.
    assert (Hv : (b2z (Qltb 1 (inject_Z (r + p)))
                  + b2z (Qltb 0 (inject_Z (wrap d (r - p)))))%Z = r).
    { rewrite (difference_positive d r p Hr0 Hp0).
      destruct d as [w|w|]; [| destruct Hd |];
        destruct Hp0 as [-> | ->], Hr0 as [-> | ->]; reflexivity. }
    lia.
Qed.

Lemma tp_plus_fn (self : B.t) :
  B.wf self -> B.binary self -> signed (B.dtype self) ->
  (B.tp self + B.fn self)%Z = B.n_pos_ref self.
Proof.
  intros Hwf [Hp Hr] Hd.
  apply (tp_fn_n_pos_ref _ _ _ Hd (same_shape_length _ _ Hwf) Hp Hr).
Qed.

(** ** The empty flag *)

(** C8. Whenever the comparison is constructed with the empty flag set,
    positive_predictive_values returns the sentinel -1, which is a finite
    value and not nan, whatever pred and ref hold. *)
Theorem ppv_empty_flag_sentinel (self : B.t) :
  B.flag_empty self = true ->
  B.positive_predictive_values self = Fin (-1)
  /\ B.positive_predictive_values self <> NaN.
Proof.
  intros H. unfold B.positive_predictive_values. rewrite H.
  split; [reflexivity | discriminate].
Qed.

Lemma ppv_empty_flag_sentinel_witness :
  B.positive_predictive_values Samples.both_empty_flagged = Fin (-1)
  /\ B.positive_predictive_values Samples.both_empty_flagged <> NaN.
Proof.
  apply (ppv_empty_flag_sentinel Samples.both_empty_flagged). reflexivity.
Defined.

(** Without the flag the same all-zero pair gives 0/0. *)
Lemma ppv_both_empty_unflagged :
  B.positive_predictive_values Samples.both_empty = NaN.
Proof. reflexivity. Qed.

(** ** Boundary IoU *)

Lemma sumZ_square_binary (l : list Z) :
  Forall (fun v => v = 0 \/ v = 1)%Z l ->
  sumZ (zip_with (fun a b => int8 (a * b)) l l) = sumZ l
  /\ sumZ (zip_with Z.mul l l) = sumZ l.
Proof.
  induction 1 as [|v l Hv Hl [IH1 IH2]]; [split; reflexivity |].
  cbn [zip_with]. rewrite !sumZ_cons, IH1, IH2.
  destruct Hv as [-> | ->]; split; reflexivity.
Qed.

(** Whenever the two border maps are one and the same 0/1 array with at
    least one border voxel, boundary_iou is 1/2 and the Jaccard form is 1. *)
Lemma boundary_iou_same_border (self : B.t) :
  let border_ref :=
    MorphologyOps.border_map
      (MorphologyOps.__init__ (B.ref self) (B.neigh self)) in
  let border_pred :=
    MorphologyOps.border_map
      (MorphologyOps.__init__ (B.pred self) (B.neigh self)) in
  border_pred = border_ref ->
  Forall (fun v => v = 0 \/ v = 1)%Z (data border_ref) ->
  (0 < sumZ (data border_ref))%Z ->
  B.boundary_iou self = Fin (1 # 2) /\ Spec.boundary_iou self = Fin 1.
Proof.
  intros border_ref border_pred Heq Hbin Hpos.
  destruct (sumZ_square_binary _ Hbin) as [H1 H2].
  unfold B.boundary_iou, Spec.boundary_iou.
  fold border_ref border_pred. rewrite Heq.
  unfold amap2. cbn [data]. rewrite H1, H2.
  set (n := sumZ (data border_ref)) in *.
  unfold B.divZ, FQ.div.
  assert (E1 : Qeq_bool (inject_Z (n + n)) 0 = false).
  { destruct (Qeq_bool (inject_Z (n + n)) 0) eqn:E; [| reflexivity].
    apply Qeq_bool_eq in E. unfold Qeq in E. simpl in E. lia. }
  assert (E2 : Qeq_bool (inject_Z (n + n - n)) 0 = false).
  { destruct (Qeq_bool (inject_Z (n + n - n)) 0) eqn:E; [| reflexivity].
    apply Qeq_bool_eq in E. unfold Qeq in E. simpl in E. lia. }
  rewrite E1, E2. split; f_equal.
  - transitivity (Qred (1 # 2)); [| reflexivity].
    apply Qred_complete. unfold Qeq, Qdiv, Qmult, Qinv. simpl.
    destruct (n + n)%Z eqn:En; simpl; lia.
  - transitivity (Qred 1); [| reflexivity].
    apply Qred_complete. unfold Qeq, Qdiv, Qmult, Qinv. simpl.
    destruct (n + n - n)%Z eqn:En; simpl; lia.
Qed.

(** C3. boundary_iou divides the border intersection by the plain sum of the
    two border sizes: on pred = ref = [[1]] (one border voxel, shared) it
    returns 1/2, where the Jaccard form of the specification gives 1. *)
Theorem boundary_iou_identical_unit :
  B.boundary_iou Samples.identical_unit = Fin (1 # 2)
  /\ Spec.boundary_iou Samples.identical_unit = Fin 1
  /\ B.intersection_over_union Samples.identical_unit = Fin 1.
Proof. repeat split; reflexivity. Qed.

(** The same gap on the scenario of the specification. *)
Lemma boundary_iou_scenario :
  B.boundary_iou Samples.scenario = Fin (1 # 4)
  /\ Spec.boundary_iou Samples.scenario = Fin (1 # 3).
Proof. split; reflexivity. Qed.

(** ** Distance fields *)

Lemma sqrt_Q2R_0 : sqrt (Q2R 0) = 0%R.
Proof.
  replace (Q2R 0) with 0%R by (unfold Q2R; simpl; lra). apply sqrt_0.
Qed.

Lemma sqrt_Q2R_1 : sqrt (Q2R 1) = 1%R.
Proof.
  replace (Q2R 1) with 1%R by (unfold Q2R; simpl; lra). apply sqrt_1.
Qed.

Lemma sqrt_Q2R_4 : sqrt (Q2R 4) = 2%R.
Proof.
  replace (Q2R 4) with (2 * 2)%R by (unfold Q2R; simpl; lra).
  apply sqrt_square. lra.
Qed.

(** Evaluates the integer and rational parts of an array expression and
    leaves the real operations in place. *)
Ltac eval_arrays :=
  cbv -[Rmult Rplus Rminus Rmax Rdiv sqrt Q2R IZR INR].

(** The transform is 0 at every zero element of its input, however far the
    nearest non-zero element is: applied to a border mask it is 0 at every
    voxel off that border. *)
Lemma mapM_Forall2 {A B : Type} (f : A -> result B) (Q : A -> B -> Prop)
  (l : list A) (r : list B) :
  (forall a b, f a = Ok b -> Q a b) ->
  mapM f l = Ok r -> Forall2 Q l r.
Proof.
  intros Hf. revert r.
  induction l as [|a l IH]; intros r; cbn [mapM].
  - intros H. injection H as <-. constructor.
  - destruct (f a) as [b|e] eqn:Ea; cbn [bind]; [| discriminate].
    destruct (mapM f l) as [bs|e]; cbn [bind]; [| discriminate].
    intros H. injection H as <-.
    constructor; [now apply Hf | now apply IH].
Qed.

Lemma edt_sq_zero_off_mask (input : ndarray Z) (sampling d2 : list Q) :
  Ndimage.edt_sq input sampling = Ok d2 ->
  Forall2 (fun p d => Ndimage.nonzero input p = false -> d = 0%Q)
          (indices (shape input)) d2.
Proof.
  unfold Ndimage.edt_sq.
  destruct (negb _); [discriminate |].
  apply mapM_Forall2. intros p d H Hz. rewrite Hz in H.
  now injection H as <-.
Qed.

Lemma border_distance_identical :
  B.border_distance Samples.identical =
  Ok (mk_ndarray [1%nat; 2%nat] [1; 0]%R, mk_ndarray [1%nat; 2%nat] [1; 0]%R,
      mk_ndarray [1%nat; 2%nat] [1; 0]%Z, mk_ndarray [1%nat; 2%nat] [1; 0]%Z).
Proof.
  eval_arrays.
  rewrite sqrt_Q2R_0, sqrt_Q2R_1, Rmult_1_l, Rmult_0_l. reflexivity.
Qed.

Lemma border_distance_far_apart_value :
  B.border_distance Samples.far_apart =
  Ok (mk_ndarray [1%nat; 3%nat] [0; 0; 0]%R,
      mk_ndarray [1%nat; 3%nat] [0; 0; 0]%R,
      mk_ndarray [1%nat; 3%nat] [1; 0; 0]%Z,
      mk_ndarray [1%nat; 3%nat] [0; 0; 1]%Z).
Proof.
  eval_arrays.
  rewrite sqrt_Q2R_0, sqrt_Q2R_1, Rmult_1_l, !Rmult_0_l. reflexivity.
Qed.

Lemma spec_border_distance_far_apart_value :
  Spec.border_distance Samples.far_apart =
  Ok (mk_ndarray [1%nat; 3%nat] [0; 0; 2]%R,
      mk_ndarray [1%nat; 3%nat] [2; 0; 0]%R,
      mk_ndarray [1%nat; 3%nat] [1; 0; 0]%Z,
      mk_ndarray [1%nat; 3%nat] [0; 0; 1]%Z).
Proof.
  eval_arrays.
  rewrite sqrt_Q2R_0, sqrt_Q2R_1, sqrt_Q2R_4, Rmult_1_l, !Rmult_0_l.
  reflexivity.
Qed.

(** C1. border_distance applies the distance transform to each border mask
    itself, not to its complement. On ref = [[1,0,0]], pred = [[0,0,1]]
    (unit spacing) the reference border is the voxel (0,0) and the
    prediction border the voxel (0,2), two units away; the value recorded
    at (0,0) in the field of distances to the prediction border is 0, and
    the transform of the complement, as the specification words it, records
    2 there. *)
Theorem border_distance_far_apart :
  exists dist_ref dist_pred border_ref border_pred sdist_ref sdist_pred,
    B.border_distance Samples.far_apart
      = Ok (dist_ref, dist_pred, border_ref, border_pred)
    /\ Spec.border_distance Samples.far_apart
      = Ok (sdist_ref, sdist_pred, border_ref, border_pred)
    /\ data border_ref = [1; 0; 0]%Z
    /\ data border_pred = [0; 0; 1]%Z
    /\ nth 0 (data dist_pred) 0%R = 0%R
    /\ nth 0 (data sdist_pred) 0%R = 2%R.
Proof.
  do 6 eexists.
  rewrite border_distance_far_apart_value, spec_border_distance_far_apart_value.
  repeat split; reflexivity.
Qed.

(** ** Distance metrics *)

Lemma FR_div_nonzero (a b : R) : b <> 0%R -> FR.div a b = Fin (a / b)%R.
Proof.
  intros H. unfold FR.div.
  destruct (Req_dec_T b 0); [contradiction | reflexivity].
Qed.

Lemma percentile_single : percentile [1%R] B.default_perc = Ok 1%R.
Proof. eval_arrays. f_equal. lra. Qed.

(** On two identical masks [[1, 0]] every entry of the tuple is 1. *)
Lemma measured_distance_identical :
  B.measured_distance Samples.identical B.default_perc
  = Ok [Fin 1%R; Fin 1%R; Fin 1%R; Fin 1%R].
Proof.
  unfold B.measured_distance.
  replace (sumZ (data (amap2 Z.add (B.pred Samples.identical)
                             (B.ref Samples.identical))) =? 0)%Z
    with false by reflexivity.
  rewrite border_distance_identical. cbn [bind data].
  cbn [maxR fold_left bind].
  replace (select [1%R; 0%R] _) with [1%R] by reflexivity.
  rewrite percentile_single. cbn [bind maxR fold_left].
  unfold meanR. cbn [length sumR fold_left].
  replace (sumZ _) with 2%Z by reflexivity.
  rewrite !FR_div_nonzero.
  - cbn [FR.add]. rewrite !Rmax_left by lra.
    repeat f_equal; simpl; lra.
  - simpl. lra.
  - lra.
Qed.

(** C2. The Hausdorff distance of the mask [[1, 0]] compared with an
    identical copy of itself is 1, not 0: the field holds, at each border
    voxel, the distance to the nearest voxel off the border. *)
Theorem hausdorff_identical_not_zero :
  B.measured_hausdorff_distance Samples.identical = Ok (Fin 1%R)
  /\ B.measured_hausdorff_distance Samples.identical <> Ok (Fin 0%R).
Proof.
  assert (E : B.measured_hausdorff_distance Samples.identical = Ok (Fin 1%R)).
  { unfold B.measured_hausdorff_distance.
    rewrite measured_distance_identical. reflexivity. }
  split; [exact E |].
  rewrite E. intros H. injection H as H. lra.
Qed.

(** The short-circuit of measured_distance returns three entries. *)
Lemma measured_distance_empty (self : B.t) (perc : Q) :
  sumZ (data (amap2 Z.add (B.pred self) (B.ref self))) = 0%Z ->
  B.measured_distance self perc = Ok [Fin 0%R; Fin 0%R; Fin 0%R].
Proof.
  intros H. unfold B.measured_distance. now rewrite H.
Qed.

(** On every pair whose voxels sum to 0, hd, assd and hd_perc return 0 and
    masd raises. *)
Lemma distance_metrics_empty (self : B.t) :
  sumZ (data (amap2 Z.add (B.pred self) (B.ref self))) = 0%Z ->
  B.measured_hausdorff_distance self = Ok (Fin 0%R)
  /\ B.measured_average_distance self = Ok (Fin 0%R)
  /\ B.measured_hausdorff_distance_perc self = Ok (Fin 0%R)
  /\ B.measured_masd self = Raise IndexError.
Proof.
  intros H.
  unfold B.measured_hausdorff_distance, B.measured_average_distance,
    B.measured_hausdorff_distance_perc, B.measured_masd.
  rewrite !(measured_distance_empty self _ H). repeat split.
Qed.

(** C4. On pred = ref = [[0,0],[0,0]] measured_distance short-circuits to
    the 3-tuple (0, 0, 0); hd, assd and hd_perc read their entry and return
    0, and masd reads the entry of index 3, which the 3-tuple does not have,
    and raises IndexError. *)
Theorem masd_both_empty_raises :
  B.measured_distance Samples.both_empty B.default_perc
    = Ok [Fin 0%R; Fin 0%R; Fin 0%R]
  /\ B.measured_hausdorff_distance Samples.both_empty = Ok (Fin 0%R)
  /\ B.measured_average_distance Samples.both_empty = Ok (Fin 0%R)
  /\ B.measured_hausdorff_distance_perc Samples.both_empty = Ok (Fin 0%R)
  /\ B.measured_masd Samples.both_empty = Raise IndexError.
Proof.
  split.
  - apply measured_distance_empty. reflexivity.
  - apply distance_metrics_empty. reflexivity.
Qed.

(** ** Detection error *)

Lemma range_bounds (lo hi x : Z) : In x (range lo hi) -> (lo <= x < hi)%Z.
Proof.
  unfold range. rewrite in_map_iff. intros (i & <- & Hi).
  apply in_seq in Hi. lia.
Qed.

(** The label lists of connected_errormaps stop one short of the component
    count; those of connected_elements reach it. *)
Lemma errormaps_range_misses_last (n : Z) :
  ~ In n (range 1 n) /\ ((1 <= n)%Z -> In n (range 1 (n + 1))).
Proof.
  split.
  - intros H. apply range_bounds in H. lia.
  - intros H. unfold range. apply in_map_iff.
    exists (Z.to_nat (n - 1)). split; [lia |].
    apply in_seq. lia.
Qed.

(** C5. On ref = [[1,0,1],[0,0,0]], pred = [[1,0,0],[0,0,1]] each mask has
    two components, the second of which (the highest label, one voxel)
    meets no voxel of pred and ref together. detection_error returns
    (0, 0, 0); the unmatched voxels number 1 on each side, total 2, and
    connected_elements does count one unmatched component on each side. *)
Theorem detection_error_misses_last_label :
  B.detection_error Samples.unmatched_last = (0, 0, 0)%Z
  /\ Spec.detection_error Samples.unmatched_last = (2, 1, 1)%Z
  /\ B.connected_elements Samples.unmatched_last = (1, 1, 1)%nat
  /\ snd (fst (fst (B._connected_components Samples.unmatched_last))) = 2%Z
  /\ snd (snd (fst (B._connected_components Samples.unmatched_last))) = 2%Z.
Proof. repeat split; reflexivity. Qed.

(* ================================================================== *)
(** * Properties of the probability measures *)

Open Scope Q_scope.

(** ** Rationals and lists *)

Lemma inject_Z_nonneg (z : Z) : (0 <= z)%Z -> 0 <= inject_Z z.
Proof. intros H. unfold Qle. simpl. lia. Qed.

Lemma inject_Z_pos (z : Z) : (0 < z)%Z -> 0 < inject_Z z.
Proof. intros H. unfold Qlt. simpl. lia. Qed.

Lemma Qltb_true (a b : Q) : a < b -> Qltb a b = true.
Proof.
  intros H. unfold Qltb. destruct (Qle_bool b a) eqn:E; [|reflexivity].
  apply Qle_bool_iff in E. lra.
Qed.

Lemma Qltb_lt (a b : Q) : Qltb a b = true -> a < b.
Proof.
  unfold Qltb. intros H. destruct (Qle_bool b a) eqn:E; [discriminate|].
  destruct (Qlt_le_dec a b) as [|Hle]; [assumption|].
  apply Qle_bool_iff in Hle. congruence.
Qed.

Lemma Qeq_bool_false (a : Q) : ~ a == 0 -> Qeq_bool a 0 = false.
Proof.
  intros H. destruct (Qeq_bool a 0) eqn:E; [|reflexivity].
  apply Qeq_bool_eq in E. contradiction.
Qed.

Lemma FQ_div_nonzero (a b : Q) : ~ b == 0 -> FQ.div a b = Fin (Qred (a / b)).
Proof. intros H. unfold FQ.div. now rewrite (Qeq_bool_false b H). Qed.

Lemma sumQ_acc (l : list Q) (a : Q) : fold_left Qplus l a == a + sumQ l.
Proof.
  unfold sumQ. revert a.
  induction l as [|x l IH]; intros a; cbn [fold_left].
  - ring.
  - rewrite IH, (IH (0 + x)). ring.
Qed.

Lemma sumQ_cons (x : Q) (l : list Q) : sumQ (x :: l) == x + sumQ l.
Proof. unfold sumQ at 1. cbn [fold_left]. rewrite sumQ_acc. ring. Qed.

Lemma sumQ_const (c : Q) (l : list Q) :
  Forall (fun p => p == c) l ->
  sumQ l == c * inject_Z (Z.of_nat (length l)).
Proof.
  induction 1 as [|x l Hx Hl IH].
  - unfold sumQ. simpl. ring.
  - cbv beta in Hx. cbn [length]. rewrite sumQ_cons, IH, Hx.
    rewrite Nat2Z.inj_succ. unfold Z.succ. rewrite inject_Z_plus. ring.
Qed.

Lemma zip_with_nil_r {A B C : Type} (f : A -> B -> C) (l : list A) :
  zip_with f l [] = [].
Proof. destruct l; reflexivity. Qed.

Lemma filter_all {A : Type} (f : A -> bool) (l : list A) :
  Forall (fun x => f x = true) l -> filter f l = l.
Proof.
  induction 1 as [|x l Hx Hl IH]; [reflexivity|].
  cbn [filter]. now rewrite Hx, IH.
Qed.

Lemma in_removelast {A : Type} (x : A) (l : list A) :
  In x (removelast l) -> In x l.
Proof.
  induction l as [|a l IH]; [auto|].
  destruct l as [|b l]; [intros []|].
  intros [->|H]; [now left | right; auto].
Qed.

Lemma fold_left_ext_in {A B : Type} (f g : A -> B -> A) (l : list B) (a : A) :
  (forall x a', In x l -> f a' x = g a' x) ->
  fold_left f l a = fold_left g l a.
Proof.
  revert a. induction l as [|x l IH]; intros a H; [reflexivity|].
  cbn [fold_left]. rewrite (H x a (or_introl eq_refl)).
  apply IH. intros y a' Hy. apply H. now right.
Qed.

(** ** Calibration error: predictions equal to 0 *)

Lemma in_bin_zero (l u p : Q) :
  0 <= l -> Qeq_bool p 0 = true -> P.in_bin l u p = false.
Proof.
  intros Hl Hp. apply Qeq_bool_eq in Hp.
  unfold P.in_bin, Qltb.
  assert (H : Qle_bool p l = true) by (apply Qle_bool_iff; rewrite Hp; exact Hl).
  now rewrite H.
Qed.

Lemma ref_sel_without_zero (l u : Q) (ps rs : list Q) :
  0 <= l ->
  filter (Qltb (-1))
    (zip_with (fun p r => if P.in_bin l u p then r else -1)
       (select ps (P.nonzero_mask ps)) (select rs (P.nonzero_mask ps)))
  = filter (Qltb (-1))
      (zip_with (fun p r => if P.in_bin l u p then r else -1) ps rs).
Proof.
  intros Hl. revert rs.
  induction ps as [|p ps IH]; intros rs.
  - reflexivity.
  - destruct rs as [|r rs].
    + cbn [select]. now rewrite !zip_with_nil_r.
    + cbn [P.nonzero_mask map select zip_with].
      fold (P.nonzero_mask ps).
      destruct (Qeq_bool p 0) eqn:Hp; cbn [negb].
      * rewrite (in_bin_zero l u p Hl Hp). cbn [filter].
        replace (Qltb (-1) (-1)) with false by reflexivity.
        apply IH.
      * cbn [zip_with filter]. rewrite IH. reflexivity.
Qed.

Lemma pred_sel_without_zero (l u : Q) (ps : list Q) :
  0 <= l ->
  filter (Qltb (-1))
    (map (fun p => if P.in_bin l u p then p else -1) (select ps (P.nonzero_mask ps)))
  = filter (Qltb (-1)) (map (fun p => if P.in_bin l u p then p else -1) ps).
Proof.
  intros Hl.
  induction ps as [|p ps IH]; [reflexivity|].
  cbn [P.nonzero_mask map select]. fold (P.nonzero_mask ps).
  destruct (Qeq_bool p 0) eqn:Hp; cbn [negb].
  - rewrite (in_bin_zero l u p Hl Hp). cbn [filter].
    replace (Qltb (-1) (-1)) with false by reflexivity. apply IH.
  - cbn [map filter]. rewrite IH. reflexivity.
Qed.

Lemma ece_bin_without_zero (self : P.t) (st : list (npfloat Q) * Z) (l u : Q) :
  0 <= l ->
  P.ece_bin (P.without_zero_pred self) st (l, u) = P.ece_bin self st (l, u).
Proof.
  intros Hl. unfold P.ece_bin, P.without_zero_pred.
  destruct st as [lv ns]. cbn [P.pred P.ref data].
  rewrite (ref_sel_without_zero l u _ _ Hl), (pred_sel_without_zero l u _ Hl).
  reflexivity.
Qed.

Lemma arange_nonneg (stop step x : Q) :
  0 < stop -> In x (arange 0 stop step) -> 0 <= x.
Proof.
  intros Hstop. unfold arange. rewrite in_map_iff.
  intros (i & <- & Hi). apply in_seq in Hi.
  rewrite Qred_correct.
  assert (Hc : (1 <= Qceiling ((stop - 0) / step))%Z) by (clear - Hi; lia).
  pose proof (Qceiling_lt ((stop - 0) / step)) as Hlt.
  assert (Hpos : 0 < (stop - 0) / step).
  { eapply Qle_lt_trans; [|exact Hlt].
    apply inject_Z_nonneg. clear - Hc. lia. }
  assert (Hstep : 0 < step).
  { destruct (Qlt_le_dec 0 step) as [|Hle]; [assumption|exfalso].
    destruct (Qeq_dec step 0) as [E|NE].
    - rewrite E in Hpos. unfold Qdiv in Hpos.
      assert (E0 : (stop - 0) * / 0 == 0) by (unfold Qinv; simpl; ring).
      rewrite E0 in Hpos. apply (Qlt_irrefl 0 Hpos).
    - assert (Hneg : step < 0) by (apply Qle_lteq in Hle; destruct Hle; [assumption|contradiction]).
      assert (E : (stop - 0) / step * step == stop - 0) by (field; exact NE).
      assert (stop - 0 < 0 * step) .
      { rewrite <- E. setoid_replace (0 * step) with 0 by ring.
        setoid_replace ((stop - 0) / step * step) with (- (((stop - 0) / step) * (- step))) by ring.
        assert (0 < ((stop - 0) / step) * (- step)).
        { apply Qmult_lt_0_compat; [exact Hpos|]. lra. }
        lra. }
      lra. }
  assert (0 <= inject_Z (Z.of_nat i)).
  { apply inject_Z_nonneg. clear. lia. }
  assert (0 <= inject_Z (Z.of_nat i) * step) by (apply Qmult_le_0_compat; lra).
  lra.
Qed.

Lemma ece_bins_lower_nonneg (step l u : Q) :
  In (l, u) (P.ece_bins step) -> 0 <= l.
Proof.
  unfold P.ece_bins. intros H.
  apply in_combine_l in H. apply in_removelast in H.
  eapply arange_nonneg; [|exact H]. reflexivity.
Qed.

Lemma ece_first_edge (step : Q) (l u : Q) (rest : list (Q * Q)) :
  P.ece_bins step = (l, u) :: rest -> l = 0.
Proof.
  unfold P.ece_bins, arange.
  destruct (Z.to_nat _) as [|[|n]];
    cbn [seq map removelast tl combine]; try discriminate.
  intros H. injection H as H _ _. subst l. reflexivity.
Qed.

(** C10. Voxels whose predicted probability is exactly 0 take no part in
    the calibration error. Every bin selects l < pred <= u, the first lower
    edge is 0 and no lower edge is negative, so a prediction equal to 0 is
    in no bin; the loop body run on the comparison restricted to the voxels
    with pred != 0 leaves the same state (the list of weighted terms and the
    sample count) as on the full comparison, and the returned value is the
    same. *)
Theorem ece_ignores_zero_predictions (self : P.t) :
  P.expectation_calibration_error (P.without_zero_pred self)
    = P.expectation_calibration_error self
  /\ (forall step l u st,
        In (l, u) (P.ece_bins step) ->
        0 <= l
        /\ P.ece_bin (P.without_zero_pred self) st (l, u)
           = P.ece_bin self st (l, u))
  /\ (forall step l u rest, P.ece_bins step = (l, u) :: rest -> l = 0)
  /\ (forall l u p, 0 <= l -> Qeq_bool p 0 = true -> P.in_bin l u p = false).
Proof.
  split; [| split; [| split]].
  - unfold P.expectation_calibration_error.
    change (P.dict_args (P.without_zero_pred self)) with (P.dict_args self).
    destruct (Qeq_bool _ 0); [reflexivity |].
    rewrite (fold_left_ext_in (P.ece_bin (P.without_zero_pred self))
                              (P.ece_bin self)).
    + reflexivity.
    + intros [l u] st H. apply ece_bin_without_zero.
      eapply ece_bins_lower_nonneg. exact H.
  - intros step l u st H.
    pose proof (ece_bins_lower_nonneg _ _ _ H) as Hl.
    split; [exact Hl | now apply ece_bin_without_zero].
  - intros step l u rest. apply ece_first_edge.
  - intros l u p. apply in_bin_zero.
Qed.

(** On pred = [0, 0.3, 0, 0.9], ref = [1, 1, 0, 1] only the second and the
    fourth voxel are counted: (|1 - 0.3| + |1 - 0.9|) / 2 = 0.4. *)
Lemma ece_ignores_zero_predictions_witness :
  P.expectation_calibration_error (P.without_zero_pred Samples.with_zero_scores)
    = P.expectation_calibration_error Samples.with_zero_scores
  /\ P.expectation_calibration_error Samples.with_zero_scores = Ok (Fin (2 # 5))
  /\ data (P.pred (P.without_zero_pred Samples.with_zero_scores))
     = [3 # 10; 9 # 10].
Proof.
  split; [| split].
  - apply (ece_ignores_zero_predictions Samples.with_zero_scores).
  - reflexivity.
  - reflexivity.
Defined.

(** ** Calibration error: one bin *)

Lemma in_bin_true (l u p c : Q) :
  p == c -> l < c -> c <= u -> P.in_bin l u p = true.
Proof.
  intros Hp Hl Hu. unfold P.in_bin, Qltb.
  rewrite Hp.
  assert (H1 : Qle_bool c l = false).
  { destruct (Qle_bool c l) eqn:E; [|reflexivity].
    apply Qle_bool_iff in E. lra. }
  assert (H2 : Qle_bool c u = true) by (apply Qle_bool_iff; exact Hu).
  now rewrite H1, H2.
Qed.

Lemma ref_tmp_all_in_bin (l u c : Q) (ps rs : list Q) :
  l < c -> c <= u -> length ps = length rs ->
  Forall (fun p => p == c) ps ->
  zip_with (fun p r => if P.in_bin l u p then r else -1) ps rs = rs.
Proof.
  intros Hl Hu. revert rs.
  induction ps as [|p ps IH]; intros [|r rs] Hlen Hp; simpl in Hlen;
    try discriminate; [reflexivity|].
  inversion Hp as [|? ? Hp0 Hps]; subst. cbv beta in Hp0.
  cbn [zip_with]. rewrite (in_bin_true l u p c Hp0 Hl Hu).
  f_equal. apply IH; [lia | assumption].
Qed.

Lemma pred_tmp_all_in_bin (l u c : Q) (ps : list Q) :
  l < c -> c <= u ->
  Forall (fun p => p == c) ps ->
  map (fun p => if P.in_bin l u p then p else -1) ps = ps.
Proof.
  intros Hl Hu. induction 1 as [|p ps Hp0 Hps IH]; [reflexivity|].
  cbv beta in Hp0.
  cbn [map]. rewrite (in_bin_true l u p c Hp0 Hl Hu). now rewrite IH.
Qed.

(** C9. With bins_ece = 1, every predicted probability equal to 0.7 and a
    binary reference whose empirical positive rate is 0.5,
    expectation_calibration_error returns |0.5 - 0.7| = 0.2 (floating-point
    rounding aside: the values are exact rationals here). *)
Theorem ece_single_bin (self : P.t) :
  P.wf self ->
  dict_get (P.dict_args self) "bins_ece" = Some 1 ->
  Forall (fun p => p == 7 # 10) (data (P.pred self)) ->
  Forall (fun r => r == 0 \/ r == 1) (data (P.ref self)) ->
  sumQ (data (P.ref self)) / inject_Z (Z.of_nat (size (P.ref self))) == 1 # 2 ->
  P.expectation_calibration_error self = Ok (Fin (1 # 5)).
Proof.
  intros Hwf Hbins Hpred Href Hrate.
  pose proof (same_shape_length _ _ Hwf) as Hlen.
  set (ps := data (P.pred self)) in *.
  set (rs := data (P.ref self)) in *.
  set (n := inject_Z (Z.of_nat (length rs))).
  unfold size in Hrate. fold rs n in Hrate.
  assert (Hn : ~ n == 0).
  { intros E. rewrite E in Hrate. unfold Qdiv in Hrate.
    assert (E0 : sumQ rs * / 0 == 0) by (unfold Qinv; simpl; ring).
    rewrite E0 in Hrate. discriminate Hrate. }
  assert (Hnz : (Z.of_nat (length rs) =? 0)%Z = false).
  { apply Z.eqb_neq. intros E. apply Hn. unfold n. now rewrite E. }
  unfold P.expectation_calibration_error, dict_get_default. rewrite Hbins.
  replace (Qeq_bool 1 0) with false by reflexivity.
  replace (P.ece_bins (1 / 1)) with [(0, 1)] by reflexivity.
  cbn [fold_left]. unfold P.ece_bin. fold ps rs.
  rewrite (ref_tmp_all_in_bin 0 1 (7 # 10) ps rs) by (reflexivity || discriminate || assumption).
  rewrite (pred_tmp_all_in_bin 0 1 (7 # 10) ps) by (reflexivity || discriminate || assumption).
  rewrite (filter_all (Qltb (-1)) rs).
  2:{ eapply Forall_impl; [|exact Href]. intros r [E|E]; apply Qltb_true; rewrite E; reflexivity. }
  rewrite (filter_all (Qltb (-1)) ps).
  2:{ eapply Forall_impl; [|exact Hpred]. intros p E; apply Qltb_true; rewrite E; reflexivity. }
  rewrite Hnz. fold n.
  unfold meanQ. rewrite Hlen. fold n.
  rewrite !(FQ_div_nonzero _ n Hn).
  cbn [app FQ.sum fold_left FQ.of_Z FQ.sub FQ.opp FQ.add FQ.abs FQ.mul FQ.divf].
  replace (0 + Z.of_nat (length rs))%Z with (Z.of_nat (length rs)) by reflexivity.
  fold n. rewrite (FQ_div_nonzero _ n Hn).
  do 2 f_equal.
  transitivity (Qred (1 # 5)); [|reflexivity].
  apply Qred_complete.
  rewrite !Qred_correct.
  assert (Hs : sumQ ps / n == 7 # 10).
  { rewrite (sumQ_const (7 # 10) ps Hpred). rewrite Hlen. fold n. field. exact Hn. }
  rewrite Hs, Hrate.
  setoid_replace ((1 # 2) + - (7 # 10)) with (- (1 # 5)) by reflexivity.
  rewrite Qabs_opp. rewrite Qabs_pos by discriminate.
  field. exact Hn.
Qed.

Lemma ece_single_bin_witness :
  P.expectation_calibration_error Samples.all_seven_tenths = Ok (Fin (1 # 5)).
Proof.
  apply (ece_single_bin Samples.all_seven_tenths).
  - repeat split; reflexivity.
  - reflexivity.
  - repeat (apply Forall_cons; [reflexivity |]). apply Forall_nil.
  - repeat (apply Forall_cons;
            [ (left; reflexivity) || (right; reflexivity) |]).
    apply Forall_nil.
  - reflexivity.
Defined.

(** ** Sorting *)

Lemma insertQ_in (x y : Q) (l : list Q) :
  In y (insertQ x l) -> y = x \/ In y l.
Proof.
  induction l as [|a l IH]; cbn [insertQ].
  - intros [<-|[]]. now left.
  - destruct (Qle_bool x a).
    + intros [<-|H]; [now left | now right].
    + intros [<-|H]; [right; now left|].
      destruct (IH H) as [->|H']; [now left | right; now right].
Qed.

Lemma insertQ_sorted (x : Q) (l : list Q) :
  StronglySorted Qle l -> StronglySorted Qle (insertQ x l).
Proof.
  induction 1 as [|a l Hs IH Ha]; cbn [insertQ].
  - repeat constructor.
  - destruct (Qle_bool x a) eqn:E.
    + apply Qle_bool_iff in E.
      constructor; [constructor; assumption|].
      constructor; [exact E|].
      eapply Forall_impl; [|exact Ha]. intros b Hb. cbv beta in Hb. lra.
    + assert (Hax : a <= x).
      { destruct (Qlt_le_dec x a) as [H|H]; [|exact H].
        assert (Qle_bool x a = true) by (apply Qle_bool_iff; lra). congruence. }
      constructor; [exact IH|].
      apply Forall_forall. intros y Hy.
      destruct (insertQ_in _ _ _ Hy) as [->|Hy']; [exact Hax|].
      rewrite Forall_forall in Ha. now apply Ha.
Qed.

Lemma sortQ_sorted (l : list Q) : StronglySorted Qle (sortQ l).
Proof.
  induction l as [|x l IH]; cbn [sortQ fold_right].
  - constructor.
  - apply insertQ_sorted. exact IH.
Qed.

Lemma StronglySorted_snoc {A : Type} (R : A -> A -> Prop) (l : list A) (x : A) :
  StronglySorted R l -> Forall (fun y => R y x) l -> StronglySorted R (l ++ [x]).
Proof.
  induction 1 as [|a l Hs IH Ha]; intros Hx; cbn [app].
  - repeat constructor.
  - inversion Hx as [|? ? Hax Hlx]; subst.
    constructor; [now apply IH|].
    apply Forall_app. split; [exact Ha | now constructor].
Qed.

Lemma StronglySorted_rev {A : Type} (R : A -> A -> Prop) (l : list A) :
  StronglySorted R l -> StronglySorted (fun a b => R b a) (rev l).
Proof.
  induction 1 as [|a l Hs IH Ha]; cbn [rev].
  - constructor.
  - apply StronglySorted_snoc; [exact IH|].
    apply Forall_rev. exact Ha.
Qed.

Lemma StronglySorted_map {A B : Type} (R : A -> A -> Prop) (R' : B -> B -> Prop)
  (f : A -> B) (l : list A) :
  (forall a b, R a b -> R' (f a) (f b)) ->
  StronglySorted R l -> StronglySorted R' (map f l).
Proof.
  intros Hf. induction 1 as [|a l Hs IH Ha]; cbn [map].
  - constructor.
  - constructor; [exact IH|].
    apply Forall_map. eapply Forall_impl; [|exact Ha]. intros b. apply Hf.
Qed.

(** ** The threshold sweep *)

Lemma tp_voxel_antitone (t1 t2 p r : Q) :
  t1 <= t2 ->
  (b2z (Qltb 1 (r + P.b2q (P.pred_bin t2 p)))
   <= b2z (Qltb 1 (r + P.b2q (P.pred_bin t1 p))))%Z.
Proof.
  intros Ht.
  destruct (Qltb 1 (r + P.b2q (P.pred_bin t2 p))) eqn:E2; cbn [b2z].
  - apply Qltb_lt in E2.
    rewrite Qltb_true; [cbn [b2z]; apply Z.le_refl|].
    unfold P.pred_bin in *.
    destruct (Qle_bool t2 p) eqn:E.
    + apply Qle_bool_iff in E.
      assert (H1 : Qle_bool t1 p = true) by (apply Qle_bool_iff; lra).
      now rewrite H1.
    + destruct (Qle_bool t1 p); cbn [P.b2q] in *; lra.
  - destruct (Qltb 1 (r + P.b2q (P.pred_bin t1 p))); cbn [b2z];
      [apply Z.le_0_1 | apply Z.le_refl].
Qed.

Lemma sumZ_zip_le (f g : Q -> Q -> Z) (ps rs : list Q) :
  (forall p r, (f p r <= g p r)%Z) ->
  (sumZ (zip_with f ps rs) <= sumZ (zip_with g ps rs))%Z.
Proof.
  intros H. revert rs.
  induction ps as [|p ps IH]; intros [|r rs]; cbn [zip_with];
    try apply Z.le_refl.
  rewrite !sumZ_cons. apply Z.add_le_mono; [apply H | apply IH].
Qed.

Lemma tp_thr_antitone (self : P.t) (t1 t2 : Q) :
  t1 <= t2 -> (P.tp_thr self t2 <= P.tp_thr self t1)%Z.
Proof.
  intros Ht. unfold P.tp_thr, P.__tp_map_thr, amap2. cbn [data].
  apply sumZ_zip_le. intros p r. now apply tp_voxel_antitone.
Qed.

Lemma sensitivity_thr_antitone (self : P.t) (t1 t2 : Q) :
  0 < P.n_pos_ref self -> t1 <= t2 ->
  FQ.le (P.sensitivity_thr self t2) (P.sensitivity_thr self t1).
Proof.
  intros Hn Ht. unfold P.sensitivity_thr.
  rewrite !FQ_div_nonzero by lra.
  unfold FQ.le, FQ.leb. apply Qle_bool_iff. rewrite !Qred_correct.
  pose proof (tp_thr_antitone self t1 t2 Ht) as Htp.
  apply Qmult_le_compat_r.
  - rewrite <- Zle_Qle. exact Htp.
  - apply Qlt_le_weak. now apply Qinv_lt_0_compat.
Qed.

Lemma sweep_sens (self : P.t) (ths : list Q) sens spec ppv fppi :
  P.sweep self ths = Ok (sens, spec, ppv, fppi) ->
  sens = map (P.sensitivity_thr self) ths.
Proof.
  revert sens spec ppv fppi.
  induction ths as [|t ths IH]; intros sens spec ppv fppi; cbn [P.sweep].
  - intros H. now injection H as <- _ _ _.
  - destruct (P.fppi_thr self t) as [f|e]; cbn [bind]; [|discriminate].
    destruct (P.sweep self ths) as [[[[ls lsp] lp] lf]|e]; cbn [bind]; [|discriminate].
    intros H. injection H as <- _ _ _. cbn [map]. f_equal. eapply IH. reflexivity.
Qed.

Lemma all_multi_threshold_values_inv (self : P.t) (ns nt : Z) thr sens spec ppv fppi :
  P.all_multi_threshold_values self ns nt = Ok (thr, sens, spec, ppv, fppi) ->
  (exists l, thr = rev (sortQ l)) /\ sens = map (P.sensitivity_thr self) thr.
Proof.
  unfold P.all_multi_threshold_values.
  destruct (P.retained_thresholds self ns nt) as [l|e]; cbn [bind]; [|discriminate].
  destruct (P.sweep self (rev (sortQ l))) as [[[[ls lsp] lp] lf]|e] eqn:E;
    cbn [bind]; [|discriminate].
  intros H. injection H as <- <- _ _ _.
  split; [now exists l|]. eapply sweep_sens. exact E.
Qed.

Lemma thresholds_decreasing (l : list Q) :
  StronglySorted (fun a b => b <= a) (rev (sortQ l)).
Proof. apply StronglySorted_rev, sortQ_sorted. Qed.

(** With an all-zero reference every sensitivity is 0/0. *)
Lemma tp_zero_ref (f : Q -> bool) (ps rs : list Q) :
  Forall (fun r => r == 0) rs ->
  sumZ (zip_with (fun p r => b2z (Qltb 1 (r + P.b2q (f p)))) ps rs) = 0%Z.
Proof.
  intros H. revert ps.
  induction H as [|r rs Hr Hrs IH]; intros [|p ps]; cbn [zip_with];
    try reflexivity.
  rewrite sumZ_cons, IH. cbv beta in Hr.
  assert (E : Qltb 1 (r + P.b2q (f p)) = false).
  { unfold Qltb.
    assert (H1 : Qle_bool (r + P.b2q (f p)) 1 = true).
    { apply Qle_bool_iff. rewrite Hr. destruct (f p); cbn [P.b2q]; lra. }
    now rewrite H1. }
  now rewrite E.
Qed.

Lemma sensitivity_all_zero_ref (self : P.t) (thresh : Q) :
  Forall (fun r => r == 0) (data (P.ref self)) ->
  P.sensitivity_thr self thresh = NaN.
Proof.
  intros H. unfold P.sensitivity_thr, P.tp_thr, P.__tp_map_thr, amap2.
  cbn [data]. rewrite (tp_zero_ref (P.pred_bin thresh) _ _ H).
  unfold FQ.div, P.n_pos_ref.
  assert (E : Qeq_bool (sumQ (data (P.ref self))) 0 = true).
  { apply Qeq_eq_bool. rewrite (sumQ_const 0 _ H). ring. }
  now rewrite E.
Qed.

(** ** The sweep returns *)

Lemma prod_app (a b : list nat) : Np.prod (a ++ b) = (Np.prod a * Np.prod b)%nat.
Proof.
  unfold Np.prod. induction a as [|x a IH]; cbn [app fold_right].
  - lia.
  - rewrite IH. lia.
Qed.

Lemma prod_last (sh r : list nat) (L : nat) :
  rev sh = L :: r -> Np.prod sh = (Np.prod (rev r) * L)%nat.
Proof.
  intros H. rewrite <- (rev_involutive sh), H. cbn [rev].
  rewrite prod_app. unfold Np.prod at 2. cbn [fold_right]. lia.
Qed.

Section SweepReturns.

(** A well-formed pair of rank at least 1, without case identifiers. *)
Variable self : P.t.
Hypothesis Hwf : P.wf self.
Hypothesis Hsh : shape (P.ref self) <> [].
Hypothesis Hcase : P.case self = None.

Lemma fppi_thr_returns (thresh : Q) :
  data (P.pred self) <> [] ->
  exists f, P.fppi_thr self thresh = Ok f.
Proof.
  intros Hne.
  pose proof (same_shape_length _ _ Hwf) as Hlen.
  destruct Hwf as (Hs & Hwp & Hwr). unfold Np.wf in *.
  unfold P.fppi_thr. rewrite Hcase.
  destruct (rev (shape (P.ref self))) as [|L r] eqn:E.
  { exfalso. apply Hsh. rewrite <- (rev_involutive (shape (P.ref self))), E.
    reflexivity. }
  cbn [getitem nth_error bind].
  pose proof (prod_last _ _ _ E) as Hprod.
  assert (HL : L <> 0%nat).
  { intros ->. rewrite Nat.mul_0_r in Hprod.
    rewrite <- Hs, <- Hwp in Hprod.
    destruct (data (P.pred self)); [contradiction | discriminate]. }
  unfold P.reshape_rows.
  destruct (Nat.eqb_spec L 0) as [|_]; [contradiction|].
  assert (Hmod : (length (data (P.__fp_map_thr self thresh)) mod L =? 0)%nat = true).
  { apply Nat.eqb_eq. unfold P.__fp_map_thr, amap2. cbn [data].
    rewrite zip_with_length by exact Hlen.
    rewrite Hwp, Hs, Hprod. apply Nat.Div0.mod_mul. }
  rewrite Hmod. cbn [negb bind]. eexists. reflexivity.
Qed.

Lemma sweep_returns (ths : list Q) :
  data (P.pred self) <> [] \/ ths = [] ->
  exists r, P.sweep self ths = Ok r.
Proof.
  intros [Hne | ->]; [| eexists; reflexivity].
  induction ths as [|t ths IH]; cbn [P.sweep].
  - eexists; reflexivity.
  - destruct (fppi_thr_returns t Hne) as [f ->].
    destruct IH as [[[[ls lsp] lp] lf] ->]. cbn [bind].
    eexists; reflexivity.
Qed.

End SweepReturns.

Lemma coalesce_returns (nst : Q) (uc : list (Q * Z)) (acc : list Q) (cc : Z)
  (new_thresh : option Q) :
  0 < nst -> (new_thresh = None -> cc = 0%Z) ->
  exists s,
    fold_left (P.coalesce_step nst) uc (Ok (acc, cc, new_thresh)) = Ok s.
Proof.
  intros Hnst. revert acc cc new_thresh.
  induction uc as [|[f c] uc IH]; intros acc cc new_thresh Hinv; cbn [fold_left].
  - eexists; reflexivity.
  - unfold P.coalesce_step at 2. cbn [bind].
    destruct (Qltb (inject_Z cc) nst) eqn:E.
    + apply IH. discriminate.
    + destruct new_thresh as [x|].
      * apply IH. discriminate.
      * rewrite (Hinv eq_refl) in E.
        unfold Qltb in E. destruct (Qle_bool nst (inject_Z 0)) eqn:E'; [|discriminate].
        apply Qle_bool_iff in E'. change (inject_Z 0) with 0 in E'. lra.
Qed.

Lemma retained_thresholds_returns (self : P.t) (ns nt : Z) :
  (0 < ns)%Z -> (0 < nt)%Z ->
  exists ths, P.retained_thresholds self ns nt = Ok ths
              /\ (data (P.pred self) = [] -> ths = []).
Proof.
  intros Hns Hnt. unfold P.retained_thresholds.
  destruct (Z.of_nat (length (map fst (unique_counts (data (P.pred self))))) <? nt)%Z eqn:E1.
  { eexists; split; [reflexivity|]. now intros ->. }
  destruct (Z.of_nat (size (P.ref self)) <? ns)%Z eqn:E2.
  { eexists; split; [reflexivity|]. now intros ->. }
  assert (Hdata : data (P.pred self) <> []).
  { intros H. rewrite H in E1. cbn in E1. apply Z.ltb_ge in E1. lia. }
  unfold P.py_div.
  destruct (Z.eqb_spec ns 0) as [|_]; [lia|].
  destruct (Z.eqb_spec nt 0) as [|_]; [lia|].
  cbn [bind].
  destruct (coalesce_returns
              (inject_Z (Z.of_nat (size (P.pred self))) / inject_Z nt)
              (unique_counts (data (P.pred self))) [0] 0%Z None) as [s Hs].
  - apply Qlt_shift_div_l; [now apply inject_Z_pos|].
    setoid_replace (0 * inject_Z nt) with 0 by ring.
    apply inject_Z_pos. unfold size.
    destruct (data (P.pred self)); [contradiction | cbn [length]; lia].
  - reflexivity.
  - rewrite Hs. cbn [bind]. eexists; split; [reflexivity|].
    intros H. contradiction.
Qed.

Lemma all_multi_threshold_values_returns (self : P.t) (ns nt : Z) :
  P.wf self -> shape (P.ref self) <> [] -> P.case self = None ->
  (0 < ns)%Z -> (0 < nt)%Z ->
  exists tbl, P.all_multi_threshold_values self ns nt = Ok tbl.
Proof.
  intros Hwf Hsh Hcase Hns Hnt.
  unfold P.all_multi_threshold_values.
  destruct (retained_thresholds_returns self ns nt Hns Hnt) as (ths & -> & Hths).
  cbn [bind].
  destruct (sweep_returns self Hwf Hsh Hcase (rev (sortQ ths)))
    as [[[[ls lsp] lp] lf] ->].
  - destruct (data (P.pred self)) as [|x d] eqn:E.
    + right. now rewrite Hths.
    + left. discriminate.
  - cbn [bind]. eexists; reflexivity.
Qed.

(** C6 (as stated). On pred = [0.2, 0.8] with an all-zero reference the
    curve is built and its sensitivity list is [nan, nan]; nan <= nan does
    not hold, so the list is not ordered. *)
Lemma sensitivity_sweep_all_zero_reference :
  P.all_multi_threshold_values Samples.no_positive 150 1500
    = Ok ([8 # 10; 2 # 10], [NaN; NaN], [Fin (1 # 2); Fin 0],
          [Fin 0; Fin 0], [Fin (1 # 2); Fin 1])
  /\ ~ Spec.monotone_sweep Samples.no_positive 150 1500.
Proof.
  split; [reflexivity |].
  intros H.
  specialize (H [8 # 10; 2 # 10] [NaN; NaN] [Fin (1 # 2); Fin 0]
                [Fin 0; Fin 0] [Fin (1 # 2); Fin 1] eq_refl).
  inversion H as [| ? ? _ Hf]; subst.
  inversion Hf as [| ? ? Hle _]; subst.
  discriminate Hle.
Qed.

(** C6 (amended). For every probability-mask pair the thresholded
    true-positive count is antitone in the threshold. When the reference
    sums to a positive value, the sensitivity is antitone in the threshold
    and, on the curve built by all_multi_threshold_values, the thresholds
    are emitted in decreasing order, the sensitivity list is the
    sensitivity at each of them and it is non-decreasing along that order.
    The curve is built (no exception) for a well-formed pair of rank at
    least 1 without case identifiers and with positive caps. *)
Theorem sensitivity_sweep_monotone (self : P.t)
  (max_number_samples max_number_thresh : Z) :
  0 < P.n_pos_ref self ->
  Spec.monotone_sweep self max_number_samples max_number_thresh
  /\ (forall thr sens spec ppv fppi,
        P.all_multi_threshold_values self max_number_samples max_number_thresh
          = Ok (thr, sens, spec, ppv, fppi) ->
        StronglySorted (fun a b => b <= a) thr
        /\ sens = map (P.sensitivity_thr self) thr)
  /\ (forall t1 t2, t1 <= t2 ->
        (P.tp_thr self t2 <= P.tp_thr self t1)%Z
        /\ FQ.le (P.sensitivity_thr self t2) (P.sensitivity_thr self t1))
  /\ (P.wf self -> shape (P.ref self) <> [] -> P.case self = None ->
      (0 < max_number_samples)%Z -> (0 < max_number_thresh)%Z ->
      exists tbl,
        P.all_multi_threshold_values self max_number_samples max_number_thresh
        = Ok tbl).
Proof.
  intros Hn. split; [| split; [| split]].
  - intros thr sens spec ppv fppi H.
    destruct (all_multi_threshold_values_inv _ _ _ _ _ _ _ _ H) as [[l ->] ->].
    apply StronglySorted_map with (R := fun a b => b <= a).
    + intros a b Hab. now apply sensitivity_thr_antitone.
    + apply thresholds_decreasing.
  - intros thr sens spec ppv fppi H.
    destruct (all_multi_threshold_values_inv _ _ _ _ _ _ _ _ H) as [[l ->] ->].
    split; [apply thresholds_decreasing | reflexivity].
  - intros t1 t2 Ht. split.
    + now apply tp_thr_antitone.
    + now apply sensitivity_thr_antitone.
  - apply all_multi_threshold_values_returns.
Qed.

Lemma sensitivity_sweep_monotone_witness :
  0 < P.n_pos_ref Samples.four_scores
  /\ Spec.monotone_sweep Samples.four_scores 150 1500
  /\ P.all_multi_threshold_values Samples.four_scores 150 1500
     = Ok ([8 # 10; 4 # 10; 35 # 100; 1 # 10],
           [Fin (1 # 2); Fin (1 # 2); Fin 1; Fin 1],
           [Fin 1; Fin (1 # 2); Fin (1 # 2); Fin 0],
           [Fin 1; Fin (1 # 2); Fin (2 # 3); Fin (1 # 2)],
           [Fin 0; Fin (1 # 4); Fin (1 # 4); Fin (1 # 2)]).
Proof.
  split; [reflexivity |].
  split; [| reflexivity].
  apply (sensitivity_sweep_monotone Samples.four_scores 150 1500).
  reflexivity.
Defined.

(* ================================================================== *)
(** * Further properties of the hard-mask measures *)

(** ** Voxel counts of a binary pair *)

Lemma zip_sum_by_cases (F : Z -> Z -> Z) (ps rs : list Z) :
  Forall (fun v => v = 0 \/ v = 1)%Z ps ->
  Forall (fun v => v = 0 \/ v = 1)%Z rs ->
  sumZ (zip_with F ps rs)
  = (F 1 1 * pair_count 1 1 ps rs + F 1 0 * pair_count 1 0 ps rs
     + F 0 1 * pair_count 0 1 ps rs + F 0 0 * pair_count 0 0 ps rs)%Z.
Proof.
  intros Hp. revert rs.
  induction Hp as [|p ps Hp0 Hps IH]; intros rs Hr.
  - unfold pair_count. cbn [zip_with]. rewrite !sumZ_nil. lia.
  - destruct Hr as [|r rs Hr0 Hrs].
    + unfold pair_count. cbn [zip_with]. rewrite !sumZ_nil. lia.
    + specialize (IH rs Hrs). unfold pair_count in *. cbn [zip_with].
      rewrite !sumZ_cons, IH.
      destruct Hp0 as [-> | ->], Hr0 as [-> | ->]; cbn [Z.eqb andb b2z Pos.eqb]; lia.
Qed.

Lemma pair_count_nonneg (a b : Z) (ps rs : list Z) :
  (0 <= pair_count a b ps rs)%Z.
Proof.
  unfold pair_count. revert rs.
  induction ps as [|p ps IH]; intros [|r rs]; cbn [zip_with];
    rewrite ?sumZ_nil, ?sumZ_cons; try lia.
  specialize (IH rs). destruct ((p =? a) && (r =? b))%Z; cbn [b2z]; lia.
Qed.

Lemma sumZ_snd_zip (f : Z -> Z) (ps rs : list Z) :
  length ps = length rs ->
  sumZ (map f rs) = sumZ (zip_with (fun _ r => f r) ps rs).
Proof.
  revert rs. induction ps as [|p ps IH]; intros [|r rs] H; simpl in H;
    try discriminate; [reflexivity|].
  cbn [map zip_with]. rewrite !sumZ_cons, (IH rs) by lia. reflexivity.
Qed.

Lemma sumZ_fst_zip (f : Z -> Z) (ps rs : list Z) :
  length ps = length rs ->
  sumZ (map f ps) = sumZ (zip_with (fun p _ => f p) ps rs).
Proof.
  revert rs. induction ps as [|p ps IH]; intros [|r rs] H; simpl in H;
    try discriminate; [reflexivity|].
  cbn [map zip_with]. rewrite !sumZ_cons, (IH rs) by lia. reflexivity.
Qed.

Lemma pair_count_total (ps rs : list Z) :
  length ps = length rs ->
  Forall (fun v => v = 0 \/ v = 1)%Z ps ->
  Forall (fun v => v = 0 \/ v = 1)%Z rs ->
  (pair_count 1 1 ps rs + pair_count 1 0 ps rs + pair_count 0 1 ps rs
   + pair_count 0 0 ps rs)%Z = Z.of_nat (length ps).
Proof.
  intros Hlen Hp Hr.
  pose proof (zip_sum_by_cases (fun _ _ => 1%Z) ps rs Hp Hr) as H.
  assert (E : sumZ (zip_with (fun _ _ => 1%Z) ps rs) = Z.of_nat (length ps)).
  { clear H Hp Hr. revert rs Hlen.
    induction ps as [|p ps IH]; intros [|r rs] Hlen; simpl in Hlen;
      try discriminate; [reflexivity|].
    cbn [zip_with length]. rewrite sumZ_cons, (IH rs) by lia. lia. }
  cbv beta in H. lia.
Qed.

Lemma sumZ_snd_zip_id (ps rs : list Z) :
  length ps = length rs -> sumZ rs = sumZ (zip_with (fun _ r => r) ps rs).
Proof. intros H. rewrite <- (map_id rs) at 1. now apply sumZ_snd_zip. Qed.

Lemma sumZ_fst_zip_id (ps rs : list Z) :
  length ps = length rs -> sumZ ps = sumZ (zip_with (fun p _ => p) ps rs).
Proof. intros H. rewrite <- (map_id ps) at 1. now apply sumZ_fst_zip. Qed.

(** All the voxel counts of a binary pair, through the four pair counts.
    In an unsigned element type a voxel where the masks disagree counts
    both as a false positive and as a false negative. *)
Lemma counts_any_dtype (self : B.t) :
  B.wf self -> B.binary self ->
  let ps := data (B.pred self) in
  let rs := data (B.ref self) in
  let a := pair_count 1 1 ps rs in
  let b := pair_count 1 0 ps rs in
  let c := pair_count 0 1 ps rs in
  let d := pair_count 0 0 ps rs in
  let w := match B.dtype self with UInt _ => 1%Z | _ => 0%Z end in
  (0 <= a /\ 0 <= b /\ 0 <= c /\ 0 <= d
   /\ a + b + c + d = Z.of_nat (length ps)
   /\ B.tp self = a /\ B.fp self = b + w * c /\ B.fn self = c + w * b
   /\ B.tn self = d
   /\ B.n_pos_ref self = a + c /\ B.n_pos_pred self = a + b
   /\ B.n_neg_ref self = b + d /\ B.n_neg_pred self = c + d
   /\ B.n_intersection self = a /\ B.n_union self = a + b + c
   /\ sumZ (data (amap2 (fun p r => r + p) (B.pred self) (B.ref self)))
      = 2 * a + b + c)%Z.
Proof.
  intros Hwf [Hp Hr] ps rs a b c d w.
  pose proof (same_shape_length _ _ Hwf) as Hlen. fold ps rs in Hlen, Hp, Hr.
  pose proof (pair_count_total ps rs Hlen Hp Hr) as Htot.
  repeat (split; [first [apply pair_count_nonneg | exact Htot] |]).
  unfold B.tp, B.fp, B.fn, B.tn, B.n_pos_ref, B.n_pos_pred, B.n_neg_ref,
    B.n_neg_pred, B.n_intersection, B.n_union, B.__tp_map, B.__fp_map,
    B.__fn_map, B.__tn_map, B.__intersection_map, B.__union_map, amap2, amap.
  cbn [data]. fold ps rs.
  rewrite (sumZ_snd_zip_id ps rs Hlen), (sumZ_fst_zip_id ps rs Hlen).
  rewrite !(sumZ_snd_zip _ ps rs Hlen), !(sumZ_fst_zip _ ps rs Hlen).
  rewrite !(zip_sum_by_cases _ ps rs Hp Hr).
  fold a b c d. clearbody a b c d. cbv beta.
  unfold w. clear w.
  destruct (B.dtype self) as [[]|[]|];
    repeat match goal with
           | |- context [b2z ?x] =>
               let v := eval vm_compute in (b2z x) in change (b2z x) with v
           end;
    repeat split; lia.
Qed.

(** The same in a signed or floating element type, where the four maps are
    the four cases. *)
Lemma counts_by_cases (self : B.t) :
  B.wf self -> B.binary self -> signed (B.dtype self) ->
  let ps := data (B.pred self) in
  let rs := data (B.ref self) in
  let a := pair_count 1 1 ps rs in
  let b := pair_count 1 0 ps rs in
  let c := pair_count 0 1 ps rs in
  let d := pair_count 0 0 ps rs in
  (0 <= a /\ 0 <= b /\ 0 <= c /\ 0 <= d
   /\ a + b + c + d = Z.of_nat (length ps)
   /\ B.tp self = a /\ B.fp self = b /\ B.fn self = c /\ B.tn self = d
   /\ B.n_pos_ref self = a + c /\ B.n_pos_pred self = a + b
   /\ B.n_neg_ref self = b + d /\ B.n_neg_pred self = c + d
   /\ B.n_intersection self = a /\ B.n_union self = a + b + c
   /\ sumZ (data (amap2 (fun p r => r + p) (B.pred self) (B.ref self)))
      = 2 * a + b + c)%Z.
Proof.
  intros Hwf Hbin Hd ps rs a b c d.
  destruct (counts_any_dtype self Hwf Hbin)
    as (Ha & Hb & Hc & Hd' & Ht & E1 & E2 & E3 & E4 & E5 & E6 & E7 & E8
        & E9 & E10 & E11).
  fold ps rs a b c d in Ha, Hb, Hc, Hd', Ht, E1, E2, E3, E4, E5, E6, E7, E8,
    E9, E10, E11.
  destruct (B.dtype self) as [w|w|]; [| destruct Hd |];
    repeat split; try assumption; lia.
Qed.

(** X1. On a well-formed pair of 0/1 masks of a signed or floating
    element type the confusion counts add up to the marginals:
    tp + fn = n_pos_ref, tp + fp = n_pos_pred, tn + fp = n_neg_ref and
    tn + fn = n_neg_pred. *)
Theorem confusion_marginals (self : B.t) :
  B.wf self -> B.binary self -> signed (B.dtype self) ->
  (B.tp self + B.fn self = B.n_pos_ref self
   /\ B.tp self + B.fp self = B.n_pos_pred self
   /\ B.tn self + B.fp self = B.n_neg_ref self
   /\ B.tn self + B.fn self = B.n_neg_pred self)%Z.
Proof.
  intros Hwf Hbin Hd.
  destruct (counts_by_cases self Hwf Hbin Hd)
    as (_ & _ & _ & _ & _ & -> & -> & -> & -> & -> & -> & -> & -> & _).
  repeat split; lia.
Qed.

Lemma confusion_marginals_witness :
  (B.tp Samples.scenario + B.fn Samples.scenario = B.n_pos_ref Samples.scenario
   /\ B.tp Samples.scenario + B.fp Samples.scenario
      = B.n_pos_pred Samples.scenario
   /\ B.tn Samples.scenario + B.fp Samples.scenario
      = B.n_neg_ref Samples.scenario
   /\ B.tn Samples.scenario + B.fn Samples.scenario
      = B.n_neg_pred Samples.scenario)%Z.
Proof.
  apply (confusion_marginals Samples.scenario).
  - repeat split; reflexivity.
  - split; binary_list.
  - exact I.
Defined.

(** X2. On a well-formed pair of 0/1 masks of a signed or floating element
    type recall() and sensitivity() return the same value, and the
    intersection and union counts are tp and tp + fp + fn, so that
    intersection_over_union() is tp / (tp + fp + fn) and dice_score() is
    2 tp / (2 tp + fp + fn). *)
Theorem overlap_through_confusion_counts (self : B.t) :
  B.wf self -> B.binary self -> signed (B.dtype self) ->
  B.recall self = B.sensitivity self
  /\ B.n_intersection self = B.tp self
  /\ B.n_union self = (B.tp self + B.fp self + B.fn self)%Z
  /\ B.intersection_over_union self
     = B.divZ (B.tp self) (B.tp self + B.fp self + B.fn self)
  /\ B.dice_score self
     = B.divZ (2 * B.tp self) (2 * B.tp self + B.fp self + B.fn self).
Proof.
  intros Hwf Hbin Hd.
  destruct (counts_by_cases self Hwf Hbin Hd)
    as (_ & _ & _ & _ & _ & Htp & Hfp & Hfn & _ & Hpr & _ & _ & _ & Hi & Hu & Hs).
  unfold B.recall, B.sensitivity, B.intersection_over_union, B.dice_score.
  rewrite Hi, Hu, Hs, Hpr, Htp, Hfp, Hfn.
  repeat split; reflexivity.
Qed.

Lemma overlap_through_confusion_counts_witness :
  B.recall Samples.scenario = B.sensitivity Samples.scenario
  /\ B.intersection_over_union Samples.scenario = Fin (1 # 3)
  /\ B.dice_score Samples.scenario = Fin (1 # 2).
Proof.
  destruct (overlap_through_confusion_counts Samples.scenario)
    as (H1 & _ & _ & H4 & H5).
  - repeat split; reflexivity.
  - split; binary_list.
  - exact I.
  - split; [exact H1 |]. split; [rewrite H4 | rewrite H5]; reflexivity.
Defined.

(** ** Exchanging the two masks *)

Lemma zip_with_flip {A B C : Type} (f : A -> B -> C) (g : B -> A -> C)
  (l : list A) (m : list B) :
  (forall a b, f a b = g b a) -> zip_with f l m = zip_with g m l.
Proof.
  intros H. revert m.
  induction l as [|a l IH]; intros [|b m]; cbn [zip_with]; try reflexivity.
  now rewrite H, IH.
Qed.

(** X3. Exchanging pred and ref leaves tp, tn, the intersection and union
    counts, intersection_over_union(), jaccard() and dice_score() unchanged
    and exchanges fp with fn; no assumption on the voxel values or on the
    shapes is needed. *)
Theorem overlap_symmetric (self : B.t) :
  B.tp (B.swap self) = B.tp self
  /\ B.tn (B.swap self) = B.tn self
  /\ B.fp (B.swap self) = B.fn self
  /\ B.fn (B.swap self) = B.fp self
  /\ B.intersection_over_union (B.swap self) = B.intersection_over_union self
  /\ B.jaccard (B.swap self) = B.jaccard self
  /\ B.dice_score (B.swap self) = B.dice_score self.
Proof.
  assert (Htp : B.tp (B.swap self) = B.tp self).
  { unfold B.tp, B.__tp_map, B.swap, amap2. cbn [B.pred B.ref data].
    f_equal. apply zip_with_flip. intros a b. now rewrite Z.add_comm. }
  assert (Htn : B.tn (B.swap self) = B.tn self).
  { unfold B.tn, B.__tn_map, B.swap, amap2. cbn [B.pred B.ref data].
    f_equal. apply zip_with_flip. intros a b. now rewrite Z.add_comm. }
  assert (Hi : B.n_intersection (B.swap self) = B.n_intersection self).
  { unfold B.n_intersection, B.__intersection_map, B.swap, amap2.
    cbn [B.pred B.ref data].
    f_equal. apply zip_with_flip. intros a b. apply Z.mul_comm. }
  assert (Hu : B.n_union (B.swap self) = B.n_union self).
  { unfold B.n_union, B.__union_map, B.swap, amap2. cbn [B.pred B.ref data].
    f_equal. apply zip_with_flip. intros a b. now rewrite Z.add_comm. }
  repeat split; try assumption.
  - unfold B.fp, B.fn, B.__fp_map, B.__fn_map, B.swap, amap2.
    cbn [B.pred B.ref data]. f_equal. now apply zip_with_flip.
  - unfold B.fp, B.fn, B.__fp_map, B.__fn_map, B.swap, amap2.
    cbn [B.pred B.ref data]. f_equal. now apply zip_with_flip.
  - unfold B.intersection_over_union. now rewrite Hi, Hu.
  - unfold B.jaccard. now rewrite Hi, Hu.
  - unfold B.dice_score. rewrite Htp. do 2 f_equal.
    unfold B.swap, amap2. cbn [B.pred B.ref data].
    apply zip_with_flip. intros a b. apply Z.add_comm.
Qed.

(** ** A mask compared with itself *)

Lemma pair_count_diag (a b : Z) (l : list Z) :
  a <> b -> pair_count a b l l = 0%Z.
Proof.
  intros Hab. unfold pair_count.
  induction l as [|x l IH]; [reflexivity |].
  cbn [zip_with]. rewrite sumZ_cons, IH.
  destruct (Z.eqb_spec x a) as [-> |]; [| reflexivity].
  destruct (Z.eqb_spec a b); [contradiction | reflexivity].
Qed.

Lemma divZ_self (n : Z) : (0 < n)%Z -> B.divZ n n = Fin 1.
Proof.
  intros Hn. unfold B.divZ. rewrite FQ_div_nonzero.
  - f_equal. transitivity (Qred 1); [| reflexivity].
    apply Qred_complete. field.
    intros E. unfold Qeq in E. simpl in E. lia.
  - intros E. unfold Qeq in E. simpl in E. lia.
Qed.

(** X4. A 0/1 mask with at least one positive voxel, compared with an
    identical copy of itself, has no false positive and no false negative,
    and sensitivity(), accuracy(), dice_score() and
    intersection_over_union() are all exactly 1. *)
Theorem identical_masks_perfect_overlap (self : B.t) :
  B.pred self = B.ref self -> Np.wf (B.ref self) ->
  Forall (fun v => v = 0 \/ v = 1)%Z (data (B.ref self)) ->
  (0 < B.n_pos_ref self)%Z ->
  B.fp self = 0%Z /\ B.fn self = 0%Z
  /\ B.sensitivity self = Fin 1
  /\ B.accuracy self = Fin 1
  /\ B.dice_score self = Fin 1
  /\ B.intersection_over_union self = Fin 1.
Proof.
  intros Heq Hwf Hbin Hpos.
  assert (Hwf' : B.wf self).
  { unfold B.wf, same_shape. rewrite Heq. auto. }
  assert (Hbin' : B.binary self).
  { unfold B.binary. rewrite Heq. auto. }
  destruct (counts_any_dtype self Hwf' Hbin')
    as (Ha & _ & _ & Hd & _ & Htp & Hfp & Hfn & Htn & Hpr & _ & _ & _
        & Hi & Hu & Hs).
  unfold B.sensitivity, B.accuracy, B.dice_score, B.intersection_over_union.
  rewrite Hi, Hu, Hs, Hpr, Htp, Hfp, Hfn, Htn. clear Hi Hu Hs Htp Hfp Hfn Htn.
  rewrite Hpr in Hpos. clear Hpr.
  rewrite Heq in *.
  rewrite (pair_count_diag 1 0) in * by discriminate.
  rewrite (pair_count_diag 0 1) in * by discriminate.
  set (a := pair_count 1 1 _ _) in *. set (d := pair_count 0 0 _ _) in *.
  set (w := match B.dtype self with UInt _ => 1%Z | _ => 0%Z end).
  clearbody a d w.
  replace (0 + w * 0)%Z with 0%Z by lia.
  repeat split.
  - replace (a + 0)%Z with a by lia. apply divZ_self. lia.
  - replace (d + a + 0 + 0)%Z with (d + a)%Z by lia. apply divZ_self. lia.
  - replace (2 * a + 0 + 0)%Z with (2 * a)%Z by lia. apply divZ_self. lia.
  - replace (a + 0 + 0)%Z with a by lia. apply divZ_self. lia.
Qed.

Lemma identical_masks_perfect_overlap_witness :
  B.fp Samples.identical = 0%Z /\ B.fn Samples.identical = 0%Z
  /\ B.sensitivity Samples.identical = Fin 1
  /\ B.accuracy Samples.identical = Fin 1
  /\ B.dice_score Samples.identical = Fin 1
  /\ B.intersection_over_union Samples.identical = Fin 1.
Proof.
  apply (identical_masks_perfect_overlap Samples.identical).
  - reflexivity.
  - reflexivity.
  - binary_list.
  - reflexivity.
Defined.

(** ** Ranges *)

Lemma inject_Z_nonzero (z : Z) : z <> 0%Z -> ~ inject_Z z == 0.
Proof. intros H E. unfold Qeq in E. simpl in E. lia. Qed.

Lemma divZ_unit (a b : Z) :
  (0 <= a <= b)%Z -> FQ.unit_or_nan (B.divZ a b).
Proof.
  intros [Ha Hab]. unfold FQ.unit_or_nan, B.divZ.
  destruct (Z.eq_dec b 0) as [-> | Hb].
  - left. replace a with 0%Z by lia. reflexivity.
  - right. rewrite FQ_div_nonzero by now apply inject_Z_nonzero.
    eexists. split; [reflexivity |]. rewrite Qred_correct.
    assert (Hb' : 0 < inject_Z b) by (apply inject_Z_pos; lia).
    split.
    + apply Qle_shift_div_l; [exact Hb' |].
      setoid_replace (0 * inject_Z b) with 0 by ring.
      now apply inject_Z_nonneg.
    + apply Qle_shift_div_r; [exact Hb' |].
      setoid_replace (1 * inject_Z b) with (inject_Z b) by ring.
      rewrite <- Zle_Qle. exact Hab.
Qed.

(** X5. On a well-formed pair of 0/1 masks of a signed or floating element
    type sensitivity, specificity, recall, the negative predictive value,
    the false-positive rate, accuracy, Dice, intersection over union and
    (without the empty flag) the positive predictive value are each either
    nan (0/0) or a value between 0 and 1: never negative, above 1 or
    infinite. *)
Theorem ratios_in_unit_range (self : B.t) :
  B.wf self -> B.binary self -> signed (B.dtype self) ->
  FQ.unit_or_nan (B.sensitivity self)
  /\ FQ.unit_or_nan (B.specificity self)
  /\ FQ.unit_or_nan (B.recall self)
  /\ FQ.unit_or_nan (B.negative_predictive_values self)
  /\ FQ.unit_or_nan (B.false_positive_rate self)
  /\ FQ.unit_or_nan (B.accuracy self)
  /\ FQ.unit_or_nan (B.dice_score self)
  /\ FQ.unit_or_nan (B.intersection_over_union self)
  /\ (B.flag_empty self = false ->
      FQ.unit_or_nan (B.positive_predictive_values self)).
Proof.
  intros Hwf Hbin Hdt.
  destruct (counts_by_cases self Hwf Hbin Hdt)
    as (Ha & Hb & Hc & Hd & _ & Htp & Hfp & Hfn & Htn & Hpr & _ & Hnr & _
        & Hi & Hu & Hs).
  unfold B.sensitivity, B.specificity, B.recall, B.negative_predictive_values,
    B.false_positive_rate, B.accuracy, B.dice_score,
    B.intersection_over_union, B.positive_predictive_values.
  rewrite Hi, Hu, Hs, Hpr, Hnr, Htp, Hfp, Hfn, Htn.
  repeat split; try (apply divZ_unit; lia).
  intros ->. apply divZ_unit. lia.
Qed.

Lemma ratios_in_unit_range_witness :
  FQ.unit_or_nan (B.sensitivity Samples.scenario)
  /\ FQ.unit_or_nan (B.specificity Samples.scenario)
  /\ FQ.unit_or_nan (B.recall Samples.scenario)
  /\ FQ.unit_or_nan (B.negative_predictive_values Samples.scenario)
  /\ FQ.unit_or_nan (B.false_positive_rate Samples.scenario)
  /\ FQ.unit_or_nan (B.accuracy Samples.scenario)
  /\ FQ.unit_or_nan (B.dice_score Samples.scenario)
  /\ FQ.unit_or_nan (B.intersection_over_union Samples.scenario)
  /\ (B.flag_empty Samples.scenario = false ->
      FQ.unit_or_nan (B.positive_predictive_values Samples.scenario)).
Proof.
  apply (ratios_in_unit_range Samples.scenario).
  - repeat split; reflexivity.
  - split; binary_list.
  - exact I.
Defined.

(** ** F-beta *)

Lemma divZ_fin (a b : Z) :
  b <> 0%Z -> B.divZ a b = Fin (Qred (inject_Z a / inject_Z b)).
Proof.
  intros H. unfold B.divZ. now rewrite FQ_div_nonzero by now apply inject_Z_nonzero.
Qed.

(** X6. Without the empty flag and without a 'beta' entry, fbeta() on a
    well-formed pair of 0/1 masks of a signed or floating element type
    with at least one true positive returns the same value as
    dice_score(). *)
Theorem fbeta_default_is_dice (self : B.t) :
  B.wf self -> B.binary self -> signed (B.dtype self) ->
  B.flag_empty self = false ->
  dict_get (B.dict_args self) "beta" = None ->
  (0 < B.tp self)%Z ->
  B.fbeta self = B.dice_score self.
Proof.
  intros Hwf Hbin Hdt Hflag Hbeta Hpos.
  destruct (counts_by_cases self Hwf Hbin Hdt)
    as (Ha & Hb & Hc & Hd & _ & Htp & Hfp & Hfn & Htn & _ & _ & _ & _
        & _ & _ & Hs).
  unfold B.fbeta, B.dice_score, B.positive_predictive_values, B.recall,
    dict_get_default.
  rewrite Hflag, Hbeta, Hs, Htp, Hfp, Hfn. rewrite Htp in Hpos.
  set (a := pair_count 1 1 _ _) in *. set (b := pair_count 1 0 _ _) in *.
  set (c := pair_count 0 1 _ _) in *.
  rewrite !divZ_fin by lia.
  cbn [FQ.mul FQ.add].
  set (A := inject_Z a). set (Bq := inject_Z b). set (C := inject_Z c).
  assert (HA : 0 < A) by (apply inject_Z_pos; lia).
  assert (HB : 0 <= Bq) by (apply inject_Z_nonneg; lia).
  assert (HC : 0 <= C) by (apply inject_Z_nonneg; lia).
  assert (E1 : inject_Z (a + b) == A + Bq) by (rewrite inject_Z_plus; reflexivity).
  assert (E2 : inject_Z (a + c) == A + C) by (rewrite inject_Z_plus; reflexivity).
  assert (E3 : inject_Z (2 * a + b + c) == 2 * A + Bq + C).
  { rewrite !inject_Z_plus, inject_Z_mult. reflexivity. }
  assert (E4 : inject_Z (2 * a) == 2 * A) by (rewrite inject_Z_mult; reflexivity).
  assert (Pq : 0 < A / (A + Bq)).
  { apply Qlt_shift_div_l; [lra |]. lra. }
  assert (Rq : 0 < A / (A + C)).
  { apply Qlt_shift_div_l; [lra |]. lra. }
  set (den := Qred (Qred (Qred (1 * 1) * _) + _)).
  assert (Hden : den == A / (A + Bq) + A / (A + C)).
  { unfold den. rewrite !Qred_correct, E1, E2. ring. }
  assert (Hdz : FQ.is_zero (Fin den) = false).
  { cbn [FQ.is_zero]. apply Qeq_bool_false. rewrite Hden. lra. }
  rewrite Hdz. cbn [FQ.fdiv].
  rewrite FQ_div_nonzero by (rewrite Hden; lra).
  f_equal. apply Qred_complete.
  rewrite Hden, !Qred_correct, E1, E2, E3, E4.
  field. split; [| split; [| split]]; intros E; nra.
Qed.

Lemma fbeta_default_is_dice_witness :
  B.fbeta Samples.scenario = B.dice_score Samples.scenario
  /\ B.fbeta Samples.scenario = Fin (1 # 2).
Proof.
  split; [| reflexivity].
  apply (fbeta_default_is_dice Samples.scenario).
  - repeat split; reflexivity.
  - split; binary_list.
  - exact I.
  - reflexivity.
  - reflexivity.
  - reflexivity.
Defined.

Lemma divZ_zero_num (n : Z) : n <> 0%Z -> B.divZ 0 n = Fin 0.
Proof.
  intros H. rewrite divZ_fin by exact H.
  replace (Qred (inject_Z 0 / inject_Z n)) with (Qred 0); [reflexivity |].
  apply Qred_complete. unfold Qdiv. ring.
Qed.

(** X7. Without the empty flag, fbeta() on a well-formed pair of 0/1 masks
    with no true positive returns nan for every beta, also where
    dice_score() returns 0 (some voxel positive in pred or in ref). *)
Theorem fbeta_nan_without_true_positive (self : B.t) :
  B.wf self -> B.binary self ->
  B.flag_empty self = false ->
  B.tp self = 0%Z ->
  B.fbeta self = NaN
  /\ ((0 < B.n_pos_ref self + B.n_pos_pred self)%Z ->
      B.dice_score self = Fin 0).
Proof.
  intros Hwf Hbin Hflag Hzero.
  destruct (counts_any_dtype self Hwf Hbin)
    as (Ha & Hb & Hc & Hd & _ & Htp & Hfp & Hfn & Htn & Hpr & Hpp & _ & _
        & _ & _ & Hs).
  split.
  - unfold B.fbeta, B.positive_predictive_values, B.recall.
    rewrite Hflag, Hzero. cbn [Z.add].
    set (beta := dict_get_default (B.dict_args self) "beta" 1).
    destruct (Z.eq_dec (B.fp self) 0) as [-> | Hfp0].
    + change (B.divZ 0 0) with (@NaN Q).
      destruct (B.divZ 0 (B.fn self)); reflexivity.
    + rewrite (divZ_zero_num _ Hfp0).
      destruct (Z.eq_dec (B.fn self) 0) as [-> | Hfn0].
      * reflexivity.
      * rewrite (divZ_zero_num _ Hfn0). cbn [FQ.mul FQ.add FQ.is_zero].
        replace (Qeq_bool _ 0) with true; [reflexivity |].
        symmetry. apply Qeq_eq_bool. rewrite !Qred_correct. ring.
  - intros Hpos. unfold B.dice_score. rewrite Hs, Hzero.
    rewrite Hpr, Hpp in Hpos. rewrite Htp in Hzero.
    apply divZ_zero_num. lia.
Qed.

Lemma fbeta_nan_without_true_positive_witness :
  B.fbeta Samples.far_apart = NaN
  /\ B.dice_score Samples.far_apart = Fin 0.
Proof.
  destruct (fbeta_nan_without_true_positive Samples.far_apart) as [H1 H2].
  - repeat split; reflexivity.
  - split; binary_list.
  - reflexivity.
  - reflexivity.
  - split; [exact H1 | apply H2; reflexivity].
Defined.

(* ================================================================== *)
(** * Further properties of the probability measures *)

(** ** Confusion counts at a threshold *)

#[local] Instance Qltb_proper : Proper (Qeq ==> Qeq ==> eq) Qltb.
Proof. intros a a' Ha b b' Hb. unfold Qltb. now rewrite Ha, Hb. Qed.

#[local] Instance wrapQ_proper (d : dtype) : Proper (Qeq ==> Qeq) (wrapQ d).
Proof.
  intros x y E. destruct d as [w|w|]; cbn [wrapQ]; [| | exact E];
    now rewrite (Qfloor_comp x y E).
Qed.

(** What the sign test of a difference gives on a 0/1 prediction and a 0/1
    reference value: in a signed or floating type the plain difference, in
    an unsigned type every disagreement. *)
Lemma thr_difference_positive (d : dtype) (b : bool) (r : Q) :
  r == 0 \/ r == 1 ->
  Qltb 0 (wrapQ d (P.b2q b - r))
  = match d with
    | UInt _ => xorb b (Qeq_bool r 1)
    | _ => b && Qeq_bool r 0
    end
  /\ Qltb 0 (wrapQ d (r - P.b2q b))
     = match d with
       | UInt _ => xorb b (Qeq_bool r 1)
       | _ => negb b && Qeq_bool r 1
       end.
Proof.
  intros [E | E]; destruct b, d as [[]|[]|]; cbv iota; split;
    rewrite E; reflexivity.
Qed.

Lemma thr_voxel_partition (d : dtype) (b : bool) (r : Q) :
  signed d -> r == 0 \/ r == 1 ->
  (b2z (Qltb 1 (r + P.b2q b)) + b2z (Qltb 0 (wrapQ d (P.b2q b - r)))
   + b2z (Qltb (r + P.b2q b) (1 # 2)) + b2z (Qltb 0 (wrapQ d (r - P.b2q b))))%Z
  = 1%Z.
Proof.
  intros Hd Hr. destruct (thr_difference_positive d b r Hr) as [-> ->].
  destruct d as [w|w|]; [| destruct Hd |];
    destruct Hr as [E | E]; rewrite !E; destruct b; reflexivity.
Qed.

(** X8. For a reference of a signed or floating element type whose voxels
    are all 0 or 1 and a prediction of the same size, the four thresholded
    counts partition the voxels at every threshold:
    tp_thr + fp_thr + tn_thr + fn_thr is the number of voxels. *)
Theorem thresholded_counts_partition (self : P.t) (thresh : Q) :
  P.wf self -> signed (P.dtype self) ->
  Forall (fun r => r == 0 \/ r == 1) (data (P.ref self)) ->
  (P.tp_thr self thresh + P.fp_thr self thresh + P.tn_thr self thresh
   + P.fn_thr self thresh)%Z = Z.of_nat (size (P.pred self)).
Proof.
  intros Hwf Hd Hr. pose proof (same_shape_length _ _ Hwf) as Hlen.
  unfold P.tp_thr, P.fp_thr, P.tn_thr, P.fn_thr, P.__tp_map_thr,
    P.__fp_map_thr, P.__tn_map_thr, P.__fn_map_thr, amap2, size. cbn [data].
  revert Hlen Hr. generalize (data (P.ref self)) as rs.
  induction (data (P.pred self)) as [|p ps IH]; intros [|r rs] Hlen Hr;
    simpl in Hlen; try discriminate; [reflexivity |].
  inversion Hr as [| ? ? Hr0 Hrs]; subst.
  injection Hlen as Hlen. specialize (IH rs Hlen Hrs).
  cbn [zip_with length]. rewrite !sumZ_cons.
  pose proof (thr_voxel_partition (P.dtype self) (P.pred_bin thresh p) r Hd Hr0)
    as Hv.
  rewrite Nat2Z.inj_succ. clear - IH Hv. lia.
Qed.

Lemma thresholded_counts_partition_witness :
  (P.tp_thr Samples.four_scores (4 # 10) + P.fp_thr Samples.four_scores (4 # 10)
   + P.tn_thr Samples.four_scores (4 # 10)
   + P.fn_thr Samples.four_scores (4 # 10))%Z = 4%Z.
Proof.
  apply (thresholded_counts_partition Samples.four_scores (4 # 10)).
  - repeat split; reflexivity.
  - exact I.
  - repeat (apply Forall_cons;
            [ (left; reflexivity) || (right; reflexivity) |]).
    apply Forall_nil.
Defined.

(** ** Monotone counts *)

Lemma pred_bin_antitone (t1 t2 p : Q) :
  t1 <= t2 -> P.pred_bin t2 p = true -> P.pred_bin t1 p = true.
Proof.
  unfold P.pred_bin. intros Ht H. apply Qle_bool_iff in H.
  apply Qle_bool_iff. lra.
Qed.

Lemma Qltb_false (a b : Q) : Qltb a b = false -> b <= a.
Proof.
  unfold Qltb. intros H. destruct (Qle_bool b a) eqn:E; [| discriminate].
  now apply Qle_bool_iff.
Qed.

Lemma b2z_le (x y : bool) : (x = true -> y = true) -> (b2z x <= b2z y)%Z.
Proof. destruct x, y; cbn [b2z]; intros H; try specialize (H eq_refl);
  try discriminate; clear; lia. Qed.

(** The true-negative map involves no difference: it is monotone for every
    reference value. *)
Lemma tn_voxel_monotone (t1 t2 p r : Q) :
  t1 <= t2 ->
  (b2z (Qltb (r + P.b2q (P.pred_bin t1 p)) (1 # 2))
   <= b2z (Qltb (r + P.b2q (P.pred_bin t2 p)) (1 # 2)))%Z.
Proof.
  intros Ht.
  pose proof (pred_bin_antitone t1 t2 p Ht) as Hb.
  destruct (P.pred_bin t2 p) eqn:E2.
  - rewrite (Hb eq_refl). apply Z.le_refl.
  - destruct (P.pred_bin t1 p); cbn [P.b2q];
      (apply b2z_le; intros H; apply Qltb_lt in H; apply Qltb_true; lra).
Qed.

Lemma thr_voxel_monotone (d : dtype) (t1 t2 p r : Q) :
  signed d -> r == 0 \/ r == 1 -> t1 <= t2 ->
  (b2z (Qltb 0 (wrapQ d (P.b2q (P.pred_bin t2 p) - r)))
   <= b2z (Qltb 0 (wrapQ d (P.b2q (P.pred_bin t1 p) - r))))%Z
  /\ (b2z (Qltb 0 (wrapQ d (r - P.b2q (P.pred_bin t1 p))))
      <= b2z (Qltb 0 (wrapQ d (r - P.b2q (P.pred_bin t2 p)))))%Z.
Proof.
  intros Hd Hr Ht.
  pose proof (pred_bin_antitone t1 t2 p Ht) as Hb.
  destruct (thr_difference_positive d (P.pred_bin t1 p) r Hr) as [-> ->].
  destruct (thr_difference_positive d (P.pred_bin t2 p) r Hr) as [-> ->].
  destruct d as [w|w|]; [| destruct Hd |];
    (destruct (P.pred_bin t2 p);
     [rewrite (Hb eq_refl); split; apply Z.le_refl |];
     destruct (P.pred_bin t1 p), (Qeq_bool r 0), (Qeq_bool r 1);
     cbn [andb negb b2z]; split; lia).
Qed.

(** X9. For a 0/1 reference of a signed or floating element type, as the
    threshold increases the false-positive count never increases and the
    true-negative and false-negative counts never decrease; when the
    reference has a positive number of negatives (sum of 1 - ref)
    specificity_thr never decreases. *)
Theorem thresholded_counts_monotone (self : P.t) (t1 t2 : Q) :
  signed (P.dtype self) ->
  Forall (fun r => r == 0 \/ r == 1) (data (P.ref self)) ->
  t1 <= t2 ->
  (P.fp_thr self t2 <= P.fp_thr self t1)%Z
  /\ (P.tn_thr self t1 <= P.tn_thr self t2)%Z
  /\ (P.fn_thr self t1 <= P.fn_thr self t2)%Z
  /\ (0 < P.n_neg_ref self ->
      FQ.le (P.specificity_thr self t1) (P.specificity_thr self t2)).
Proof.
  intros Hd Hr Ht.
  assert (Htn : (P.tn_thr self t1 <= P.tn_thr self t2)%Z).
  { unfold P.tn_thr, P.__tn_map_thr, amap2. cbn [data].
    apply sumZ_zip_le. intros p r. apply (tn_voxel_monotone t1 t2 p r Ht). }
  assert (Hdiff : forall (f g : Q -> Q -> Z),
             (forall p r, r == 0 \/ r == 1 -> (f p r <= g p r)%Z) ->
             (sumZ (zip_with f (data (P.pred self)) (data (P.ref self)))
              <= sumZ (zip_with g (data (P.pred self)) (data (P.ref self))))%Z).
  { intros f g H. revert Hr. generalize (data (P.ref self)) as rs.
    induction (data (P.pred self)) as [|p ps IH]; intros rs Hr;
      [apply Z.le_refl |].
    destruct Hr as [|r rs Hr0 Hr]; cbn [zip_with]; [apply Z.le_refl |].
    rewrite !sumZ_cons. apply Z.add_le_mono; [now apply H | now apply IH]. }
  repeat split.
  - unfold P.fp_thr, P.__fp_map_thr, amap2. cbn [data].
    apply Hdiff. intros p r H0.
    apply (thr_voxel_monotone (P.dtype self) t1 t2 p r Hd H0 Ht).
  - exact Htn.
  - unfold P.fn_thr, P.__fn_map_thr, amap2. cbn [data].
    apply Hdiff. intros p r H0.
    apply (thr_voxel_monotone (P.dtype self) t1 t2 p r Hd H0 Ht).
  - intros Hn. unfold P.specificity_thr.
    rewrite !FQ_div_nonzero by lra.
    unfold FQ.le, FQ.leb. apply Qle_bool_iff. rewrite !Qred_correct.
    apply Qmult_le_compat_r.
    + rewrite <- Zle_Qle. exact Htn.
    + apply Qlt_le_weak. now apply Qinv_lt_0_compat.
Qed.

Lemma thresholded_counts_monotone_witness :
  (P.fp_thr Samples.four_scores (8 # 10)
   <= P.fp_thr Samples.four_scores (1 # 10))%Z
  /\ (P.tn_thr Samples.four_scores (1 # 10)
      <= P.tn_thr Samples.four_scores (8 # 10))%Z
  /\ (P.fn_thr Samples.four_scores (1 # 10)
      <= P.fn_thr Samples.four_scores (8 # 10))%Z
  /\ FQ.le (P.specificity_thr Samples.four_scores (1 # 10))
           (P.specificity_thr Samples.four_scores (8 # 10)).
Proof.
  destruct (thresholded_counts_monotone Samples.four_scores (1 # 10) (8 # 10))
    as (H1 & H2 & H3 & H4).
  - exact I.
  - repeat (apply Forall_cons;
            [ (left; reflexivity) || (right; reflexivity) |]).
    apply Forall_nil.
  - discriminate.
  - split; [exact H1 |]. split; [exact H2 |]. split; [exact H3 |].
    apply H4. reflexivity.
Defined.

(** ** The low end of the sweep *)

Lemma all_positive_counts (d : dtype) (f : Q -> bool) (ps rs : list Q) :
  signed d ->
  length ps = length rs ->
  Forall (fun r => r == 0 \/ r == 1) rs ->
  Forall (fun p => f p = true) ps ->
  inject_Z (sumZ (zip_with (fun p r => b2z (Qltb 1 (r + P.b2q (f p)))) ps rs))
    == sumQ rs
  /\ sumZ (zip_with (fun p r => b2z (Qltb (r + P.b2q (f p)) (1 # 2))) ps rs)
     = 0%Z
  /\ sumZ (zip_with (fun p r => b2z (Qltb 0 (wrapQ d (r - P.b2q (f p))))) ps rs)
     = 0%Z.
Proof.
  intros Hd. revert rs.
  induction ps as [|p ps IH]; intros [|r rs] Hlen Hr Hp; simpl in Hlen;
    try discriminate.
  - repeat split; reflexivity.
  - apply Forall_cons_iff in Hr as [Hr0 Hrs].
    apply Forall_cons_iff in Hp as [Hp0 Hps].
    injection Hlen as Hlen.
    destruct (IH rs Hlen Hrs Hps) as (I1 & I2 & I3).
    cbn [zip_with]. rewrite !sumZ_cons, inject_Z_plus, I1, I2, I3, Hp0.
    rewrite sumQ_cons. cbv beta in Hr0.
    destruct (thr_difference_positive d true r Hr0) as [_ ->].
    assert (H3 : match d with
                 | UInt _ => xorb true (Qeq_bool r 1)
                 | _ => negb true && Qeq_bool r 1
                 end = false)
      by (destruct d as [w|w|]; [| destruct Hd |]; reflexivity).
    rewrite H3. cbn [P.b2q].
    destruct Hr0 as [E | E].
    + assert (H1 : Qltb 1 (r + 1) = false) by (rewrite E; reflexivity).
      assert (H2 : Qltb (r + 1) (1 # 2) = false) by (rewrite E; reflexivity).
      rewrite H1, H2, E. repeat split; reflexivity.
    + assert (H1 : Qltb 1 (r + 1) = true) by (rewrite E; reflexivity).
      assert (H2 : Qltb (r + 1) (1 # 2) = false) by (rewrite E; reflexivity).
      rewrite H1, H2, E. repeat split; reflexivity.
Qed.

(** X10. At a threshold not above any predicted value every voxel is
    predicted positive: for a 0/1 reference of the same size and of a
    signed or floating element type there is no false negative and no true
    negative, sensitivity_thr is 1 when the reference has a positive voxel
    and specificity_thr is 0 when it has a negative one. The lowest
    threshold of the sweep is such a threshold. *)
Theorem lowest_threshold_all_positive (self : P.t) (thresh : Q) :
  P.wf self -> signed (P.dtype self) ->
  Forall (fun r => r == 0 \/ r == 1) (data (P.ref self)) ->
  Forall (fun p => thresh <= p) (data (P.pred self)) ->
  P.fn_thr self thresh = 0%Z
  /\ P.tn_thr self thresh = 0%Z
  /\ (0 < P.n_pos_ref self -> P.sensitivity_thr self thresh = Fin 1)
  /\ (0 < P.n_neg_ref self -> P.specificity_thr self thresh = Fin 0).
Proof.
  intros Hwf Hd Hr Hp. pose proof (same_shape_length _ _ Hwf) as Hlen.
  assert (Hb : Forall (fun p => P.pred_bin thresh p = true) (data (P.pred self))).
  { eapply Forall_impl; [| exact Hp]. intros p H. now apply Qle_bool_iff. }
  destruct (all_positive_counts (P.dtype self) (P.pred_bin thresh) _ _ Hd Hlen Hr Hb)
    as (Htp & Htn & Hfn).
  unfold P.sensitivity_thr, P.specificity_thr, P.fn_thr, P.tn_thr, P.tp_thr,
    P.__fn_map_thr, P.__tn_map_thr, P.__tp_map_thr, amap2. cbn [data].
  rewrite Htn, Hfn.
  split; [reflexivity |]. split; [reflexivity |]. split.
  - intros Hn. unfold P.n_pos_ref in *. rewrite FQ_div_nonzero by lra.
    f_equal. transitivity (Qred 1); [| reflexivity].
    apply Qred_complete. rewrite Htp. field. lra.
  - intros Hn. rewrite FQ_div_nonzero by lra.
    replace (Qred (inject_Z 0 / P.n_neg_ref self)) with (Qred 0);
      [reflexivity |].
    apply Qred_complete. change (inject_Z 0) with 0. unfold Qdiv. ring.
Qed.

Lemma lowest_threshold_all_positive_witness :
  P.fn_thr Samples.four_scores (1 # 10) = 0%Z
  /\ P.tn_thr Samples.four_scores (1 # 10) = 0%Z
  /\ P.sensitivity_thr Samples.four_scores (1 # 10) = Fin 1
  /\ P.specificity_thr Samples.four_scores (1 # 10) = Fin 0.
Proof.
  destruct (lowest_threshold_all_positive Samples.four_scores (1 # 10))
    as (H1 & H2 & H3 & H4).
  - repeat split; reflexivity.
  - exact I.
  - repeat (apply Forall_cons;
            [ (left; reflexivity) || (right; reflexivity) |]).
    apply Forall_nil.
  - repeat (apply Forall_cons; [discriminate |]). apply Forall_nil.
  - split; [exact H1 |]. split; [exact H2 |].
    split; [apply H3 | apply H4]; reflexivity.
Defined.

(** ** Calibration error without any selected prediction *)

Lemma ece_bin_none_selected (self : P.t) (lv : list (npfloat Q)) (l u : Q) :
  Forall (fun p => P.in_bin l u p = false) (data (P.pred self)) ->
  P.ece_bin self (lv, 0%Z) (l, u) = (lv ++ [Fin 0], 0%Z).
Proof.
  intros H. unfold P.ece_bin.
  assert (E : filter (Qltb (-1))
                (zip_with (fun p r => if P.in_bin l u p then r else -1)
                          (data (P.pred self)) (data (P.ref self))) = []).
  { revert H. generalize (data (P.ref self)) as rs.
    induction (data (P.pred self)) as [|p ps IH]; intros [|r rs] H;
      try reflexivity.
    apply Forall_cons_iff in H as [H0 Hs].
    cbn [zip_with]. rewrite H0. cbn [filter].
    replace (Qltb (-1) (-1)) with false by reflexivity. now apply IH. }
  rewrite E. reflexivity.
Qed.

Lemma ece_fold_none_selected (self : P.t) (bins : list (Q * Q))
  (lv : list (npfloat Q)) :
  Forall (fun lu => Forall (fun p => P.in_bin (fst lu) (snd lu) p = false)
                           (data (P.pred self))) bins ->
  Forall (fun v => v = Fin 0) lv ->
  exists lv',
    fold_left (P.ece_bin self) bins (lv, 0%Z) = (lv', 0%Z)
    /\ Forall (fun v => v = Fin 0) lv'.
Proof.
  intros Hb. revert lv.
  induction Hb as [|[l u] bins H0 Hbs IH]; intros lv Hlv; cbn [fold_left].
  - now exists lv.
  - cbn [fst snd] in H0. rewrite (ece_bin_none_selected self lv l u H0).
    apply IH. apply Forall_app. split; [exact Hlv | now constructor].
Qed.

Lemma FQ_sum_zeros (lv : list (npfloat Q)) :
  Forall (fun v => v = Fin 0) lv -> FQ.sum lv = Fin 0.
Proof.
  unfold FQ.sum. induction 1 as [|v lv -> Hlv IH]; [reflexivity |].
  cbn [fold_left]. exact IH.
Qed.

(** X11. When no predicted probability is positive (all are 0 or below),
    no bin selects any voxel and expectation_calibration_error returns nan
    (0/0), for every non-zero number of bins. *)
Theorem ece_nan_without_positive_prediction (self : P.t) :
  Qeq_bool (dict_get_default (P.dict_args self) "bins_ece" 10) 0 = false ->
  Forall (fun p => p <= 0) (data (P.pred self)) ->
  P.expectation_calibration_error self = Ok NaN.
Proof.
  intros Hbins Hp. unfold P.expectation_calibration_error. rewrite Hbins.
  set (bins := P.ece_bins _).
  destruct (ece_fold_none_selected self bins []) as (lv & -> & Hlv).
  - apply Forall_forall. intros [l u] Hin. cbn [fst snd].
    pose proof (ece_bins_lower_nonneg _ _ _ Hin) as Hl.
    eapply Forall_impl; [| exact Hp]. intros p Hp0. cbv beta in Hp0.
    unfold P.in_bin, Qltb.
    assert (E : Qle_bool p l = true) by (apply Qle_bool_iff; lra).
    now rewrite E.
  - constructor.
  - rewrite (FQ_sum_zeros lv Hlv). reflexivity.
Qed.

Lemma ece_nan_without_positive_prediction_witness :
  P.expectation_calibration_error
    (Samples.proba_pair [3%nat] [] [0; 0; 0] [1; 0; 1]) = Ok NaN.
Proof.
  apply (ece_nan_without_positive_prediction
           (Samples.proba_pair [3%nat] [] [0; 0; 0] [1; 0; 1])).
  - reflexivity.
  - repeat (apply Forall_cons; [discriminate |]). apply Forall_nil.
Defined.

(** ** The thresholds of the sweep *)

Lemma insertQ_in_iff (x y : Q) (l : list Q) :
  In y (insertQ x l) <-> y = x \/ In y l.
Proof.
  split; [apply insertQ_in |].
  induction l as [|a l IH]; cbn [insertQ].
  - intros [-> | []]. now left.
  - destruct (Qle_bool x a).
    + intros [-> | H]; [now left | now right].
    + intros [-> | [-> | H]].
      * right. apply IH. now left.
      * now left.
      * right. apply IH. now right.
Qed.

Lemma sortQ_in_iff (x : Q) (l : list Q) : In x (sortQ l) <-> In x l.
Proof.
  induction l as [|a l IH]; cbn [sortQ fold_right]; [reflexivity |].
  fold (sortQ l). rewrite insertQ_in_iff, IH. cbn [In].
  split; intros [H | H]; auto.
Qed.

Lemma sortQ_sorted_id (s : list Q) : StronglySorted Qle s -> sortQ s = s.
Proof.
  induction 1 as [|x s Hs IH Hx]; [reflexivity |].
  cbn [sortQ fold_right]. fold (sortQ s). rewrite IH.
  destruct s as [|y s']; [reflexivity |].
  cbn [insertQ]. apply Forall_inv in Hx.
  assert (E : Qle_bool x y = true) by now apply Qle_bool_iff.
  now rewrite E.
Qed.

Lemma runsQ_head (x : Q) (l : list Q) :
  exists c r, runsQ (x :: l) = (x, c) :: r.
Proof.
  cbn [runsQ]. destruct (runsQ l) as [|[y c] r]; [now eexists; eexists |].
  destruct (Qeq_bool x y); eexists; eexists; reflexivity.
Qed.

Lemma runsQ_firsts (s : list Q) :
  StronglySorted Qle s ->
  StronglySorted Qlt (map fst (runsQ s))
  /\ (forall x, In x (map fst (runsQ s)) -> In x s)
  /\ (forall y, In y s -> exists x, In x (map fst (runsQ s)) /\ x == y).
Proof.
  induction 1 as [|x s Hs (IH1 & IH2 & IH3) Hx].
  - repeat split; [constructor | intros x [] | intros y []].
  - cbn [runsQ].
    destruct s as [|y0 s'].
    + cbn [runsQ map fst]. repeat split.
      * repeat constructor.
      * intros z [<- | []]. now left.
      * intros z [<- | []]. exists x. split; [now left | reflexivity].
    + destruct (runsQ_head y0 s') as (c & r & E). rewrite E in *.
      cbn [map fst] in IH1, IH2, IH3.
      pose proof (Forall_inv Hx) as Hxy. cbv beta in Hxy.
      inversion IH1 as [| ? ? Hr Hy0]; subst.
      destruct (Qeq_bool x y0) eqn:Exy.
      * apply Qeq_bool_eq in Exy. cbn [map fst]. repeat split.
        -- constructor; [exact Hr |].
           eapply Forall_impl; [| exact Hy0]. intros z Hz. cbv beta in Hz.
           rewrite Exy. exact Hz.
        -- intros z [<- | Hz]; [now left |]. right. apply IH2. now right.
        -- intros z [<- | Hz].
           ++ exists x. split; [now left | reflexivity].
           ++ destruct (IH3 z Hz) as (w & [<- | Hw] & Ew).
              ** exists x. split; [now left |]. now rewrite Exy.
              ** exists w. split; [now right | exact Ew].
      * apply Qeq_bool_neq in Exy.
        assert (Hlt : x < y0).
        { apply Qle_lteq in Hxy. destruct Hxy; [assumption | contradiction]. }
        cbn [map fst]. repeat split.
        -- constructor; [exact IH1 |].
           constructor; [exact Hlt |].
           eapply Forall_impl; [| exact Hy0]. intros z Hz. cbv beta in Hz.
           lra.
        -- intros z [<- | Hz]; [now left |]. right. now apply IH2.
        -- intros z [<- | Hz].
           ++ exists x. split; [now left | reflexivity].
           ++ destruct (IH3 z Hz) as (w & Hw & Ew).
              exists w. split; [now right | exact Ew].
Qed.

Lemma Qlt_sorted_le (s : list Q) : StronglySorted Qlt s -> StronglySorted Qle s.
Proof.
  induction 1 as [|x s Hs IH Hx]; constructor; [exact IH |].
  eapply Forall_impl; [| exact Hx]. intros y. apply Qlt_le_weak.
Qed.

(** X12. When the number of distinct predicted values is below
    max_number_thresh, or the reference has fewer than max_number_samples
    voxels, the thresholds returned by all_multi_threshold_values are in
    strictly decreasing order, each of them is a predicted value, and every
    predicted value is equal to one of them. *)
Theorem thresholds_are_distinct_predictions (self : P.t)
  (max_number_samples max_number_thresh : Z) thr sens spec ppv fppi :
  (Z.of_nat (length (unique_counts (data (P.pred self)))) < max_number_thresh
   \/ Z.of_nat (size (P.ref self)) < max_number_samples)%Z ->
  P.all_multi_threshold_values self max_number_samples max_number_thresh
    = Ok (thr, sens, spec, ppv, fppi) ->
  StronglySorted (fun a b => b < a) thr
  /\ (forall t, In t thr -> In t (data (P.pred self)))
  /\ (forall p, In p (data (P.pred self)) -> exists t, In t thr /\ t == p).
Proof.
  intros Hcap H.
  set (firsts := map fst (unique_counts (data (P.pred self)))).
  assert (Hret : P.retained_thresholds self max_number_samples max_number_thresh
                 = Ok firsts).
  { unfold P.retained_thresholds. fold firsts.
    unfold firsts at 1. rewrite length_map.
    destruct (Z.ltb_spec (Z.of_nat (length (unique_counts (data (P.pred self)))))
                         max_number_thresh) as [_ | Hge]; [reflexivity |].
    destruct (Z.ltb_spec (Z.of_nat (size (P.ref self))) max_number_samples)
      as [_ | Hge']; [reflexivity | lia]. }
  assert (Hthr : thr = rev (sortQ firsts)).
  { unfold P.all_multi_threshold_values in H. rewrite Hret in H. cbn [bind] in H.
    destruct (P.sweep self (rev (sortQ firsts))) as [[[[ls lsp] lp] lf] | e];
      cbn [bind] in H; [| discriminate].
    now injection H as <- _ _ _ _. }
  destruct (runsQ_firsts (sortQ (data (P.pred self))) (sortQ_sorted _))
    as (H1 & H2 & H3).
  fold (unique_counts (data (P.pred self))) in H1, H2, H3. fold firsts in H1, H2, H3.
  rewrite Hthr, (sortQ_sorted_id firsts (Qlt_sorted_le _ H1)).
  repeat split.
  - apply (StronglySorted_rev Qlt). exact H1.
  - intros t Ht. apply in_rev in Ht. apply sortQ_in_iff. now apply H2.
  - intros p Hp. apply sortQ_in_iff in Hp.
    destruct (H3 p Hp) as (x & Hx & Ex).
    exists x. split; [now apply -> in_rev | exact Ex].
Qed.

Lemma thresholds_are_distinct_predictions_witness :
  StronglySorted (fun a b => b < a) [8 # 10; 4 # 10; 35 # 100; 1 # 10]
  /\ (forall t, In t [8 # 10; 4 # 10; 35 # 100; 1 # 10] ->
      In t (data (P.pred Samples.four_scores)))
  /\ (forall p, In p (data (P.pred Samples.four_scores)) ->
      exists t, In t [8 # 10; 4 # 10; 35 # 100; 1 # 10] /\ t == p).
Proof.
  apply (thresholds_are_distinct_predictions Samples.four_scores 150 1500
           [8 # 10; 4 # 10; 35 # 100; 1 # 10]
           [Fin (1 # 2); Fin (1 # 2); Fin 1; Fin 1]
           [Fin 1; Fin (1 # 2); Fin (1 # 2); Fin 0]
           [Fin 1; Fin (1 # 2); Fin (2 # 3); Fin (1 # 2)]
           [Fin 0; Fin (1 # 4); Fin (1 # 4); Fin (1 # 2)]).
  - left. reflexivity.
  - reflexivity.
Defined.

(* ================================================================== *)
(** * Properties of the box measures *)

Lemma prodZ_acc (l : list Z) (a : Z) :
  fold_left Z.mul l a = (a * Boxes.prodZ l)%Z.
Proof.
  unfold Boxes.prodZ. revert a.
  induction l as [|x l IH]; intros a; cbn [fold_left].
  - clear; lia.
  - rewrite IH, (IH (1 * x)%Z). clear; lia.
Qed.

Lemma prodZ_cons (x : Z) (l : list Z) :
  Boxes.prodZ (x :: l) = (x * Boxes.prodZ l)%Z.
Proof.
  unfold Boxes.prodZ at 1. cbn [fold_left]. rewrite prodZ_acc. clear; lia.
Qed.

Lemma zip_with_app {A B C : Type} (f : A -> B -> C) (l1 l2 : list A)
  (m1 m2 : list B) :
  length l1 = length m1 ->
  zip_with f (l1 ++ l2) (m1 ++ m2) = zip_with f l1 m1 ++ zip_with f l2 m2.
Proof.
  revert m1. induction l1 as [|a l1 IH]; intros [|b m1] H; simpl in H;
    try discriminate; [reflexivity |].
  cbn [app zip_with]. f_equal. apply IH. lia.
Qed.

Lemma half_length {A : Type} (lo hi : list A) :
  length lo = length hi -> (length (lo ++ hi) / 2)%nat = length lo.
Proof.
  intros H. rewrite length_app, <- H.
  replace (length lo + length lo)%nat with (length lo * 2)%nat by lia.
  apply Nat.div_mul. discriminate.
Qed.

Lemma firstn_half {A : Type} (lo hi : list A) :
  length lo = length hi -> firstn (length (lo ++ hi) / 2) (lo ++ hi) = lo.
Proof.
  intros H. rewrite half_length by exact H.
  rewrite firstn_app, Nat.sub_diag, firstn_all. cbn [firstn]. apply app_nil_r.
Qed.

Lemma skipn_half {A : Type} (lo hi : list A) :
  length lo = length hi -> skipn (length (lo ++ hi) / 2) (lo ++ hi) = hi.
Proof.
  intros H. rewrite half_length by exact H.
  rewrite skipn_app, Nat.sub_diag, skipn_all. reflexivity.
Qed.

(** The two functions on boxes given by their corners. *)
Lemma area_box_corners (lo hi : list Z) :
  length lo = length hi ->
  Boxes.area_box (lo ++ hi)
  = Boxes.prodZ (zip_with (fun h l => h + 1 - l)%Z hi lo).
Proof.
  intros H. unfold Boxes.area_box.
  now rewrite firstn_half, skipn_half by exact H.
Qed.

Lemma intersection_boxes_corners (lo1 hi1 lo2 hi2 : list Z) :
  length lo1 = length hi1 -> length lo2 = length hi2 ->
  length lo1 = length lo2 ->
  Boxes.intersection_boxes (lo1 ++ hi1) (lo2 ++ hi2)
  = Z.max 0 (Boxes.prodZ
               (zip_with (fun h l => Z.max (h + 1 - l) 0)
                         (zip_with Z.min hi1 hi2) (zip_with Z.max lo1 lo2))).
Proof.
  intros H1 H2 H12. unfold Boxes.intersection_boxes.
  rewrite !zip_with_app by exact H12.
  assert (Hl : length (zip_with Z.min lo1 lo2) = length (zip_with Z.min hi1 hi2)).
  { rewrite !zip_with_length by lia. exact H1. }
  assert (Hl' : length (zip_with Z.max lo1 lo2) = length (zip_with Z.max hi1 hi2)).
  { rewrite !zip_with_length by lia. exact H1. }
  assert (Hc : length (zip_with Z.min lo1 lo2) = length (zip_with Z.max lo1 lo2)).
  { now rewrite !zip_with_length by lia. }
  rewrite (half_length _ _ Hl), (half_length _ _ Hl').
  rewrite Hc at 1.
  rewrite firstn_app, Nat.sub_diag, firstn_all. cbn [firstn]. rewrite app_nil_r.
  rewrite <- Hc. rewrite skipn_app, Nat.sub_diag, skipn_all. reflexivity.
Qed.

(** X13. For two boxes with the same number of coordinates,
    intersection_boxes, union_boxes and box_iou give the same value when
    the two boxes are exchanged (box_ior does not: it divides by the area
    of its second argument). *)
Theorem box_iou_symmetric (box1 box2 : list Z) :
  length box1 = length box2 ->
  Boxes.intersection_boxes box1 box2 = Boxes.intersection_boxes box2 box1
  /\ Boxes.union_boxes box1 box2 = Boxes.union_boxes box2 box1
  /\ Boxes.box_iou box1 box2 = Boxes.box_iou box2 box1.
Proof.
  intros _.
  assert (Hi : Boxes.intersection_boxes box1 box2
               = Boxes.intersection_boxes box2 box1).
  { unfold Boxes.intersection_boxes.
    rewrite (zip_with_flip Z.min Z.min box1 box2 Z.min_comm).
    rewrite (zip_with_flip Z.max Z.max box1 box2 Z.max_comm).
    reflexivity. }
  assert (Hu : Boxes.union_boxes box1 box2 = Boxes.union_boxes box2 box1).
  { unfold Boxes.union_boxes. rewrite Hi. clear; lia. }
  repeat split; [exact Hi | exact Hu |].
  unfold Boxes.box_iou. now rewrite Hi, Hu.
Qed.

Lemma box_iou_symmetric_witness :
  Boxes.box_iou [0; 0; 2; 2]%Z [1; 1; 3; 3]%Z
  = Boxes.box_iou [1; 1; 3; 3]%Z [0; 0; 2; 2]%Z.
Proof.
  exact (proj2 (proj2 (box_iou_symmetric [0; 0; 2; 2]%Z [1; 1; 3; 3]%Z
                         eq_refl))).
Defined.

Lemma box_ior_not_symmetric :
  Boxes.box_ior [0; 0; 1; 1]%Z [0; 0; 3; 3]%Z = Fin (1 # 4)
  /\ Boxes.box_ior [0; 0; 3; 3]%Z [0; 0; 1; 1]%Z = Fin 1.
Proof. split; reflexivity. Qed.

Lemma box_products (lo1 hi1 lo2 hi2 : list Z) :
  Forall2 Z.le lo1 hi1 -> Forall2 Z.le lo2 hi2 ->
  length lo1 = length lo2 ->
  let inter :=
    Boxes.prodZ (zip_with (fun h l => Z.max (h + 1 - l) 0)
                          (zip_with Z.min hi1 hi2) (zip_with Z.max lo1 lo2)) in
  let a1 := Boxes.prodZ (zip_with (fun h l => h + 1 - l)%Z hi1 lo1) in
  let a2 := Boxes.prodZ (zip_with (fun h l => h + 1 - l)%Z hi2 lo2) in
  (0 <= inter <= a1 /\ inter <= a2 /\ 0 < a1 /\ 0 < a2)%Z.
Proof.
  intros H1. revert lo2 hi2.
  induction H1 as [|l1 h1 lo1 hi1 Hlh1 H1 IH]; intros lo2 hi2 H2 Hlen.
  - destruct H2; [| discriminate]. cbv. repeat split; discriminate.
  - destruct H2 as [|l2 h2 lo2 hi2 Hlh2 H2]; [discriminate |].
    injection Hlen as Hlen. specialize (IH lo2 hi2 H2 Hlen).
    cbn [zip_with]. rewrite !prodZ_cons.
    cbv zeta in IH.
    set (P := Boxes.prodZ (zip_with _ (zip_with Z.min hi1 hi2) _)) in *.
    set (A1 := Boxes.prodZ (zip_with _ hi1 lo1)) in *.
    set (A2 := Boxes.prodZ (zip_with _ hi2 lo2)) in *.
    clearbody P A1 A2.
    assert (0 <= Z.max (Z.min h1 h2 + 1 - Z.max l1 l2) 0 <= h1 + 1 - l1)%Z by lia.
    assert (Z.max (Z.min h1 h2 + 1 - Z.max l1 l2) 0 <= h2 + 1 - l2)%Z by lia.
    repeat split; nia.
Qed.

Lemma box_ratio_unit (n d : Z) :
  (0 <= n <= d)%Z -> (0 < d)%Z ->
  exists q, FQ.div (inject_Z n) (inject_Z d) = Fin q /\ 0 <= q <= 1.
Proof.
  intros Hn Hd.
  destruct (divZ_unit n d Hn) as [E | H]; [| exact H].
  unfold B.divZ in E. rewrite FQ_div_nonzero in E; [discriminate |].
  apply inject_Z_nonzero. lia.
Qed.

(** X14. For two boxes of the same dimension whose first corner is
    component-wise not beyond the opposite corner, the intersection is
    between 0 and the area of either box, and box_iou and box_ior are
    finite values between 0 and 1. *)
Theorem box_overlap_in_range (lo1 hi1 lo2 hi2 : list Z) :
  Forall2 Z.le lo1 hi1 -> Forall2 Z.le lo2 hi2 ->
  length lo1 = length lo2 ->
  let box1 := lo1 ++ hi1 in
  let box2 := lo2 ++ hi2 in
  (0 <= Boxes.intersection_boxes box1 box2 <= Boxes.area_box box1)%Z
  /\ (Boxes.intersection_boxes box1 box2 <= Boxes.area_box box2)%Z
  /\ (exists q, Boxes.box_iou box1 box2 = Fin q /\ 0 <= q <= 1)
  /\ (exists q, Boxes.box_ior box1 box2 = Fin q /\ 0 <= q <= 1).
Proof.
  intros H1 H2 Hlen box1 box2.
  pose proof (Forall2_length H1) as L1. pose proof (Forall2_length H2) as L2.
  destruct (box_products lo1 hi1 lo2 hi2 H1 H2 Hlen) as (Hi & Hi2 & Ha1 & Ha2).
  unfold Boxes.box_iou, Boxes.box_ior, Boxes.union_boxes.
  unfold box1, box2.
  rewrite (intersection_boxes_corners lo1 hi1 lo2 hi2 L1 L2 Hlen).
  rewrite (area_box_corners lo1 hi1 L1), (area_box_corners lo2 hi2 L2).
  set (P := Boxes.prodZ (zip_with _ (zip_with Z.min hi1 hi2) _)) in *.
  set (A1 := Boxes.prodZ (zip_with _ hi1 lo1)) in *.
  set (A2 := Boxes.prodZ (zip_with _ hi2 lo2)) in *.
  clearbody P A1 A2.
  rewrite Z.max_r by lia.
  repeat split; try lia; apply box_ratio_unit; lia.
Qed.

Lemma box_overlap_in_range_witness :
  (0 <= Boxes.intersection_boxes [0; 0; 2; 2] [1; 1; 3; 3]
   <= Boxes.area_box [0; 0; 2; 2])%Z
  /\ Boxes.box_iou [0; 0; 2; 2]%Z [1; 1; 3; 3]%Z = Fin (2 # 7)
  /\ Boxes.box_ior [0; 0; 2; 2]%Z [1; 1; 3; 3]%Z = Fin (4 # 9).
Proof.
  destruct (box_overlap_in_range [0; 0] [2; 2] [1; 1] [3; 3])%Z
    as (H & _).
  - repeat constructor; discriminate.
  - repeat constructor; discriminate.
  - reflexivity.
  - cbn [app] in H. split; [exact H |]. split; reflexivity.
Defined.

(** X15. A box whose first corner is component-wise not beyond the opposite
    corner overlaps itself entirely: intersection_boxes(b, b) = area_box(b),
    which is positive, and box_iou(b, b) = box_ior(b, b) = 1. *)
Theorem box_self_overlap (lo hi : list Z) :
  Forall2 Z.le lo hi ->
  let box := lo ++ hi in
  Boxes.intersection_boxes box box = Boxes.area_box box
  /\ (0 < Boxes.area_box box)%Z
  /\ Boxes.box_iou box box = Fin 1
  /\ Boxes.box_ior box box = Fin 1.
Proof.
  intros H box.
  pose proof (Forall2_length H) as L.
  destruct (box_products lo hi lo hi H H eq_refl) as (Hi & _ & Ha & _).
  assert (E : Boxes.intersection_boxes box box = Boxes.area_box box).
  { unfold box.
    rewrite (intersection_boxes_corners lo hi lo hi L L eq_refl).
    rewrite (area_box_corners lo hi L).
    assert (Hp : Boxes.prodZ (zip_with (fun h l => Z.max (h + 1 - l) 0)
                   (zip_with Z.min hi hi) (zip_with Z.max lo lo))
                 = Boxes.prodZ (zip_with (fun h l => h + 1 - l)%Z hi lo)).
    { clear - H. induction H as [|l h lo hi Hlh H IH]; [reflexivity |].
      cbn [zip_with]. rewrite !prodZ_cons, IH. f_equal. lia. }
    rewrite Hp. lia. }
  assert (Hpos : (0 < Boxes.area_box box)%Z).
  { unfold box. now rewrite (area_box_corners lo hi L). }
  split; [exact E |]. split; [exact Hpos |].
  unfold Boxes.box_iou, Boxes.box_ior, Boxes.union_boxes. rewrite E.
  replace (Boxes.area_box box + Boxes.area_box box - Boxes.area_box box)%Z
    with (Boxes.area_box box) by lia.
  split; apply (divZ_self _ Hpos).
Qed.

Lemma box_self_overlap_witness :
  Boxes.intersection_boxes [1; 2; 4; 2]%Z [1; 2; 4; 2]%Z = 4%Z
  /\ Boxes.box_iou [1; 2; 4; 2]%Z [1; 2; 4; 2]%Z = Fin 1.
Proof.
  destruct (box_self_overlap [1; 2] [4; 2])%Z as (H1 & _ & H3 & _).
  - repeat constructor; discriminate.
  - cbn [app] in H1, H3. split; [rewrite H1; reflexivity | exact H3].
Defined.

Lemma prodZ_zero_factor (l : list Z) : In 0%Z l -> Boxes.prodZ l = 0%Z.
Proof.
  induction l as [|x l IH]; intros H; [destruct H |].
  rewrite prodZ_cons. destruct H as [-> | H]; [reflexivity |].
  rewrite (IH H). lia.
Qed.

Lemma separated_axis_factor (i : nat) (lo1 hi1 lo2 hi2 : list Z) :
  length lo1 = length hi1 -> length lo2 = length hi2 ->
  length lo1 = length lo2 -> (i < length lo1)%nat ->
  (nth i hi1 0 < nth i lo2 0)%Z ->
  In 0%Z (zip_with (fun h l => Z.max (h + 1 - l) 0)
            (zip_with Z.min hi1 hi2) (zip_with Z.max lo1 lo2)).
Proof.
  revert lo1 hi1 lo2 hi2.
  induction i as [|i IH]; intros [|l1 lo1] [|h1 hi1] [|l2 lo2] [|h2 hi2];
    cbn [length nth zip_with]; intros L1 L2 L3 Hi Hs;
    try discriminate; try (exfalso; lia).
  - left. lia.
  - right. apply IH; try lia; exact Hs.
Qed.

(** X16. Two boxes of the same dimension, each with its first corner
    component-wise not beyond the opposite corner, that are separated along
    one axis (the first box ends before the second begins) have
    intersection 0, and box_iou and box_ior are exactly 0. *)
Theorem box_separated_no_overlap (i : nat) (lo1 hi1 lo2 hi2 : list Z) :
  Forall2 Z.le lo1 hi1 -> Forall2 Z.le lo2 hi2 ->
  length lo1 = length lo2 -> (i < length lo1)%nat ->
  (nth i hi1 0 < nth i lo2 0)%Z ->
  let box1 := lo1 ++ hi1 in
  let box2 := lo2 ++ hi2 in
  Boxes.intersection_boxes box1 box2 = 0%Z
  /\ Boxes.union_boxes box1 box2
     = (Boxes.area_box box1 + Boxes.area_box box2)%Z
  /\ Boxes.box_iou box1 box2 = Fin 0
  /\ Boxes.box_ior box1 box2 = Fin 0.
Proof.
  intros H1 H2 Hlen Hi Hs box1 box2.
  pose proof (Forall2_length H1) as L1. pose proof (Forall2_length H2) as L2.
  destruct (box_products lo1 hi1 lo2 hi2 H1 H2 Hlen) as (_ & _ & Ha1 & Ha2).
  assert (E : Boxes.intersection_boxes box1 box2 = 0%Z).
  { unfold box1, box2.
    rewrite (intersection_boxes_corners lo1 hi1 lo2 hi2 L1 L2 Hlen).
    rewrite (prodZ_zero_factor _
               (separated_axis_factor i lo1 hi1 lo2 hi2 L1 L2 Hlen Hi Hs)).
    reflexivity. }
  unfold Boxes.box_iou, Boxes.box_ior, Boxes.union_boxes. rewrite E.
  unfold box1, box2.
  rewrite (area_box_corners lo1 hi1 L1), (area_box_corners lo2 hi2 L2).
  split; [reflexivity |]. split; [lia |].
  split; apply divZ_zero_num; lia.
Qed.

Lemma box_separated_no_overlap_witness :
  Boxes.intersection_boxes [0; 0; 1; 5]%Z [3; 2; 4; 4]%Z = 0%Z
  /\ Boxes.box_iou [0; 0; 1; 5]%Z [3; 2; 4; 4]%Z = Fin 0.
Proof.
  destruct (box_separated_no_overlap 0 [0; 0] [1; 5] [3; 2] [4; 4])%Z
    as (H1 & _ & H3 & _).
  - repeat constructor; discriminate.
  - repeat constructor; discriminate.
  - reflexivity.
  - cbn [length]. lia.
  - reflexivity.
  - cbn [app] in H1, H3. split; [exact H1 | exact H3].
Defined.

(* ================================================================== *)
(** * Properties of the distance measures *)

Lemma mapM_raises {A B : Type} (f : A -> result B) (e0 : exn) (l : list A) (e : exn) :
  (forall a e', f a = Raise e' -> e' = e0) ->
  mapM f l = Raise e -> e = e0.
Proof.
  intros Hf. induction l as [|a l IH]; cbn [mapM]; [discriminate |].
  destruct (f a) as [b|e'] eqn:Ea; cbn [bind].
  - destruct (mapM f l) as [bs|e'']; cbn [bind]; [discriminate |].
    intros H. injection H as <-. now apply IH.
  - intros H. injection H as <-. now apply (Hf a).
Qed.

(** What the distance transform raises depends on the shape alone: a
    sampling of the wrong length is rejected, a well-sized one can only meet
    an input without background. *)
Lemma distance_transform_edt_raises (a : ndarray Z) (s : list Q) (e : exn) :
  Ndimage.distance_transform_edt a s = Raise e ->
  e = (if negb (length s =? length (shape a))%nat then RuntimeError
       else Unspecified).
Proof.
  unfold Ndimage.distance_transform_edt, Ndimage.edt_sq.
  destruct (negb (length s =? length (shape a))%nat); cbn [bind].
  - intros H. now injection H as <-.
  - destruct (mapM _ _) as [d|e'] eqn:E; cbn [bind]; [discriminate |].
    intros H. injection H as <-.
    apply (mapM_raises _ Unspecified _ _) in E; [exact E |].
    intros p e0. destruct (Ndimage.nonzero a p); [| discriminate].
    destruct (Ndimage.nearest_sq _ _ _); [discriminate |].
    intros H. now injection H as <-.
Qed.

Lemma border_map_shape (a : ndarray Z) (n : Z) :
  shape (MorphologyOps.border_map (MorphologyOps.__init__ a n)) = shape a.
Proof. reflexivity. Qed.

Lemma maxR_raises (l : list R) (e : exn) : maxR l = Raise e -> e = ValueError.
Proof. destruct l; [| discriminate]. intros H. now injection H as <-. Qed.

Lemma percentile_raises (l : list R) (q : Q) (e : exn) :
  percentile l q = Raise e ->
  e = (if Qltb q 0 || Qltb 100 q then ValueError else IndexError).
Proof.
  unfold percentile. destruct (Qltb q 0 || Qltb 100 q).
  - intros H. now injection H as <-.
  - destruct l; [| discriminate]. intros H. now injection H as <-.
Qed.

Lemma FR_add_comm (a b : npfloat R) : FR.add a b = FR.add b a.
Proof.
  destruct a, b; cbn [FR.add]; try reflexivity. now rewrite Rplus_comm.
Qed.

Lemma border_distance_swap (self : B.t) :
  shape (B.pred self) = shape (B.ref self) ->
  B.border_distance (B.swap self)
  = do bd <- B.border_distance self;
    let '(dr, dp, br, bp) := bd in Ok (dp, dr, bp, br).
Proof.
  intros Hs. unfold B.border_distance.
  cbn [B.swap B.ref B.pred B.neigh B.pixdim].
  set (br := MorphologyOps.border_map (MorphologyOps.__init__ (B.ref self) _)).
  set (bp := MorphologyOps.border_map (MorphologyOps.__init__ (B.pred self) _)).
  destruct (Ndimage.distance_transform_edt br (B.pixdim self)) as [dr|e1] eqn:E1;
    destruct (Ndimage.distance_transform_edt bp (B.pixdim self)) as [dp|e2] eqn:E2;
    cbn [bind]; try reflexivity.
  apply distance_transform_edt_raises in E1, E2.
  unfold br in E1. unfold bp in E2.
  rewrite border_map_shape in E1, E2. rewrite Hs in E2. now rewrite E1, E2.
Qed.

(** X17. The distance measures do not depend on which mask is the
    prediction and which the reference: on a pair of equal-shape masks,
    measured_distance (for every percentile), the four measures read from
    it and normalised_surface_distance (for every tau) return the same
    result, or raise the same exception, when pred and ref are exchanged. *)
Theorem distances_symmetric (self : B.t) (perc : Q) (tau : R) :
  B.wf self ->
  B.measured_distance (B.swap self) perc = B.measured_distance self perc
  /\ B.measured_hausdorff_distance (B.swap self)
     = B.measured_hausdorff_distance self
  /\ B.measured_average_distance (B.swap self)
     = B.measured_average_distance self
  /\ B.measured_hausdorff_distance_perc (B.swap self)
     = B.measured_hausdorff_distance_perc self
  /\ B.measured_masd (B.swap self) = B.measured_masd self
  /\ B.normalised_surface_distance (B.swap self) tau
     = B.normalised_surface_distance self tau.
Proof.
  intros [Hs _].
  assert (N : B.normalised_surface_distance (B.swap self) tau
              = B.normalised_surface_distance self tau).
  { unfold B.normalised_surface_distance.
    rewrite (border_distance_swap self Hs).
    destruct (B.border_distance self) as [[[[dr dp] br] bp]|e]; cbn [bind];
      [| reflexivity].
    now rewrite Rplus_comm, Z.add_comm. }
  assert (H : forall q, B.measured_distance (B.swap self) q
                        = B.measured_distance self q).
  { intros q. unfold B.measured_distance.
    rewrite (border_distance_swap self Hs).
    unfold amap2. cbn [B.swap B.ref B.pred data].
    rewrite (zip_with_flip Z.add Z.add (data (B.ref self)) (data (B.pred self))
               Z.add_comm).
    destruct (sumZ _ =? 0)%Z; [reflexivity |].
    destruct (B.border_distance self) as [[[[dr dp] br] bp]|e]; cbn [bind];
      [| reflexivity].
    rewrite (Rplus_comm (sumR (data dp))).
    rewrite (FR_add_comm (meanR (data dp))).
    rewrite (zip_with_flip (fun a b => int8 (a + b)) (fun a b => int8 (a + b))
               (data br) (data bp)) by (intros; now rewrite Z.add_comm).
    rewrite (zip_with_flip (fun r p => (0 <? r + p)%Z) (fun r p => (0 <? r + p)%Z)
               (data (B.pred self)) (data (B.ref self)))
      by (intros; now rewrite Z.add_comm).
    set (mask := zip_with _ (data (B.ref self)) (data (B.pred self))).
    destruct (maxR (data dr)) as [mr|e1] eqn:M1;
      destruct (maxR (data dp)) as [mp|e2] eqn:M2; cbn [bind];
      try reflexivity.
    2:{ apply maxR_raises in M1, M2. now rewrite M1, M2. }
    cbn [maxR fold_left bind]. rewrite (Rmax_comm mp mr).
    destruct (percentile (select (data dr) mask) q) as [pr|e1] eqn:P1;
      destruct (percentile (select (data dp) mask) q) as [pp|e2] eqn:P2;
      cbn [bind]; try reflexivity.
    - now rewrite (Rmax_comm pp pr).
    - apply percentile_raises in P1, P2. now rewrite P1, P2. }
  split; [apply H |].
  unfold B.measured_hausdorff_distance, B.measured_average_distance,
    B.measured_hausdorff_distance_perc, B.measured_masd.
  cbn [B.swap B.dict_args]. rewrite !H. repeat split. exact N.
Qed.

Lemma distances_symmetric_witness :
  B.measured_distance (B.swap Samples.scenario) 95
  = B.measured_distance Samples.scenario 95.
Proof.
  destruct (distances_symmetric Samples.scenario 95 1) as [H _].
  - repeat split.
  - exact H.
Defined.

(* ================================================================== *)
(** * Index tuples and border maps *)

Lemma seq_offset (k n : nat) : map (Nat.add k) (seq 0 n) = seq k n.
Proof.
  revert k. induction n as [|n IH]; intros k; [reflexivity |].
  cbn [seq map]. rewrite Nat.add_0_r. f_equal.
  rewrite <- seq_shift, map_map, <- (IH (S k)).
  apply map_ext. intros a. lia.
Qed.

Lemma ravel_rows (N : nat) (rest : list nat) (a n : nat) :
  map (ravel rest) (indices rest) = map Some (seq 0 (prod rest)) ->
  (a + n <= N)%nat ->
  map (ravel (N :: rest))
      (flat_map (fun i => map (cons (Z.of_nat i)) (indices rest)) (seq a n))
  = map Some (seq (a * prod rest) (n * prod rest)).
Proof.
  intros IH. revert a.
  induction n as [|n IHn]; intros a Ha; [reflexivity |].
  cbn [seq flat_map]. rewrite map_app, (IHn (S a)) by lia.
  cbn [Nat.mul]. rewrite seq_app, map_app. f_equal.
  - rewrite map_map. cbn [ravel].
    replace ((0 <=? Z.of_nat a)%Z && (Z.of_nat a <? Z.of_nat N)%Z) with true
      by (symmetry; apply andb_true_intro; split;
          [apply Z.leb_le | apply Z.ltb_lt]; lia).
    rewrite Nat2Z.id.
    rewrite <- (map_map (ravel rest)
                  (fun r => match r with
                            | Some o => Some (a * prod rest + o)%nat
                            | None => None
                            end)).
    rewrite IH, map_map, <- (seq_offset (a * prod rest)), map_map.
    reflexivity.
  - now rewrite Nat.add_comm.
Qed.

(** The index tuples of a shape, in the order [indices] lists them, are
    exactly the buffer offsets 0, 1, ..., prod(shape) - 1. *)
Lemma ravel_indices (sh : list nat) :
  map (ravel sh) (indices sh) = map Some (seq 0 (prod sh)).
Proof.
  induction sh as [|n rest IH]; [reflexivity |].
  cbn [indices prod fold_right].
  rewrite (ravel_rows n rest 0 n IH) by lia. reflexivity.
Qed.

Lemma indices_length (sh : list nat) : length (indices sh) = prod sh.
Proof.
  rewrite <- (length_map (ravel sh)), ravel_indices, length_map.
  apply length_seq.
Qed.

Lemma map_nth_seq {A : Type} (l : list A) (d : A) :
  map (fun o => nth o l d) (seq 0 (length l)) = l.
Proof.
  induction l as [|x l IH]; [reflexivity |].
  cbn [length seq map nth]. f_equal.
  rewrite <- seq_shift, map_map. exact IH.
Qed.

(** Reading a well-formed array at every index tuple of its shape gives
    back its buffer. *)
Lemma at_index_indices {A : Type} (a : ndarray A) (d : A) :
  Np.wf a -> map (at_index a d) (indices (shape a)) = data a.
Proof.
  intros Hwf. unfold at_index.
  rewrite <- (map_map (ravel (shape a))
                (fun r => match r with Some o => nth o (data a) d | None => d end)).
  rewrite ravel_indices, map_map, <- Hwf. apply map_nth_seq.
Qed.

Lemma zip_with_map {A B C D : Type} (f : B -> C -> D) (g : A -> B) (h : A -> C)
  (l : list A) :
  zip_with f (map g l) (map h l) = map (fun x => f (g x) (h x)) l.
Proof. induction l as [|x l IH]; [reflexivity |]. cbn. now rewrite IH. Qed.

Lemma int8_binary (v : Z) : (v = 0 \/ v = 1)%Z -> int8 v = v.
Proof. intros [-> | ->]; reflexivity. Qed.

Lemma map_int8_binary (l : list Z) :
  Forall (fun v => v = 0 \/ v = 1)%Z l -> map int8 l = l.
Proof.
  induction 1 as [|v l Hv _ IH]; [reflexivity |].
  cbn [map]. now rewrite IH, int8_binary.
Qed.

Lemma border_voxel (v : Z) (e : bool) :
  (v = 0 \/ v = 1)%Z ->
  let b := int8 (v - b2z (negb (v =? 0)%Z && e)) in
  ((b = 0 \/ b = 1) /\ b <= v)%Z.
Proof. intros [-> | ->]; destruct e; cbv; intuition discriminate. Qed.

Lemma border_data_within_mask (a : ndarray Z) (n : Z) :
  Np.wf a ->
  Forall (fun v => v = 0 \/ v = 1)%Z (data a) ->
  Forall2 (fun v b => (b = 0 \/ b = 1) /\ b <= v)%Z (data a)
    (data (MorphologyOps.border_map (MorphologyOps.__init__ a n))).
Proof.
  intros Hwf Hbin.
  unfold MorphologyOps.border_map, MorphologyOps.__init__, amap2,
    Ndimage.binary_erosion, amap.
  cbn [MorphologyOps.binary_map data shape].
  rewrite (map_int8_binary _ Hbin).
  replace (mk_ndarray (shape a) (data a)) with a by now destruct a.
  rewrite <- (at_index_indices a 0%Z Hwf) at 1 2.
  rewrite zip_with_map.
  assert (Hat : forall p, (at_index a 0 p = 0 \/ at_index a 0 p = 1)%Z).
  { intros p. unfold at_index. destruct (ravel (shape a) p) as [o|]; [| now left].
    destruct (nth_in_or_default o (data a) 0%Z) as [Hin | ->]; [| now left].
    rewrite Forall_forall in Hbin. now apply Hbin. }
  induction (indices (shape a)) as [|p ps IH]; cbn [map forallb]; constructor;
    [| exact IH].
  unfold Ndimage.nonzero at 1. apply border_voxel, Hat.
Qed.

Lemma within_binary (vs bs : list Z) :
  Forall2 (fun v b => (b = 0 \/ b = 1) /\ b <= v)%Z vs bs ->
  Forall (fun b => b = 0 \/ b = 1)%Z bs /\ (0 <= sumZ bs <= sumZ vs)%Z.
Proof.
  induction 1 as [|v b vs bs [Hb Hle] _ [IH1 IH2]].
  - split; [constructor | rewrite sumZ_nil; lia].
  - split; [now constructor |]. rewrite !sumZ_cons. lia.
Qed.

(** X18. The border map of a well-formed 0/1 mask has the shape of the
    mask, holds only 0 and 1, and is 1 only where the mask is 1: the border
    is a part of the mask, with at most as many voxels. *)
Theorem border_map_within_mask (a : ndarray Z) (n : Z) :
  Np.wf a ->
  Forall (fun v => v = 0 \/ v = 1)%Z (data a) ->
  let border := MorphologyOps.border_map (MorphologyOps.__init__ a n) in
  shape border = shape a
  /\ Forall2 (fun v b => (b = 0 \/ b = 1) /\ b <= v)%Z (data a) (data border)
  /\ (0 <= sumZ (data border) <= sumZ (data a))%Z.
Proof.
  intros Hwf Hbin border.
  pose proof (border_data_within_mask a n Hwf Hbin) as H.
  split; [reflexivity |]. split; [exact H |].
  apply (within_binary _ _ H).
Qed.

Lemma border_map_within_mask_witness :
  let a := mk_ndarray [3%nat; 3%nat] [1; 1; 1; 1; 1; 1; 1; 1; 1]%Z in
  data (MorphologyOps.border_map (MorphologyOps.__init__ a 8))
  = [1; 1; 1; 1; 0; 1; 1; 1; 1]%Z
  /\ (0 <= sumZ (data (MorphologyOps.border_map (MorphologyOps.__init__ a 8)))
      <= sumZ (data a))%Z.
Proof.
  intros a.
  destruct (border_map_within_mask a 8) as (_ & _ & H).
  - reflexivity.
  - cbn [data a]. binary_list.
  - split; [reflexivity | exact H].
Defined.

Lemma product_sum_le (l m : list Z) :
  Forall (fun v => v = 0 \/ v = 1)%Z l ->
  Forall (fun v => v = 0 \/ v = 1)%Z m ->
  (0 <= sumZ (zip_with (fun a b => int8 (a * b)) l m)
   /\ sumZ (zip_with (fun a b => int8 (a * b)) l m) <= sumZ l
   /\ sumZ (zip_with (fun a b => int8 (a * b)) l m) <= sumZ m)%Z.
Proof.
  intros Hl. revert m.
  induction Hl as [|a l Ha Hl IH]; intros m Hm.
  - cbn [zip_with]. rewrite !sumZ_nil.
    destruct (within_binary m m) as [_ H]; [| lia].
    clear - Hm. induction Hm; constructor; [lia | assumption].
  - destruct Hm as [|b m Hb Hm].
    + cbn [zip_with]. rewrite sumZ_cons, !sumZ_nil.
      destruct (within_binary l l) as [_ H]; [| lia].
      clear - Hl. induction Hl; constructor; [lia | assumption].
    + cbn [zip_with]. rewrite !sumZ_cons.
      specialize (IH m Hm).
      destruct Ha as [-> | ->], Hb as [-> | ->];
        change (int8 (0 * 0)) with 0%Z; change (int8 (0 * 1)) with 0%Z;
        change (int8 (1 * 0)) with 0%Z; change (int8 (1 * 1)) with 1%Z; lia.
Qed.

Lemma divZ_half (a b : Z) :
  (0 <= a)%Z -> (2 * a <= b)%Z ->
  B.divZ a b = NaN \/ exists q, B.divZ a b = Fin q /\ 0 <= q <= 1 # 2.
Proof.
  intros Ha Hab.
  destruct (Z.eq_dec b 0) as [-> | Hb].
  - left. replace a with 0%Z by lia. reflexivity.
  - right. rewrite divZ_fin by exact Hb.
    eexists. split; [reflexivity |]. rewrite Qred_correct.
    assert (Hb' : 0 < inject_Z b) by (apply inject_Z_pos; lia).
    assert (Ha' : 0 <= inject_Z a) by (apply inject_Z_nonneg; lia).
    assert (H2 : 2 * inject_Z a <= inject_Z b).
    { change 2 with (inject_Z 2). rewrite <- inject_Z_mult, <- Zle_Qle. exact Hab. }
    split.
    + apply Qle_shift_div_l; [exact Hb' |]. rewrite Qmult_0_l. exact Ha'.
    + apply Qle_shift_div_r; [exact Hb' |]. lra.
Qed.

(** X19. On a well-formed pair of 0/1 masks boundary_iou() is nan (both
    borders empty) or a value between 0 and 1/2: the denominator adds the
    two border sizes without removing their intersection, so the value 1 is
    never reached. *)
Theorem boundary_iou_at_most_half (self : B.t) :
  B.wf self -> B.binary self ->
  B.boundary_iou self = NaN
  \/ exists q, B.boundary_iou self = Fin q /\ 0 <= q <= 1 # 2.
Proof.
  intros (Hs & Hwp & Hwr) [Hp Hr].
  unfold B.boundary_iou. cbn zeta.
  destruct (within_binary _ _
              (border_data_within_mask (B.ref self) (B.neigh self) Hwr Hr))
    as [Hbr _].
  destruct (within_binary _ _
              (border_data_within_mask (B.pred self) (B.neigh self) Hwp Hp))
    as [Hbp _].
  destruct (product_sum_le _ _ Hbr Hbp) as (H0 & H1 & H2).
  set (br := MorphologyOps.border_map (MorphologyOps.__init__ (B.ref self) _)) in *.
  set (bp := MorphologyOps.border_map (MorphologyOps.__init__ (B.pred self) _)) in *.
  unfold amap2. cbn [data].
  apply divZ_half; lia.
Qed.

Lemma boundary_iou_at_most_half_witness :
  B.boundary_iou Samples.scenario = Fin (1 # 4).
Proof.
  destruct (boundary_iou_at_most_half Samples.scenario) as [H | [q [H _]]].
  - repeat split; reflexivity.
  - split; binary_list.
  - reflexivity.
  - reflexivity.
Defined.

(* ================================================================== *)
(** * When the distance measures return *)

Lemma mapM_returns {A B : Type} (f : A -> result B) (l : list A) :
  (forall a, In a l -> exists b, f a = Ok b) ->
  exists r, mapM f l = Ok r /\ length r = length l.
Proof.
  induction l as [|a l IH]; intros H.
  - exists []. split; reflexivity.
  - destruct (H a (or_introl eq_refl)) as [b Hb].
    destruct IH as (r & Hr & Hlen); [intros x Hx; apply H; now right |].
    exists (b :: r). cbn [mapM]. rewrite Hb, Hr. cbn [bind length].
    split; [reflexivity | now rewrite Hlen].
Qed.

(** The distance transform returns as soon as the sampling has one entry
    per axis and the input has a zero element. *)
Lemma distance_transform_edt_returns (a : ndarray Z) (s : list Q) :
  length s = length (shape a) ->
  (exists p, In p (indices (shape a)) /\ Ndimage.nonzero a p = false) ->
  exists d, Ndimage.distance_transform_edt a s = Ok d
            /\ length (data d) = prod (shape a)
            /\ Forall (fun x => 0 <= x)%R (data d).
Proof.
  intros Hlen (p0 & Hin & Hz).
  unfold Ndimage.distance_transform_edt, Ndimage.edt_sq.
  rewrite Hlen, Nat.eqb_refl. cbn [negb].
  destruct (mapM_returns
              (fun p => if Ndimage.nonzero a p
                        then match Ndimage.nearest_sq s (Ndimage.background a) p with
                             | Some d => Ok (Qred d)
                             | None => Raise Unspecified
                             end
                        else Ok 0)
              (indices (shape a))) as (r & Hr & Hl).
  { intros p _. destruct (Ndimage.nonzero a p); [| now exists 0].
    unfold Ndimage.nearest_sq.
    destruct (Ndimage.background a) as [|b bs] eqn:E; [| eexists; reflexivity].
    exfalso. unfold Ndimage.background in E.
    assert (Hin' : In p0 (filter (fun p => negb (Ndimage.nonzero a p))
                            (indices (shape a)))).
    { apply filter_In. split; [exact Hin | now rewrite Hz]. }
    rewrite E in Hin'. destruct Hin'. }
  rewrite Hr. cbn [bind]. eexists. split; [reflexivity |].
  cbn [data]. rewrite length_map, Hl, indices_length. split; [reflexivity |].
  apply Forall_map, Forall_forall. intros x _. apply sqrt_pos.
Qed.

Lemma border_background (a : ndarray Z) (n : Z) :
  Np.wf a ->
  Forall (fun v => v = 0 \/ v = 1)%Z (data a) ->
  In 0%Z (data a) ->
  let border := MorphologyOps.border_map (MorphologyOps.__init__ a n) in
  exists p, In p (indices (shape border)) /\ Ndimage.nonzero border p = false.
Proof.
  intros Hwf Hbin H0 border.
  pose proof (border_data_within_mask a n Hwf Hbin) as H. fold border in H.
  assert (Hwb : Np.wf border).
  { unfold Np.wf. rewrite <- (Forall2_length H). exact Hwf. }
  assert (Hb0 : In 0%Z (data border)).
  { clear - H H0. induction H as [|v b vs bs [Hb Hle] _ IH]; [destruct H0 |].
    destruct H0 as [-> | H0]; [left; lia | right; now apply IH]. }
  rewrite <- (at_index_indices border 0%Z Hwb) in Hb0.
  apply in_map_iff in Hb0 as (p & Hp & Hin).
  exists p. split; [exact Hin |]. unfold Ndimage.nonzero. now rewrite Hp.
Qed.

(** On a well-formed pair of 0/1 masks with one spacing per axis, each mask
    having a background voxel, border_distance returns; its two border maps
    are the 0/1 border maps of the masks and its two distance fields are
    non-negative, all four with one entry per voxel. *)
Lemma border_distance_returns (self : B.t) :
  B.wf self -> B.binary self ->
  length (B.pixdim self) = length (shape (B.ref self)) ->
  In 0%Z (data (B.pred self)) -> In 0%Z (data (B.ref self)) ->
  exists dr dp br bp,
    B.border_distance self = Ok (dr, dp, br, bp)
    /\ Forall (fun b => b = 0 \/ b = 1)%Z (data br)
    /\ Forall (fun b => b = 0 \/ b = 1)%Z (data bp)
    /\ Forall (fun x => 0 <= x)%R (data dr)
    /\ Forall (fun x => 0 <= x)%R (data dp)
    /\ length (data dr) = length (data (B.ref self))
    /\ length (data dp) = length (data (B.ref self)).
Proof.
  intros (Hs & Hwp & Hwr) [Hp Hr] Hpix H0p H0r.
  unfold B.border_distance.
  set (br := MorphologyOps.border_map (MorphologyOps.__init__ (B.ref self) _)).
  set (bp := MorphologyOps.border_map (MorphologyOps.__init__ (B.pred self) _)).
  pose proof (border_data_within_mask (B.ref self) (B.neigh self) Hwr Hr) as Fr.
  pose proof (border_data_within_mask (B.pred self) (B.neigh self) Hwp Hp) as Fp.
  fold br in Fr. fold bp in Fp.
  destruct (within_binary _ _ Fr) as [Hbr _].
  destruct (within_binary _ _ Fp) as [Hbp _].
  destruct (distance_transform_edt_returns br (B.pixdim self))
    as (distance_ref & E1 & L1 & P1);
    [exact Hpix | apply (border_background (B.ref self) (B.neigh self) Hwr Hr H0r) |].
  destruct (distance_transform_edt_returns bp (B.pixdim self))
    as (distance_pred & E2 & L2 & P2);
    [unfold bp; rewrite border_map_shape, Hs; exact Hpix
    | apply (border_background (B.pred self) (B.neigh self) Hwp Hp H0p) |].
  rewrite E1, E2. cbn [bind].
  do 4 eexists. split; [reflexivity |].
  assert (Lr : length (data br) = length (data (B.ref self)))
    by (symmetry; apply (Forall2_length Fr)).
  assert (Lp : length (data bp) = length (data (B.pred self)))
    by (symmetry; apply (Forall2_length Fp)).
  assert (Lpr : length (data (B.pred self)) = length (data (B.ref self)))
    by (unfold Np.wf in Hwp, Hwr; now rewrite Hwp, Hwr, Hs).
  assert (Hnn : forall (bs : list Z) (ds : list R),
             Forall (fun b => b = 0 \/ b = 1)%Z bs ->
             Forall (fun x => 0 <= x)%R ds ->
             Forall (fun x => 0 <= x)%R
                    (zip_with (fun (b : Z) d => IZR b * d)%R bs ds)).
  { intros bs ds Hb. revert ds.
    induction Hb as [|b bs Hb0 _ IH]; intros ds Hd; [constructor |].
    destruct Hd as [|d ds Hd0 Hd]; cbn [zip_with]; constructor.
    - destruct Hb0 as [-> | ->]; lra.
    - now apply IH. }
  unfold amap2. cbn [data].
  repeat split; try assumption.
  - now apply Hnn.
  - now apply Hnn.
  - rewrite zip_with_length; [lia |].
    rewrite L1. unfold br. rewrite border_map_shape.
    fold br. rewrite Lp, Lpr. exact Hwr.
  - rewrite zip_with_length; [exact Lr |].
    rewrite L2. unfold bp. rewrite border_map_shape.
    fold bp. rewrite Lr, Hs. exact Hwr.
Qed.

Lemma sumR_acc (l : list R) (a : R) : fold_left Rplus l a = (a + sumR l)%R.
Proof.
  unfold sumR. revert a.
  induction l as [|x l IH]; intros a; cbn [fold_left]; [lra |].
  rewrite IH, (IH (0 + x)%R). lra.
Qed.

Lemma sumR_cons (x : R) (l : list R) : sumR (x :: l) = (x + sumR l)%R.
Proof. unfold sumR at 1. cbn [fold_left]. rewrite sumR_acc. lra. Qed.

Lemma binary_sum_nonneg (l : list Z) :
  Forall (fun v => v = 0 \/ v = 1)%Z l -> (0 <= sumZ l)%Z.
Proof.
  induction 1 as [|v l Hv _ IH]; [rewrite sumZ_nil; lia |].
  rewrite sumZ_cons. lia.
Qed.

Lemma weighted_sum_bounds (bs : list Z) (rs : list R) :
  Forall (fun v => v = 0 \/ v = 1)%Z bs ->
  Forall (fun r => 0 <= r <= 1)%R rs ->
  (0 <= sumR (zip_with (fun (b : Z) r => IZR b * r) bs rs) <= IZR (sumZ bs))%R.
Proof.
  intros Hb. revert rs.
  induction Hb as [|b bs Hb0 Hb IH]; intros rs Hr.
  - cbn [zip_with]. rewrite sumZ_nil. unfold sumR. cbn [fold_left]. lra.
  - destruct Hr as [|r rs Hr0 Hr].
    + cbn [zip_with]. unfold sumR. cbn [fold_left].
      split; [lra |]. apply IZR_le.
      apply binary_sum_nonneg. now constructor.
    + cbn [zip_with]. rewrite sumR_cons, sumZ_cons, plus_IZR.
      specialize (IH rs Hr).
      destruct Hb0 as [-> | ->]; lra.
Qed.

Lemma within_unit (tau : R) (ds : list R) :
  Forall (fun r => 0 <= r <= 1)%R (map (B.within tau) ds).
Proof.
  apply Forall_map, Forall_forall. intros d _.
  unfold B.within. destruct (Rlt_dec d tau); lra.
Qed.

Lemma FR_div_unit (x : R) (n : Z) :
  (0 <= x <= IZR n)%R ->
  FR.div x (IZR n) = NaN
  \/ exists y, FR.div x (IZR n) = Fin y /\ (0 <= y <= 1)%R.
Proof.
  intros [H0 H1]. unfold FR.div.
  destruct (Req_dec_T (IZR n) 0) as [E | E].
  - left. destruct (Req_dec_T x 0) as [_ | Hx]; [reflexivity |].
    exfalso. apply Hx. lra.
  - right. eexists. split; [reflexivity |].
    assert (Hn : (0 < IZR n)%R) by lra.
    split.
    + apply Rmult_le_reg_r with (IZR n); [exact Hn |].
      unfold Rdiv. rewrite Rmult_assoc, Rinv_l by exact E. lra.
    + apply Rmult_le_reg_r with (IZR n); [exact Hn |].
      unfold Rdiv. rewrite Rmult_assoc, Rinv_l by exact E. lra.
Qed.

(** X20. On a well-formed pair of 0/1 masks with one spacing per axis,
    each mask having a background voxel, normalised_surface_distance(tau)
    returns for every tau, and the value is nan (both borders empty) or
    lies between 0 and 1. *)
Theorem nsd_in_unit_range (self : B.t) (tau : R) :
  B.wf self -> B.binary self ->
  length (B.pixdim self) = length (shape (B.ref self)) ->
  In 0%Z (data (B.pred self)) -> In 0%Z (data (B.ref self)) ->
  exists v, B.normalised_surface_distance self tau = Ok v
            /\ (v = NaN \/ exists y, v = Fin y /\ (0 <= y <= 1)%R).
Proof.
  intros Hwf Hbin Hpix H0p H0r.
  destruct (border_distance_returns self Hwf Hbin Hpix H0p H0r)
    as (dr & dp & br & bp & E & Hbr & Hbp & _).
  unfold B.normalised_surface_distance. rewrite E. cbn [bind].
  eexists. split; [reflexivity |].
  unfold amap2, amap. cbn [data].
  apply FR_div_unit.
  pose proof (weighted_sum_bounds _ _ Hbp (within_unit tau (data dr))) as H1.
  pose proof (weighted_sum_bounds _ _ Hbr (within_unit tau (data dp))) as H2.
  rewrite plus_IZR. lra.
Qed.

Lemma nsd_in_unit_range_witness :
  exists v, B.normalised_surface_distance Samples.scenario 2 = Ok v
            /\ (v = NaN \/ exists y, v = Fin y /\ (0 <= y <= 1)%R).
Proof.
  apply (nsd_in_unit_range Samples.scenario 2).
  - repeat split; reflexivity.
  - split; binary_list.
  - reflexivity.
  - cbn. tauto.
  - cbn. tauto.
Defined.

Lemma fold_Rmax_ge (l : list R) (x : R) : (x <= fold_left Rmax l x)%R.
Proof.
  revert x. induction l as [|y l IH]; intros x; cbn [fold_left]; [lra |].
  apply Rle_trans with (Rmax x y); [apply Rmax_l | apply IH].
Qed.

Lemma maxR_nonneg (l : list R) :
  l <> [] -> Forall (fun x => 0 <= x)%R l ->
  exists m, maxR l = Ok m /\ (0 <= m)%R.
Proof.
  intros Hne Hl. destruct Hl as [|x l Hx _]; [contradiction |].
  eexists. split; [reflexivity |].
  apply Rle_trans with x; [exact Hx | apply fold_Rmax_ge].
Qed.

Lemma insertR_Forall (P : R -> Prop) (x : R) (l : list R) :
  P x -> Forall P l -> Forall P (insertR x l).
Proof.
  intros Hx. induction 1 as [|y l Hy Hl IH]; cbn [insertR].
  - now repeat constructor.
  - destruct (Rle_dec x y); repeat constructor; assumption.
Qed.

Lemma sortR_Forall (P : R -> Prop) (l : list R) :
  Forall P l -> Forall P (sortR l).
Proof.
  induction 1 as [|x l Hx _ IH]; [constructor |].
  cbn [sortR fold_right]. now apply insertR_Forall.
Qed.

Lemma Qltb_ge (a b : Q) : b <= a -> Qltb a b = false.
Proof.
  intros H. unfold Qltb. apply Qle_bool_iff in H. now rewrite H.
Qed.

(** A percentile between 0 and 100 of a non-empty array of non-negative
    values is returned and is non-negative. *)
Lemma percentile_nonneg (l : list R) (q : Q) :
  0 <= q <= 100 -> l <> [] -> Forall (fun x => 0 <= x)%R l ->
  exists p, percentile l q = Ok p /\ (0 <= p)%R.
Proof.
  intros [Hq0 Hq1] Hne Hl. unfold percentile.
  rewrite (Qltb_ge _ _ Hq0), (Qltb_ge _ _ Hq1). cbn [orb].
  destruct l as [|x l]; [contradiction |].
  eexists. split; [reflexivity |].
  set (s := sortR (x :: l)).
  set (v := inject_Z (Z.of_nat (length (x :: l) - 1)) * q / 100).
  assert (Hs : forall i, (0 <= nth i s 0)%R).
  { intros i. destruct (nth_in_or_default i s 0%R) as [Hin | ->]; [| lra].
    pose proof (sortR_Forall _ _ Hl) as Hf. rewrite Forall_forall in Hf.
    now apply Hf. }
  assert (Hg0 : (0 <= Q2R (v - inject_Z (Qfloor v)))%R).
  { rewrite <- RMicromega.Q2R_0. apply Qreals.Qle_Rle.
    pose proof (Qfloor_le v). lra. }
  assert (Hg1 : (Q2R (v - inject_Z (Qfloor v)) <= 1)%R).
  { rewrite <- RMicromega.Q2R_1. apply Qreals.Qle_Rle.
    pose proof (Qlt_floor v) as H.
    rewrite inject_Z_plus in H. change (inject_Z 1) with 1 in H. lra. }
  pose proof (Hs (Z.to_nat (Qfloor v))) as Ha.
  pose proof (Hs (Nat.min (Z.to_nat (Qfloor v) + 1) (length (x :: l) - 1))) as Hb.
  fold s. nra.
Qed.

Lemma select_nonempty {A : Type} (l : list A) (mask : list bool) :
  length l = length mask -> In true mask -> select l mask <> [].
Proof.
  revert mask. induction l as [|x l IH]; intros [|b mask] Hlen Hin;
    cbn [length] in Hlen; try discriminate; [destruct Hin |].
  cbn [select]. destruct b; [discriminate |].
  destruct Hin as [Hin | Hin]; [discriminate |].
  apply IH; [lia | exact Hin].
Qed.

Lemma select_Forall {A : Type} (P : A -> Prop) (l : list A) (mask : list bool) :
  Forall P l -> Forall P (select l mask).
Proof.
  intros H. revert mask.
  induction H as [|x l Hx _ IH]; intros [|b mask]; cbn [select];
    try constructor.
  destruct b; [constructor; [exact Hx | apply IH] | apply IH].
Qed.

Lemma union_mask_nonempty (ps rs : list Z) :
  Forall (fun v => v = 0 \/ v = 1)%Z ps ->
  Forall (fun v => v = 0 \/ v = 1)%Z rs ->
  sumZ (zip_with Z.add ps rs) <> 0%Z ->
  In true (zip_with (fun r p => (0 <? r + p)%Z) rs ps).
Proof.
  intros Hp. revert rs.
  induction Hp as [|p ps Hp0 Hp IH]; intros rs Hr;
    [cbn [zip_with]; rewrite sumZ_nil; contradiction |].
  destruct Hr as [|r rs Hr0 Hr];
    [cbn [zip_with]; rewrite sumZ_nil; contradiction |].
  cbn [zip_with]. rewrite sumZ_cons. intros H.
  destruct (Z.eq_dec (p + r) 0) as [E | E].
  - right. apply IH; [exact Hr | lia].
  - left. apply Z.ltb_lt. lia.
Qed.

(** X21. On a well-formed pair of 0/1 masks that are not both empty, with
    one spacing per axis, each mask having a background voxel, and for a
    percentile between 0 and 100, measured_distance returns the 4-tuple
    (hd, assd, hd_perc, masd) with hd and hd_perc finite and non-negative;
    in particular measured_masd finds its entry and returns. *)
Theorem distances_return (self : B.t) (perc : Q) :
  B.wf self -> B.binary self ->
  length (B.pixdim self) = length (shape (B.ref self)) ->
  In 0%Z (data (B.pred self)) -> In 0%Z (data (B.ref self)) ->
  sumZ (data (amap2 Z.add (B.pred self) (B.ref self))) <> 0%Z ->
  0 <= perc <= 100 ->
  (exists hd assd hd_perc masd,
     B.measured_distance self perc = Ok [Fin hd; assd; Fin hd_perc; masd]
     /\ (0 <= hd)%R /\ (0 <= hd_perc)%R)
  /\ (exists masd, B.measured_masd self = Ok masd).
Proof.
  intros Hwf Hbin Hpix H0p H0r Hsum Hperc.
  assert (H : forall q, 0 <= q <= 100 ->
            exists hd assd hd_perc masd,
              B.measured_distance self q = Ok [Fin hd; assd; Fin hd_perc; masd]
              /\ (0 <= hd)%R /\ (0 <= hd_perc)%R).
  { intros q Hq.
    destruct (border_distance_returns self Hwf Hbin Hpix H0p H0r)
      as (dr & dp & br & bp & E & _ & _ & Pr & Pp & Lr & Lp).
    unfold B.measured_distance.
    apply Z.eqb_neq in Hsum. rewrite Hsum, E. cbn [bind].
    assert (Hne : forall d : ndarray R,
               length (data d) = length (data (B.ref self)) -> data d <> []).
    { intros d Ld Ed. rewrite Ed in Ld.
      destruct (data (B.ref self)); [destruct H0r | discriminate]. }
    destruct (maxR_nonneg _ (Hne dr Lr) Pr) as (mr & -> & Hmr).
    destruct (maxR_nonneg _ (Hne dp Lp) Pp) as (mp & -> & Hmp).
    cbn [bind maxR fold_left].
    set (mask := data (amap2 _ (B.ref self) (B.pred self))).
    assert (Hmask : In true mask).
    { destruct Hbin as [Hp Hr]. apply union_mask_nonempty; try assumption.
      apply Z.eqb_neq. exact Hsum. }
    assert (Lm : length mask = length (data (B.ref self))).
    { unfold mask, amap2. cbn [data]. apply zip_with_length.
      symmetry. apply (same_shape_length _ _ Hwf). }
    assert (Hsel : forall d : ndarray R,
               length (data d) = length (data (B.ref self)) ->
               Forall (fun x => 0 <= x)%R (data d) ->
               exists p, percentile (select (data d) mask) q = Ok p
                         /\ (0 <= p)%R).
    { intros d Ld Pd. apply percentile_nonneg; [exact Hq | |].
      - apply select_nonempty; [now rewrite Ld, Lm | exact Hmask].
      - now apply select_Forall. }
    destruct (Hsel dr Lr Pr) as (pr & -> & Hpr).
    destruct (Hsel dp Lp Pp) as (pp & -> & Hpp).
    cbn [bind].
    do 4 eexists. split; [reflexivity |].
    split; [apply Rle_trans with mr | apply Rle_trans with pr];
      try assumption; apply Rmax_l. }
  split; [apply (H perc Hperc) |].
  destruct (H B.default_perc) as (hd & assd & hp & masd & E & _).
  { unfold B.default_perc. split; discriminate. }
  exists masd. unfold B.measured_masd. now rewrite E.
Qed.

Lemma distances_return_witness :
  exists masd, B.measured_masd Samples.scenario = Ok masd.
Proof.
  destruct (distances_return Samples.scenario 95) as [_ H].
  - repeat split; reflexivity.
  - split; binary_list.
  - reflexivity.
  - cbn. tauto.
  - cbn. tauto.
  - discriminate.
  - split; discriminate.
  - exact H.
Defined.

(* ================================================================== *)
(** * Further ratios of the confusion counts *)

Lemma mcc_numerator_bound (a b c d : Z) :
  (0 <= a -> 0 <= b -> 0 <= c -> 0 <= d ->
   (a * d - b * c) * (a * d - b * c)
   <= (a + b) * (a + c) * (d + b) * (d + c))%Z.
Proof.
  intros Ha Hb Hc Hd.
  assert (E : ((a + b) * (a + c) * (d + b) * (d + c)
               - (a * d - b * c) * (a * d - b * c)
               = 4 * (a * d) * (b * c)
                 + (a * d + b * c) * (a * c + b * d + (a * b + c * d))
                 + (a * c + b * d) * (a * b + c * d))%Z) by ring.
  assert (0 <= a * d)%Z by (apply Z.mul_nonneg_nonneg; assumption).
  assert (0 <= b * c)%Z by (apply Z.mul_nonneg_nonneg; assumption).
  assert (0 <= a * c)%Z by (apply Z.mul_nonneg_nonneg; assumption).
  assert (0 <= b * d)%Z by (apply Z.mul_nonneg_nonneg; assumption).
  assert (0 <= a * b)%Z by (apply Z.mul_nonneg_nonneg; assumption).
  assert (0 <= c * d)%Z by (apply Z.mul_nonneg_nonneg; assumption).
  assert (0 <= 4 * (a * d) * (b * c)
               + (a * d + b * c) * (a * c + b * d + (a * b + c * d))
               + (a * c + b * d) * (a * b + c * d))%Z.
  { repeat apply Z.add_nonneg_nonneg; apply Z.mul_nonneg_nonneg; lia. }
  lia.
Qed.

Lemma mcc_empty_marginal (a b c d : Z) :
  (0 <= a -> 0 <= b -> 0 <= c -> 0 <= d ->
   (a + b) * (a + c) * (d + b) * (d + c) = 0 -> a * d - b * c = 0)%Z.
Proof.
  intros Ha Hb Hc Hd H.
  apply Z.eq_mul_0 in H as [H | H];
    [apply Z.eq_mul_0 in H as [H | H]; [apply Z.eq_mul_0 in H as [H | H] |] |].
  - replace a with 0%Z by lia. replace b with 0%Z by lia. ring.
  - replace a with 0%Z by lia. replace c with 0%Z by lia. ring.
  - replace d with 0%Z by lia. replace b with 0%Z by lia. ring.
  - replace d with 0%Z by lia. replace c with 0%Z by lia. ring.
Qed.

(** X22. On a well-formed pair of 0/1 masks the Matthews correlation
    coefficient is nan when one of the four marginals tp+fp, tp+fn, tn+fp,
    tn+fn is zero (never an infinity), and otherwise a value between -1
    and 1. *)
Theorem mcc_in_range (self : B.t) :
  B.wf self -> B.binary self ->
  let marginals :=
    ((B.tp self + B.fp self) * (B.tp self + B.fn self)
     * (B.tn self + B.fp self) * (B.tn self + B.fn self))%Z in
  (marginals = 0%Z /\ B.matthews_correlation_coefficient self = NaN)
  \/ (marginals <> 0%Z
      /\ exists x, B.matthews_correlation_coefficient self = Fin x
                   /\ (-1 <= x <= 1)%R).
Proof.
  intros Hwf Hbin. cbv zeta.
  unfold B.matthews_correlation_coefficient.
  assert (H0 : (0 <= B.tp self /\ 0 <= B.fp self /\ 0 <= B.fn self
                /\ 0 <= B.tn self)%Z).
  { destruct (counts_any_dtype self Hwf Hbin)
      as (Ha & Hb & Hc & Hd & _ & -> & -> & -> & -> & _).
    destruct (B.dtype self); repeat split; lia. }
  destruct H0 as (Ha & Hb & Hc & Hd).
  set (a := B.tp self) in *. set (b := B.fp self) in *.
  set (c := B.fn self) in *. set (d := B.tn self) in *.
  clearbody a b c d.
  set (num := (a * d - b * c)%Z).
  set (den := ((a + b) * (a + c) * (d + b) * (d + c))%Z).
  pose proof (mcc_numerator_bound a b c d Ha Hb Hc Hd) as Hle.
  fold num den in Hle.
  assert (Hden : (0 <= den)%Z).
  { unfold den. repeat apply Z.mul_nonneg_nonneg; lia. }
  destruct (Z.eq_dec den 0) as [E | E].
  - left. split; [exact E |].
    pose proof (mcc_empty_marginal a b c d Ha Hb Hc Hd E) as En.
    fold num in En. rewrite E, En, sqrt_0. unfold FR.div.
    destruct (Req_dec_T 0 0) as [_ | H]; [reflexivity | now elim H].
  - right. split; [exact E |].
    assert (Hpos : (0 < IZR den)%R) by (apply IZR_lt; lia).
    pose proof (sqrt_lt_R0 _ Hpos) as Hs.
    unfold FR.div.
    destruct (Req_dec_T (sqrt (IZR den)) 0) as [H | _]; [lra |].
    eexists. split; [reflexivity |].
    assert (Hsq : (IZR num * IZR num <= sqrt (IZR den) * sqrt (IZR den))%R).
    { rewrite sqrt_sqrt by lra. rewrite <- mult_IZR. now apply IZR_le. }
    set (s := sqrt (IZR den)) in *. set (n := IZR num) in *.
    assert (Hn : (- s <= n <= s)%R) by (split; nra).
    split.
    + apply Rmult_le_reg_r with s; [exact Hs |].
      unfold Rdiv. rewrite Rmult_assoc, Rinv_l by lra. lra.
    + apply Rmult_le_reg_r with s; [exact Hs |].
      unfold Rdiv. rewrite Rmult_assoc, Rinv_l by lra. lra.
Qed.

Lemma mcc_in_range_witness :
  exists x, B.matthews_correlation_coefficient Samples.scenario = Fin x
            /\ (-1 <= x <= 1)%R.
Proof.
  destruct (mcc_in_range Samples.scenario) as [[H _] | [_ H]].
  - repeat split; reflexivity.
  - split; binary_list.
  - discriminate H.
  - exact H.
Defined.

Lemma one_minus_ratio (d n : Z) :
  (0 <= d <= n)%Z -> FQ.sub (Fin 1) (B.divZ d n) = B.divZ (n - d) n.
Proof.
  intros Hd. destruct (Z.eq_dec n 0) as [-> | Hn].
  - replace d with 0%Z by lia. reflexivity.
  - rewrite !divZ_fin by exact Hn. cbn [FQ.sub FQ.opp FQ.add]. f_equal.
    apply Qred_complete. rewrite !Qred_correct.
    unfold Zminus. rewrite inject_Z_plus, inject_Z_opp.
    field. now apply inject_Z_nonzero.
Qed.

(** X23. On a well-formed pair of 0/1 masks of a signed or floating
    element type, 1 - specificity() is the false positive rate, so
    positive_likelihood_ratio() is sensitivity() divided by
    false_positive_rate(); it is +inf, not an error, on a pair with true
    positives, true negatives and no false positive. *)
Theorem positive_likelihood_ratio_through_fpr (self : B.t) :
  B.wf self -> B.binary self -> signed (B.dtype self) ->
  B.positive_likelihood_ratio self
  = FQ.fdiv (B.sensitivity self) (B.false_positive_rate self)
  /\ ((0 < B.tp self)%Z -> (0 < B.tn self)%Z -> B.fp self = 0%Z ->
      B.positive_likelihood_ratio self = PInf).
Proof.
  intros Hwf Hbin Hdt.
  assert (E : FQ.sub (Fin 1) (B.specificity self) = B.false_positive_rate self).
  { unfold B.specificity, B.false_positive_rate.
    destruct (counts_by_cases self Hwf Hbin Hdt)
      as (_ & Hb & _ & Hd & _ & _ & -> & _ & -> & _ & _ & -> & _).
    rewrite one_minus_ratio by lia. f_equal. lia. }
  unfold B.positive_likelihood_ratio. cbv zeta. rewrite E.
  split; [reflexivity |].
  unfold B.sensitivity, B.false_positive_rate.
  destruct (counts_by_cases self Hwf Hbin Hdt)
    as (Ha & _ & Hc & _ & _ & -> & -> & _ & -> & -> & _ & -> & _).
  intros Htp Htn Hfp. rewrite Hfp.
  rewrite divZ_zero_num by lia. rewrite divZ_fin by lia.
  cbn [FQ.fdiv]. unfold FQ.div. cbn [Qeq_bool].
  replace (Qeq_bool 0 0) with true by reflexivity.
  unfold FQ.sign.
  assert (Hpos : 0 < Qred (inject_Z (pair_count 1 1 (data (B.pred self))
                                       (data (B.ref self)))
                           / inject_Z (pair_count 1 1 (data (B.pred self))
                                         (data (B.ref self))
                                       + pair_count 0 1 (data (B.pred self))
                                           (data (B.ref self))))).
  { rewrite Qred_correct. apply Qlt_shift_div_l.
    - apply inject_Z_pos. lia.
    - rewrite Qmult_0_l. apply inject_Z_pos. lia. }
  apply Qgt_alt in Hpos. now rewrite Hpos.
Qed.

Lemma positive_likelihood_ratio_through_fpr_witness :
  B.positive_likelihood_ratio Samples.scenario = Fin 2.
Proof.
  destruct (positive_likelihood_ratio_through_fpr Samples.scenario) as [H _].
  - repeat split; reflexivity.
  - split; binary_list.
  - exact I.
  - rewrite H. reflexivity.
Defined.

(* ================================================================== *)
(** * Outline error *)

Lemma assign_where_Forall {A : Type} (P : A -> Prop) (l : list A)
  (mask : list bool) (v : A) :
  P v -> Forall P l -> Forall P (assign_where l mask v).
Proof.
  intros Hv Hl. unfold assign_where.
  generalize (mask ++ repeat false (length l - length mask)). clear mask.
  induction Hl as [|x l Hx _ IH]; intros [|b m]; cbn [zip_with];
    try constructor.
  - destruct b; assumption.
  - apply IH.
Qed.

Lemma mark_binary (blobs : ndarray Z) (labels m : list Z) :
  Forall (fun v => v = 0 \/ v = 1)%Z m ->
  Forall (fun v => v = 0 \/ v = 1)%Z (B.mark blobs labels m).
Proof.
  unfold B.mark. revert m.
  induction labels as [|i labels IH]; intros m Hm; cbn [fold_left];
    [exact Hm |].
  apply IH. apply assign_where_Forall; [now right | exact Hm].
Qed.

Lemma count_cons (b : bool) (l : list bool) :
  count (b :: l) = (b2z b + count l)%Z.
Proof. unfold count. cbn [map]. apply sumZ_cons. Qed.

Lemma count_nonneg (l : list bool) : (0 <= count l)%Z.
Proof.
  induction l as [|b l IH]; [unfold count; cbn [map]; rewrite sumZ_nil; lia |].
  rewrite count_cons. destruct b; cbn [b2z]; lia.
Qed.

(** The counts of [runsZ] add up, value by value, to the number of
    occurrences in the list, and every run is non-empty. *)
Lemma runsZ_total (v : Z) (l : list Z) :
  sumZ (map snd (filter (fun u => (fst u =? v)%Z) (runsZ l)))
  = count (map (fun x => (x =? v)%Z) l)
  /\ Forall (fun u => 0 < snd u)%Z (runsZ l).
Proof.
  induction l as [|x l [IH1 IH2]]; [split; [reflexivity | constructor] |].
  cbn [runsZ map]. rewrite count_cons, <- IH1.
  destruct (runsZ l) as [|[y c] r].
  - cbn [filter fst]. destruct (x =? v)%Z; cbn [map snd b2z];
      rewrite ?sumZ_cons, ?sumZ_nil; split; try lia; repeat constructor.
  - apply Forall_cons_iff in IH2 as [Hc Hr]. cbn [snd] in Hc.
    destruct (x =? y)%Z eqn:E.
    + apply Z.eqb_eq in E. subst y.
      cbn [filter fst]. destruct (x =? v)%Z; cbn [map snd b2z];
        rewrite ?sumZ_cons; split; try lia; constructor; cbn [snd];
        try lia; assumption.
    + cbn [filter fst]. destruct (x =? v)%Z, (y =? v)%Z; cbn [map snd b2z];
        rewrite ?sumZ_cons; split; try lia;
        repeat (constructor; cbn [snd]; try lia); assumption.
Qed.

Lemma count_of_le_total (v : Z) (uc : list (Z * Z)) :
  Forall (fun u => 0 < snd u)%Z uc ->
  (0 <= B.count_of v uc
   <= sumZ (map snd (filter (fun u => (fst u =? v)%Z) uc)))%Z.
Proof.
  intros H. unfold B.count_of.
  assert (Hf : Forall (fun u => 0 < snd u)%Z
                 (filter (fun u => (fst u =? v)%Z) uc)).
  { apply Forall_forall. intros u Hu. apply filter_In in Hu as [Hu _].
    rewrite Forall_forall in H. now apply H. }
  destruct (filter (fun u => (fst u =? v)%Z) uc) as [|[y c] r];
    [cbn [map]; rewrite sumZ_nil; lia |].
  apply Forall_cons_iff in Hf as [Hc Hr].
  cbn [map snd] in *. rewrite sumZ_cons.
  assert (0 <= sumZ (map snd r))%Z; [| lia].
  clear - Hr. induction Hr as [|u r Hu _ IH]; cbn [map];
    rewrite ?sumZ_nil, ?sumZ_cons; lia.
Qed.

Lemma insertZ_count (v x : Z) (l : list Z) :
  count (map (fun y => (y =? v)%Z) (insertZ x l))
  = (b2z (x =? v)%Z + count (map (fun y => (y =? v)%Z) l))%Z.
Proof.
  induction l as [|y l IH]; cbn [insertZ map]; [now rewrite !count_cons |].
  destruct (x <=? y)%Z; cbn [map]; rewrite !count_cons; [reflexivity |].
  rewrite IH. lia.
Qed.

Lemma sortZ_count (v : Z) (l : list Z) :
  count (map (fun y => (y =? v)%Z) (sortZ l))
  = count (map (fun y => (y =? v)%Z) l).
Proof.
  induction l as [|x l IH]; [reflexivity |].
  cbn [sortZ fold_right map]. fold (sortZ l).
  now rewrite insertZ_count, count_cons, IH.
Qed.

(** [counts[unique == v]] is at most the number of occurrences of [v]. *)
Lemma count_of_unique_le (v : Z) (l : list Z) :
  (0 <= B.count_of v (unique_countsZ l)
   <= count (map (fun y => (y =? v)%Z) l))%Z.
Proof.
  unfold unique_countsZ.
  destruct (runsZ_total v (sortZ l)) as [Ht Hpos].
  pose proof (count_of_le_total v _ Hpos) as H.
  rewrite Ht, sortZ_count in H. exact H.
Qed.

Lemma zip_sum_nonneg {A B : Type} (f : A -> B -> Z) (l : list A) (m : list B) :
  (forall a b, 0 <= f a b)%Z -> (0 <= sumZ (zip_with f l m))%Z.
Proof.
  intros Hf. revert m.
  induction l as [|a l IH]; intros [|b m]; cbn [zip_with];
    rewrite ?sumZ_nil, ?sumZ_cons; try lia.
  specialize (Hf a b). specialize (IH m). lia.
Qed.

Lemma outline_voxels (rs ts ps : list Z) :
  Forall (fun v => v = 0 \/ v = 1)%Z ts ->
  Forall (fun v => v = 0 \/ v = 1)%Z rs ->
  Forall (fun v => v = 0 \/ v = 1)%Z ps ->
  let oef := zip_with Z.sub (zip_with Z.mul rs ts) (zip_with Z.mul ts ps) in
  (count (map (fun y => (y =? 1)%Z) oef) <= pair_count 0 1 ps rs
   /\ count (map (fun y => (y =? -1)%Z) oef) <= pair_count 1 0 ps rs)%Z.
Proof.
  intros Ht. revert rs ps. cbv zeta.
  induction Ht as [|t ts Ht0 Ht IH]; intros rs ps Hr Hp.
  - destruct rs; cbn [zip_with map]; change (count []) with 0%Z; split;
      apply pair_count_nonneg.
  - destruct Hr as [|r rs Hr0 Hr];
      [cbn [zip_with map]; change (count []) with 0%Z; split;
       apply pair_count_nonneg |].
    destruct Hp as [|p ps Hp0 Hp];
      [cbn [zip_with map]; change (count []) with 0%Z; split;
       apply pair_count_nonneg |].
    unfold pair_count in *.
    cbn [zip_with map]. rewrite !count_cons, !sumZ_cons.
    destruct (IH rs ps Hr Hp) as [IH1 IH2].
    destruct Ht0 as [-> | ->], Hr0 as [-> | ->], Hp0 as [-> | ->];
      repeat match goal with
             | |- context [b2z ?x] =>
                 let v := eval vm_compute in (b2z x) in change (b2z x) with v
             end; lia.
Qed.

(** X24. On a well-formed pair of 0/1 masks the voxel counts of
    outline_error() are part of the confusion counts: 0 <= OEFN <= fn,
    0 <= OEFP <= fp, and the ratio OER is nan (both masks empty) or lies
    between 0 and 2. *)
Theorem outline_error_within_confusion (self : B.t) :
  B.wf self -> B.binary self ->
  let '(oer, oefp, oefn) := B.outline_error self in
  (0 <= oefn <= B.fn self)%Z /\ (0 <= oefp <= B.fp self)%Z
  /\ (oer = NaN \/ exists q, oer = Fin q /\ 0 <= q <= 2).
Proof.
  intros Hwf Hbin. pose proof Hbin as [Hp Hr].
  unfold B.outline_error, B.connected_errormaps.
  destruct (B._connected_components self) as [[blobs_ref blobs_pred] init].
  cbv zeta. unfold amap2. cbn [data shape].
  set (tpc := B.mark (fst blobs_pred) _ (B.mark (fst blobs_ref) _ _)).
  assert (Ht : Forall (fun v => v = 0 \/ v = 1)%Z tpc).
  { unfold tpc. apply mark_binary, mark_binary.
    apply Forall_map, Forall_forall. intros x _. now left. }
  destruct (outline_voxels (data (B.ref self)) tpc (data (B.pred self)) Ht Hr Hp)
    as [H1 H2].
  set (oef := zip_with Z.sub _ _) in *.
  pose proof (count_of_unique_le 1 oef) as C1.
  pose proof (count_of_unique_le (-1) oef) as C2.
  destruct (counts_any_dtype self Hwf Hbin)
    as (Ha & Hb & Hc & Hd & _ & _ & Efp & Efn & _ & -> & -> & _).
  assert (F1 : (0 <= B.count_of 1 (unique_countsZ oef) <= B.fn self)%Z)
    by (rewrite Efn; destruct (B.dtype self); lia).
  assert (F2 : (0 <= B.count_of (-1) (unique_countsZ oef) <= B.fp self)%Z)
    by (rewrite Efp; destruct (B.dtype self); lia).
  split; [exact F1 |]. split; [exact F2 |].
  set (n := (2 * (B.count_of 1 (unique_countsZ oef)
                  + B.count_of (-1) (unique_countsZ oef)))%Z).
  set (m := (_ + _ + (_ + _))%Z).
  assert (Hn : (0 <= n <= 2 * m)%Z) by (unfold n, m; lia).
  clearbody n m.
  destruct (Z.eq_dec m 0) as [-> | Hm].
  - left. replace n with 0%Z by lia. reflexivity.
  - right. rewrite divZ_fin by exact Hm.
    eexists. split; [reflexivity |]. rewrite Qred_correct.
    assert (Hm' : 0 < inject_Z m) by (apply inject_Z_pos; lia).
    assert (Hn0 : 0 <= inject_Z n) by (apply inject_Z_nonneg; lia).
    assert (Hn2 : inject_Z n <= 2 * inject_Z m).
    { change 2 with (inject_Z 2). rewrite <- inject_Z_mult, <- Zle_Qle. lia. }
    split.
    + apply Qle_shift_div_l; [exact Hm' |]. rewrite Qmult_0_l. exact Hn0.
    + apply Qle_shift_div_r; [exact Hm' |]. exact Hn2.
Qed.

Lemma outline_error_within_confusion_witness :
  B.outline_error Samples.scenario = (Fin (1 # 2), 0%Z, 1%Z).
Proof.
  pose proof (outline_error_within_confusion Samples.scenario) as H.
  destruct (B.outline_error Samples.scenario) as [[oer oefp] oefn] eqn:E.
  destruct H as (_ & _ & _).
  - repeat split; reflexivity.
  - split; binary_list.
  - rewrite <- E. vm_compute. reflexivity.
Defined.

(* ================================================================== *)
(** * Properties of the multi-class measures *)

Lemma sumZ_map_add {A : Type} (f g : A -> Z) (l : list A) :
  sumZ (map (fun x => f x + g x)%Z l) = (sumZ (map f l) + sumZ (map g l))%Z.
Proof.
  induction l as [|x l IH]; [reflexivity |].
  cbn [map]. rewrite !sumZ_cons, IH. lia.
Qed.

Lemma indicator_sum_NoDup (x : Z) (l : list Z) :
  NoDup l -> (0 <= sumZ (map (fun f => b2z (f =? x)%Z) l) <= 1)%Z.
Proof.
  induction 1 as [|f l Hf _ IH]; [cbn [map]; rewrite sumZ_nil; lia |].
  cbn [map]. rewrite sumZ_cons.
  destruct (f =? x)%Z eqn:E; cbn [b2z]; [| lia].
  apply Z.eqb_eq in E. subst f.
  assert (Hz : sumZ (map (fun f => b2z (f =? x)%Z) l) = 0%Z); [| lia].
  clear IH. induction l as [|g l IHl]; [reflexivity |].
  cbn [map]. rewrite sumZ_cons.
  destruct (g =? x)%Z eqn:E.
  - apply Z.eqb_eq in E. subst g. elim Hf. now left.
  - rewrite IHl; [reflexivity |]. intros H. apply Hf. now right.
Qed.

(** Distinct labels select disjoint parts of an array. *)
Lemma n_equal_sum_NoDup (a : ndarray Z) (l : list Z) :
  NoDup l -> (sumZ (map (M.n_equal a) l) <= Z.of_nat (size a))%Z.
Proof.
  intros Hl. unfold M.n_equal, size.
  induction (data a) as [|x d IH].
  - cbn [filter length Z.of_nat].
    replace (map (fun _ : Z => 0%Z) l) with (map (fun f : Z => (0 * f)%Z) l)
      by reflexivity.
    clear. induction l as [|f l IHl]; [cbn [map]; rewrite sumZ_nil; lia |].
    cbn [map]. rewrite sumZ_cons. lia.
  - rewrite (map_ext _ (fun f => (b2z (f =? x) + Z.of_nat (length (filter (Z.eqb f) d)))%Z)).
    + rewrite sumZ_map_add. pose proof (indicator_sum_NoDup x l Hl).
      cbn [length]. lia.
    + intros f. cbn [filter]. destruct (f =? x)%Z; cbn [length b2z]; lia.
Qed.

Lemma n_equal_bounds (a : ndarray Z) (f : Z) :
  (0 <= M.n_equal a f <= Z.of_nat (size a))%Z.
Proof.
  unfold M.n_equal, size. split; [lia |].
  apply Nat2Z.inj_le, filter_length_le.
Qed.

Lemma ratio_unit (c n : Z) :
  (0 <= c <= n)%Z -> (0 < n)%Z ->
  0 <= inject_Z c / inject_Z n <= 1.
Proof.
  intros Hc Hn.
  assert (Hn' : 0 < inject_Z n) by (apply inject_Z_pos; lia).
  split.
  - apply Qle_shift_div_l; [exact Hn' |]. rewrite Qmult_0_l.
    apply inject_Z_nonneg. lia.
  - apply Qle_shift_div_r; [exact Hn' |]. rewrite Qmult_1_l.
    rewrite <- Zle_Qle. lia.
Qed.

Lemma chance_loop (self : M.t) (l : list Z) (c : Q) :
  (0 < Z.of_nat (size (M.pred self)))%Z ->
  (0 < Z.of_nat (size (M.ref self)))%Z ->
  exists q,
    fold_left
      (fun acc f =>
         do chance <- acc;
         do prob_pred <- P.py_div (M.n_equal (M.pred self) f)
                                  (Z.of_nat (size (M.pred self)));
         do prob_ref <- P.py_div (M.n_equal (M.ref self) f)
                                 (Z.of_nat (size (M.ref self)));
         Ok (chance + prob_pred * prob_ref))
      l (Ok c) = Ok q
    /\ c <= q
    /\ q <= c + inject_Z (sumZ (map (M.n_equal (M.pred self)) l))
                / inject_Z (Z.of_nat (size (M.pred self))).
Proof.
  intros Hp Hr. revert c.
  induction l as [|f l IH]; intros c.
  - exists c. cbn [fold_left map]. rewrite sumZ_nil.
    split; [reflexivity |]. split; [lra |].
    unfold Qdiv. change (inject_Z 0) with 0. lra.
  - cbn [fold_left bind map]. unfold P.py_div at 3 4.
    replace (Z.of_nat (size (M.pred self)) =? 0)%Z with false
      by (symmetry; apply Z.eqb_neq; lia).
    replace (Z.of_nat (size (M.ref self)) =? 0)%Z with false
      by (symmetry; apply Z.eqb_neq; lia).
    cbn [bind].
    set (pp := inject_Z (M.n_equal (M.pred self) f)
               / inject_Z (Z.of_nat (size (M.pred self)))).
    set (pr := inject_Z (M.n_equal (M.ref self) f)
               / inject_Z (Z.of_nat (size (M.ref self)))).
    destruct (IH (c + pp * pr)) as (q & E & Hlo & Hhi).
    exists q. split; [exact E |].
    assert (Hpp : 0 <= pp <= 1)
      by (apply ratio_unit; [apply n_equal_bounds | exact Hp]).
    assert (Hpr : 0 <= pr <= 1)
      by (apply ratio_unit; [apply n_equal_bounds | exact Hr]).
    rewrite sumZ_cons, inject_Z_plus.
    assert (Hn : ~ inject_Z (Z.of_nat (size (M.pred self))) == 0)
      by (apply inject_Z_nonzero; lia).
    set (s := inject_Z (sumZ (map (M.n_equal (M.pred self)) l))) in *.
    set (n := inject_Z (Z.of_nat (size (M.pred self)))) in *.
    assert (Es : (inject_Z (M.n_equal (M.pred self) f) + s) / n == pp + s / n)
      by (unfold pp; fold n; field; exact Hn).
    rewrite Es. split; nra.
Qed.

(** X25. With pairwise distinct list_values and non-empty pred and ref,
    chance_agreement_probability() returns a value between 0 and 1; on an
    empty pred with at least one listed value it raises
    ZeroDivisionError. *)
Theorem chance_agreement_in_unit_range (self : M.t) :
  NoDup (M.list_values self) ->
  (size (M.pred self) = 0%nat -> M.list_values self <> [] ->
   M.chance_agreement_probability self = Raise ZeroDivisionError)
  /\ ((0 < size (M.pred self))%nat -> (0 < size (M.ref self))%nat ->
      exists q, M.chance_agreement_probability self = Ok q /\ 0 <= q <= 1).
Proof.
  intros Hnd. split.
  - intros H0 Hne. unfold M.chance_agreement_probability.
    destruct (M.list_values self) as [|f l]; [contradiction |].
    cbn [fold_left bind]. rewrite H0. cbn [Z.of_nat].
    unfold P.py_div at 3. cbn [Z.eqb bind].
    clear. induction l as [|g l IH]; [reflexivity | exact IH].
  - intros Hp Hr. unfold M.chance_agreement_probability.
    destruct (chance_loop self (M.list_values self) 0) as (q & E & Hlo & Hhi);
      [lia | lia |].
    exists q. split; [exact E |]. split; [exact Hlo |].
    pose proof (n_equal_sum_NoDup (M.pred self) _ Hnd) as Hsum.
    assert (Hs0 : (0 <= sumZ (map (M.n_equal (M.pred self)) (M.list_values self)))%Z).
    { clear. induction (M.list_values self) as [|f l IH];
        [cbn [map]; rewrite sumZ_nil; lia |].
      cbn [map]. rewrite sumZ_cons.
      pose proof (n_equal_bounds (M.pred self) f). lia. }
    pose proof (ratio_unit _ _ (conj Hs0 Hsum)) as Hu.
    assert (0 < Z.of_nat (size (M.pred self)))%Z as Hn by lia.
    specialize (Hu Hn). lra.
Qed.

Lemma chance_agreement_in_unit_range_witness :
  exists q,
    M.chance_agreement_probability
      (M.__init__ (mk_ndarray [4%nat] [0; 1; 2; 1]%Z)
                  (mk_ndarray [4%nat] [0; 1; 1; 1]%Z) [0; 1; 2]%Z [] [])
    = Ok q /\ 0 <= q <= 1.
Proof.
  apply (chance_agreement_in_unit_range
           (M.__init__ (mk_ndarray [4%nat] [0; 1; 2; 1]%Z)
                       (mk_ndarray [4%nat] [0; 1; 1; 1]%Z) [0; 1; 2]%Z [] [])).
  - cbn [M.list_values M.__init__].
    repeat (constructor; [cbn [In]; intuition discriminate |]).
    constructor.
  - cbn. lia.
  - cbn. lia.
Defined.

Lemma mapM_map {A B : Type} (f : A -> result B) (g : A -> B) (l : list A) :
  Forall (fun a => f a = Ok (g a)) l -> mapM f l = Ok (map g l).
Proof.
  induction 1 as [|a l Ha _ IH]; [reflexivity |].
  cbn [mapM map]. now rewrite Ha, IH.
Qed.

Lemma eye_row_in_range (k i : Z) :
  (0 <= i < k)%Z ->
  M.eye_row k i = Ok (map (fun c => b2z (c =? i)%Z) (range 0 k)).
Proof.
  intros H. unfold M.eye_row.
  replace (k <? 0)%Z with false by (symmetry; apply Z.ltb_ge; lia).
  replace ((- k <=? i) && (i <? k))%Z with true
    by (symmetry; apply andb_true_intro; split;
        [apply Z.leb_le | apply Z.ltb_lt]; lia).
  replace (i <? 0)%Z with false by (symmetry; apply Z.ltb_ge; lia).
  reflexivity.
Qed.

Lemma nth_map_seq {A : Type} (F : nat -> A) (k i : nat) (d : A) :
  (i < k)%nat -> nth i (map F (seq 0 k)) d = F i.
Proof.
  intros H. rewrite (nth_indep _ d (F 0%nat)) by now rewrite length_map, length_seq.
  rewrite map_nth, seq_nth by exact H. reflexivity.
Qed.

Lemma one_hot_column (k : Z) (i : nat) (labels : list Z) :
  (i < Z.to_nat k)%nat ->
  M.column (map (fun p => map (fun c => b2z (c =? p)%Z) (range 0 k)) labels) i
  = map (fun p => b2z (Z.of_nat i =? p)%Z) labels.
Proof.
  intros H. unfold M.column. rewrite map_map. apply map_ext. intros p.
  unfold range. rewrite map_map, Z.sub_0_r.
  now rewrite nth_map_seq by exact H.
Qed.

Lemma indicator_product (i j : Z) (ps rs : list Z) :
  sumZ (zip_with Z.mul (map (fun p => b2z (i =? p)%Z) ps)
                       (map (fun r => b2z (j =? r)%Z) rs))
  = pair_count i j ps rs.
Proof.
  unfold pair_count. revert rs.
  induction ps as [|p ps IH]; intros [|r rs]; cbn [map zip_with];
    try reflexivity.
  rewrite !sumZ_cons, IH. f_equal.
  rewrite (Z.eqb_sym i p), (Z.eqb_sym j r).
  destruct (p =? i)%Z, (r =? j)%Z; reflexivity.
Qed.

(** X26. When the largest listed value m is non-negative, every label of
    pred and ref lies between 0 and m, and pred and ref have the same
    length, confusion_matrix() returns an (m+1) x (m+1) matrix whose entry
    (i, j) is the number of positions labelled i in pred and j in ref. *)
Theorem confusion_matrix_counts_pairs (self : M.t) (m : Z) :
  P.maxZ (M.list_values self) = Ok m -> (0 <= m)%Z ->
  Forall (fun v => 0 <= v <= m)%Z (data (M.pred self)) ->
  Forall (fun v => 0 <= v <= m)%Z (data (M.ref self)) ->
  length (data (M.pred self)) = length (data (M.ref self)) ->
  exists cm,
    M.confusion_matrix self = Ok cm
    /\ length cm = Z.to_nat (m + 1)
    /\ forall i j, (i < Z.to_nat (m + 1))%nat -> (j < Z.to_nat (m + 1))%nat ->
         nth j (nth i cm []) 0%Z
         = pair_count (Z.of_nat i) (Z.of_nat j)
                      (data (M.pred self)) (data (M.ref self)).
Proof.
  intros Hm Hm0 Hp Hr Hlen.
  assert (Hoh : forall labels : ndarray Z,
             Forall (fun v => 0 <= v <= m)%Z (data labels) ->
             M.one_hot self labels
             = Ok (map (fun p => map (fun c => b2z (c =? p)%Z) (range 0 (m + 1)))
                       (data labels))).
  { intros labels Hl. unfold M.one_hot. rewrite Hm. cbn [bind].
    replace (m + 1 <? 0)%Z with false by (symmetry; apply Z.ltb_ge; lia).
    apply mapM_map. eapply Forall_impl; [| exact Hl].
    intros v Hv. cbv beta in Hv. apply eye_row_in_range. lia. }
  unfold M.confusion_matrix.
  rewrite (Hoh (M.pred self) Hp), (Hoh (M.ref self) Hr), Hm.
  cbn [bind]. unfold M.matmul_T.
  rewrite !length_map, Hlen, Nat.eqb_refl. cbn [negb].
  eexists. split; [reflexivity |].
  split; [now rewrite length_map, length_seq |].
  intros i j Hi Hj.
  rewrite (nth_map_seq _ _ _ [] Hi), (nth_map_seq _ _ _ 0%Z Hj).
  rewrite !one_hot_column by assumption.
  apply indicator_product.
Qed.

Lemma confusion_matrix_counts_pairs_witness :
  M.confusion_matrix
    (M.__init__ (mk_ndarray [4%nat] [0; 1; 2; 1]%Z)
                (mk_ndarray [4%nat] [0; 1; 1; 1]%Z) [0; 1; 2]%Z [] [])
  = Ok [[1; 0; 0]; [0; 2; 0]; [0; 1; 0]]%Z.
Proof.
  destruct (confusion_matrix_counts_pairs
              (M.__init__ (mk_ndarray [4%nat] [0; 1; 2; 1]%Z)
                          (mk_ndarray [4%nat] [0; 1; 1; 1]%Z) [0; 1; 2]%Z [] [])
              2) as (cm & E & _).
  - reflexivity.
  - lia.
  - cbn [data M.pred M.__init__]. repeat constructor; lia.
  - cbn [data M.ref M.__init__]. repeat constructor; lia.
  - reflexivity.
  - reflexivity.
Defined.

(* ================================================================== *)
(** * False positives per image and net benefit *)

Lemma sum_axis0_fold (rows : list (list Z)) (L : nat) (acc : list Z) :
  length acc = L -> Forall (fun row => length row = L) rows ->
  length (fold_left (zip_with Z.add) rows acc) = L
  /\ sumZ (fold_left (zip_with Z.add) rows acc)
     = (sumZ acc + sumZ (map sumZ rows))%Z.
Proof.
  intros Ha Hr. revert acc Ha.
  induction Hr as [|row rows Hrow _ IH]; intros acc Ha; cbn [fold_left map].
  - rewrite sumZ_nil. split; [exact Ha | lia].
  - assert (Hl : length (zip_with Z.add acc row) = L)
      by (rewrite zip_with_length; congruence).
    destruct (IH _ Hl) as [H1 H2]. split; [exact H1 |].
    rewrite H2, sumZ_cons.
    assert (E : sumZ (zip_with Z.add acc row) = (sumZ acc + sumZ row)%Z);
      [| lia].
    rewrite <- Ha in Hrow. clear - Hrow. revert row Hrow.
    induction acc as [|a acc IHa]; intros [|r row] H; cbn [length] in H;
      try discriminate; [reflexivity |].
    cbn [zip_with]. rewrite !sumZ_cons, (IHa row) by lia. lia.
Qed.

Lemma sumZ_app (l m : list Z) : sumZ (l ++ m) = (sumZ l + sumZ m)%Z.
Proof.
  induction l as [|x l IH]; [rewrite sumZ_nil; reflexivity |].
  cbn [app]. rewrite !sumZ_cons, IH. lia.
Qed.

Lemma chunks_rows (n L : nat) (l : list Z) :
  length l = (n * L)%nat ->
  Forall (fun row => length row = L) (P.chunks n L l)
  /\ sumZ (map sumZ (P.chunks n L l)) = sumZ l.
Proof.
  revert l. induction n as [|n IH]; intros l Hl; cbn [P.chunks map].
  - destruct l; [| discriminate]. split; [constructor | reflexivity].
  - destruct (IH (skipn L l)) as [H1 H2]; [rewrite length_skipn; lia |].
    split.
    + constructor; [rewrite length_firstn; lia | exact H1].
    + rewrite sumZ_cons, H2, <- sumZ_app, firstn_skipn. reflexivity.
Qed.

(** X27. Without case identifiers, on a well-formed non-empty pair whose
    last axis has length L, fppi_thr(thresh) returns fp_thr(thresh) / L:
    the false positives are averaged over the positions of the last axis. *)
Theorem fppi_thr_over_last_axis (self : P.t) (thresh : Q) (sh : list nat) (L : nat) :
  P.wf self -> P.case self = None ->
  shape (P.ref self) = sh ++ [L] ->
  data (P.pred self) <> [] ->
  P.fppi_thr self thresh
  = Ok (FQ.div (inject_Z (P.fp_thr self thresh)) (inject_Z (Z.of_nat L))).
Proof.
  intros Hwf Hcase Hsh Hne.
  pose proof (same_shape_length _ _ Hwf) as Hlen.
  destruct Hwf as (Hs & Hwp & Hwr). unfold Np.wf in *.
  assert (Hprod : length (data (P.pred self)) = (Np.prod sh * L)%nat).
  { rewrite Hwp, Hs, Hsh, prod_app. unfold Np.prod at 2.
    cbn [fold_right]. lia. }
  assert (HL : L <> 0%nat).
  { intros ->. rewrite Nat.mul_0_r in Hprod.
    destruct (data (P.pred self)); [contradiction | discriminate]. }
  unfold P.fppi_thr. rewrite Hcase, Hsh, rev_app_distr.
  cbn [rev app getitem nth_error bind].
  assert (Hfp : length (data (P.__fp_map_thr self thresh)) = (Np.prod sh * L)%nat).
  { unfold P.__fp_map_thr, amap2. cbn [data].
    now rewrite zip_with_length by exact Hlen. }
  unfold P.reshape_rows.
  destruct (Nat.eqb_spec L 0) as [|_]; [contradiction |].
  rewrite Hfp, Nat.Div0.mod_mul, Nat.div_mul by exact HL.
  cbn [Nat.eqb negb bind].
  destruct (chunks_rows (Np.prod sh) L _ Hfp) as [Hrows Hsum].
  destruct (sum_axis0_fold _ L (repeat 0%Z L) (repeat_length _ _) Hrows)
    as [Hl Hs0].
  unfold P.meanZ, P.sum_axis0. rewrite Hl, Hs0, Hsum.
  replace (sumZ (repeat 0%Z L)) with 0%Z; [reflexivity |].
  clear. induction L as [|L IH]; [reflexivity |].
  cbn [repeat]. rewrite sumZ_cons. lia.
Qed.

Lemma fppi_thr_over_last_axis_witness :
  P.fppi_thr Samples.four_scores (3 # 10) = Ok (Fin (1 # 4)).
Proof.
  rewrite (fppi_thr_over_last_axis Samples.four_scores (3 # 10) [] 4).
  - reflexivity.
  - repeat split; reflexivity.
  - reflexivity.
  - reflexivity.
  - discriminate.
Defined.

Lemma thr_tp_fp_bounds (d : dtype) (thresh : Q) (ps rs : list Q) :
  Forall (fun r => r == 0 \/ r == 1) rs ->
  let tp := sumZ (zip_with (fun p r => b2z (Qltb 1 (r + P.b2q (P.pred_bin thresh p))))
                           ps rs) in
  let fp := sumZ (zip_with
                    (fun p r => b2z (Qltb 0 (wrapQ d (P.b2q (P.pred_bin thresh p) - r))))
                    ps rs) in
  (0 <= tp /\ 0 <= fp /\ tp + fp <= Z.of_nat (length ps))%Z.
Proof.
  intros Hr. revert ps. cbv zeta.
  induction Hr as [|r rs Hr0 _ IH]; intros [|p ps]; cbn [zip_with length];
    rewrite ?sumZ_nil, ?sumZ_cons; try lia.
  specialize (IH ps).
  destruct (thr_difference_positive d (P.pred_bin thresh p) r Hr0) as [-> _].
  rewrite Nat2Z.inj_succ.
  assert (Hv : (0 <= b2z (Qltb 1 (r + P.b2q (P.pred_bin thresh p)))
                /\ 0 <= b2z match d with
                             | UInt _ => xorb (P.pred_bin thresh p) (Qeq_bool r 1)
                             | _ => P.pred_bin thresh p && Qeq_bool r 0
                             end
                /\ b2z (Qltb 1 (r + P.b2q (P.pred_bin thresh p)))
                   + b2z match d with
                         | UInt _ => xorb (P.pred_bin thresh p) (Qeq_bool r 1)
                         | _ => P.pred_bin thresh p && Qeq_bool r 0
                         end <= 1)%Z).
  { destruct (P.pred_bin thresh p), d as [w|w|]; cbv iota;
      destruct Hr0 as [E | E]; rewrite !E; cbv; repeat split; discriminate. }
  lia.
Qed.

(** X28. net_benefit_treated() raises ZeroDivisionError when the
    'benefit_proba' entry is 1. Without that entry the threshold is 0.5,
    the odds factor is 1, and on a non-empty prediction with a 0/1
    reference the result is (tp/n) (fp/n), a value between 0 and 1/4. *)
Theorem net_benefit_treated_default (self : P.t) :
  (forall t, dict_get (P.dict_args self) "benefit_proba" = Some t -> t == 1 ->
             P.net_benefit_treated self = Raise ZeroDivisionError)
  /\ (dict_get (P.dict_args self) "benefit_proba" = None ->
      Forall (fun r => r == 0 \/ r == 1) (data (P.ref self)) ->
      data (P.pred self) <> [] ->
      let n := inject_Z (Z.of_nat (size (P.pred self))) in
      exists q, P.net_benefit_treated self = Ok (Fin q)
                /\ q == (inject_Z (P.tp_thr self (1 # 2)) / n)
                        * (inject_Z (P.fp_thr self (1 # 2)) / n)
                /\ 0 <= q <= 1 # 4).
Proof.
  split.
  - intros t Ht E. unfold P.net_benefit_treated, dict_get_default.
    rewrite Ht.
    replace (Qeq_bool (1 - t) 0) with true; [reflexivity |].
    symmetry. apply Qeq_bool_iff. rewrite E. reflexivity.
  - intros Hnone Hr Hne n. subst n.
    unfold P.net_benefit_treated, dict_get_default. rewrite Hnone.
    replace (Qeq_bool (1 - (1 # 2)) 0) with false by reflexivity.
    replace (Qred ((1 # 2) / (1 - (1 # 2)))) with 1 by reflexivity.
    destruct (thr_tp_fp_bounds (P.dtype self) (1 # 2) (data (P.pred self))
                (data (P.ref self)) Hr)
      as (Htp & Hfp & Hsum).
    fold (size (P.pred self)) in Hsum.
    unfold P.tp_thr, P.fp_thr, P.__tp_map_thr, P.__fp_map_thr, amap2.
    cbn [data].
    set (tp := sumZ (zip_with (fun p r => b2z (Qltb 1 _)) _ _)) in *.
    set (fp := sumZ (zip_with (fun p r => b2z (Qltb 0 _)) _ _)) in *.
    assert (Hn : (0 < Z.of_nat (size (P.pred self)))%Z).
    { unfold size. destruct (data (P.pred self)); [contradiction |].
      cbn [length]. lia. }
    set (N := Z.of_nat (size (P.pred self))) in *. clearbody tp fp N.
    rewrite !FQ_div_nonzero by (apply inject_Z_nonzero; lia).
    cbn [FQ.mul]. eexists. split; [reflexivity |].
    rewrite !Qred_correct, Qmult_1_r. split; [reflexivity |].
    destruct (ratio_unit tp N) as [Ha0 Ha1]; [lia | lia |].
    destruct (ratio_unit fp N) as [Hb0 Hb1]; [lia | lia |].
    assert (Hab : inject_Z tp / inject_Z N + inject_Z fp / inject_Z N <= 1).
    { destruct (ratio_unit (tp + fp) N) as [_ H]; [lia | lia |].
      rewrite inject_Z_plus in H.
      assert (E : (inject_Z tp + inject_Z fp) / inject_Z N
                  == inject_Z tp / inject_Z N + inject_Z fp / inject_Z N)
        by (field; apply inject_Z_nonzero; lia).
      now rewrite <- E. }
    set (a := inject_Z tp / inject_Z N) in *.
    set (b := inject_Z fp / inject_Z N) in *.
    clearbody a b. clear - Ha0 Hb0 Hab.
    assert (H2 : (a + b) * (a + b) <= 1).
    { setoid_replace 1 with (1 * 1) by ring.
      apply Qmult_le_compat_nonneg; split; lra. }
    assert (H1 : 0 <= (a - b) * (a - b)).
    { clear H2. destruct (Qlt_le_dec a b) as [Hlt | Hle].
      - setoid_replace ((a - b) * (a - b)) with ((b - a) * (b - a)) by ring.
        apply Qmult_le_0_compat; lra.
      - apply Qmult_le_0_compat; lra. }
    split; [now apply Qmult_le_0_compat |].
    assert (E : a * b == ((a + b) * (a + b) - (a - b) * (a - b)) * (1 # 4))
      by ring.
    rewrite E. lra.
Qed.

Lemma net_benefit_treated_default_witness :
  exists q, P.net_benefit_treated Samples.four_scores = Ok (Fin q)
            /\ 0 <= q <= 1 # 4.
Proof.
  destruct (net_benefit_treated_default Samples.four_scores) as [_ H].
  destruct H as (q & E & _ & Hq).
  - reflexivity.
  - repeat (apply Forall_cons;
            [ (left; reflexivity) || (right; reflexivity) |]).
    apply Forall_nil.
  - discriminate.
  - exists q. split; assumption.
Defined.

(* ================================================================== *)
(** * Connected components *)

Lemma set_nth_Forall {A : Type} (P : A -> Prop) (o : nat) (v : A) (l : list A) :
  P v -> Forall P l -> Forall P (Ndimage.set_nth o v l).
Proof.
  intros Hv Hl. unfold Ndimage.set_nth.
  rewrite <- (firstn_skipn o l) in Hl. apply Forall_app in Hl as [Hf Hs].
  apply Forall_app. split; [exact Hf |].
  destruct Hs as [|y r _ Hr]; constructor; assumption.
Qed.

Lemma at_index_Forall {A : Type} (P : A -> Prop) (a : ndarray A) (d : A)
  (p : list Z) :
  P d -> Forall P (data a) -> P (at_index a d p).
Proof.
  intros Hd Ha. unfold at_index. destruct (ravel (shape a) p) as [o|]; [| exact Hd].
  destruct (nth_in_or_default o (data a) d) as [Hin | ->]; [| exact Hd].
  rewrite Forall_forall in Ha. now apply Ha.
Qed.

Lemma grow_range (input : ndarray Z) (n : Z) (lab : list Z) :
  (0 <= n)%Z -> Forall (fun v => 0 <= v <= n)%Z lab ->
  Forall (fun v => 0 <= v <= n)%Z (Ndimage.grow input n lab).
Proof.
  intros Hn Hl. unfold Ndimage.grow. apply Forall_map, Forall_forall.
  intros p _.
  assert (Hc : (0 <= at_index (mk_ndarray (shape input) lab) 0 p <= n)%Z)
    by (apply (at_index_Forall (fun v => 0 <= v <= n)%Z); [lia | exact Hl]).
  destruct (negb _); [exact Hc |]. destruct (_ && _); lia.
Qed.

Lemma label_step_range (input : ndarray Z) (st : list Z * Z) (op : nat * list Z) :
  (0 <= snd st)%Z -> Forall (fun v => 0 <= v <= snd st)%Z (fst st) ->
  let st' := Ndimage.label_step input st op in
  (0 <= snd st')%Z /\ Forall (fun v => 0 <= v <= snd st')%Z (fst st').
Proof.
  destruct st as [lab n], op as [o p]. cbn [fst snd]. intros Hn Hl.
  unfold Ndimage.label_step. destruct (_ && _); cbn [fst snd]; [| now split].
  split; [lia |].
  induction (size input) as [|k IH]; cbn [Nat.iter].
  - apply set_nth_Forall; [lia |].
    eapply Forall_impl; [| exact Hl]. intros v Hv. cbv beta in Hv. lia.
  - apply grow_range; [lia | exact IH].
Qed.

(** The labels that [label] writes are 0 or one of 1, ..., n, where n is
    the number of components it returns. *)
Lemma label_range (input : ndarray Z) :
  (0 <= snd (Ndimage.label input))%Z
  /\ Forall (fun v => 0 <= v <= snd (Ndimage.label input))%Z
            (data (fst (Ndimage.label input))).
Proof.
  unfold Ndimage.label.
  set (ops := combine _ _). set (st0 := (repeat 0%Z _, 0%Z)).
  assert (H : (0 <= snd (fold_left (Ndimage.label_step input) ops st0))%Z
              /\ Forall (fun v => 0 <= v <= snd (fold_left (Ndimage.label_step input)
                                                            ops st0))%Z
                        (fst (fold_left (Ndimage.label_step input) ops st0))).
  { assert (H0 : (0 <= snd st0)%Z
                 /\ Forall (fun v => 0 <= v <= snd st0)%Z (fst st0)).
    { unfold st0. cbn [fst snd]. split; [lia |].
      apply Forall_forall. intros v Hv. apply repeat_spec in Hv. lia. }
    clearbody st0. revert st0 H0.
    induction ops as [|op ops IH]; intros st [H1 H2]; cbn [fold_left];
      [now split |].
    apply IH. now apply label_step_range. }
  destruct (fold_left _ ops st0) as [lab n]. exact H.
Qed.

Lemma insertZ_in (x y : Z) (l : list Z) :
  In y (insertZ x l) <-> y = x \/ In y l.
Proof.
  induction l as [|z l IH]; cbn [insertZ In]; [intuition |].
  destruct (x <=? z)%Z; cbn [In]; [intuition |]. rewrite IH. intuition.
Qed.

Lemma sortZ_in (y : Z) (l : list Z) : In y (sortZ l) <-> In y l.
Proof.
  induction l as [|x l IH]; [reflexivity |].
  cbn [sortZ fold_right]. fold (sortZ l). rewrite insertZ_in, IH.
  cbn [In]. intuition.
Qed.

Lemma insertZ_sorted (x : Z) (l : list Z) :
  StronglySorted Z.le l -> StronglySorted Z.le (insertZ x l).
Proof.
  induction 1 as [|y l Hl IH Hy]; cbn [insertZ].
  - repeat constructor.
  - destruct (Z.leb_spec x y) as [Hxy | Hxy].
    + constructor; [now constructor |]. constructor; [exact Hxy |].
      eapply Forall_impl; [| exact Hy]. intros z Hz. cbv beta in Hz. lia.
    + constructor; [exact IH |]. apply Forall_forall. intros z Hz.
      apply insertZ_in in Hz as [-> | Hz]; [lia |].
      rewrite Forall_forall in Hy. now apply Hy.
Qed.

Lemma sortZ_sorted (l : list Z) : StronglySorted Z.le (sortZ l).
Proof.
  induction l as [|x l IH]; [constructor |].
  cbn [sortZ fold_right]. now apply insertZ_sorted.
Qed.

Lemma dedupZ_in (y : Z) (l : list Z) : In y (dedupZ l) <-> In y l.
Proof.
  induction l as [|x l IH]; [reflexivity |].
  cbn [dedupZ]. destruct (dedupZ l) as [|z r] eqn:E.
  - cbn [In] in *. intuition.
  - destruct (Z.eqb_spec x z) as [-> | Hxz]; cbn [In] in *; intuition.
Qed.

Lemma dedupZ_strict (l : list Z) :
  StronglySorted Z.le l -> StronglySorted Z.lt (dedupZ l).
Proof.
  induction 1 as [|x l Hl IH Hx]; [constructor |].
  cbn [dedupZ]. destruct (dedupZ l) as [|z r] eqn:E.
  - repeat constructor.
  - destruct (Z.eqb_spec x z) as [-> | Hxz]; [exact IH |].
    constructor; [exact IH |]. apply Forall_forall. intros y Hy.
    assert (Hyl : In y l) by (apply dedupZ_in; now rewrite E).
    assert (Hzl : In z l) by (apply dedupZ_in; rewrite E; now left).
    rewrite Forall_forall in Hx.
    pose proof (Hx y Hyl) as Hxy. pose proof (Hx z Hzl) as Hxz'.
    destruct Hy as [<- | Hy]; [lia |].
    apply StronglySorted_inv in IH as [_ Hz].
    rewrite Forall_forall in Hz. specialize (Hz y Hy). lia.
Qed.

Lemma strict_NoDup (l : list Z) : StronglySorted Z.lt l -> NoDup l.
Proof.
  induction 1 as [|x l _ IH Hx]; constructor; [| exact IH].
  intros Hin. rewrite Forall_forall in Hx. specialize (Hx x Hin). lia.
Qed.

(** [np.unique] lists each value of the array once. *)
Lemma uniqueZ_spec (l : list Z) :
  NoDup (uniqueZ l) /\ forall y, In y (uniqueZ l) <-> In y l.
Proof.
  unfold uniqueZ. split.
  - apply strict_NoDup, dedupZ_strict, sortZ_sorted.
  - intros y. now rewrite dedupZ_in, sortZ_in.
Qed.

Lemma range_NoDup (lo hi : Z) : NoDup (range lo hi).
Proof.
  unfold range. apply NoDup_map_NoDup_ForallPairs; [| apply seq_NoDup].
  intros i j _ _ H. lia.
Qed.

Lemma range_length (lo hi : Z) : length (range lo hi) = Z.to_nat (hi - lo).
Proof. unfold range. now rewrite length_map, length_seq. Qed.

Lemma range_in (lo hi x : Z) : In x (range lo hi) <-> (lo <= x < hi)%Z.
Proof.
  unfold range. rewrite in_map_iff. split.
  - intros (i & <- & Hi). apply in_seq in Hi. lia.
  - intros H. exists (Z.to_nat (x - lo)). split; [lia |].
    apply in_seq. lia.
Qed.

(** The labels of [1, ..., n] that a duplicate-free list [tp] of such
    labels leaves out are [n - len(tp)] in number. *)
Lemma not_in_count (tp : list Z) (n : Z) :
  NoDup tp -> (forall x, In x tp -> 1 <= x <= n)%Z ->
  (length tp + length (B.not_in (range 1 (n + 1)) tp))%nat = Z.to_nat n.
Proof.
  intros Hnd Hin. unfold B.not_in.
  set (R := range 1 (n + 1)).
  set (mem := fun x => existsb (Z.eqb x) tp).
  assert (Hmem : forall x, mem x = true <-> In x tp).
  { intros x. unfold mem. rewrite existsb_exists. split.
    - intros (y & Hy & E). apply Z.eqb_eq in E. now subst.
    - intros H. exists x. split; [exact H | apply Z.eqb_refl]. }
  pose proof (filter_length mem R) as Hsplit.
  assert (Hlen : length (filter mem R) = length tp).
  { apply Nat.le_antisymm.
    - apply NoDup_incl_length; [apply NoDup_filter, range_NoDup |].
      intros x Hx. apply filter_In in Hx as [_ Hx]. now apply Hmem.
    - apply NoDup_incl_length; [exact Hnd |].
      intros x Hx. apply filter_In. split; [| now apply Hmem].
      apply range_in. specialize (Hin x Hx). lia. }
  unfold R in Hsplit at 3. rewrite range_length in Hsplit.
  replace (n + 1 - 1)%Z with n in Hsplit by lia.
  rewrite Hlen in Hsplit. exact Hsplit.
Qed.

Lemma product_binary (ps rs : list Z) :
  Forall (fun v => v = 0 \/ v = 1)%Z ps ->
  Forall (fun v => v = 0 \/ v = 1)%Z rs ->
  Forall (fun v => v = 0 \/ v = 1)%Z (zip_with Z.mul ps rs).
Proof.
  intros Hp. revert rs.
  induction Hp as [|p ps Hp0 _ IH]; intros rs Hr; [constructor |].
  destruct Hr as [|r rs Hr0 Hr]; cbn [zip_with]; constructor.
  - destruct Hp0 as [-> | ->], Hr0 as [-> | ->]; cbv; tauto.
  - now apply IH.
Qed.

Lemma matched_labels (labs init : list Z) (n : Z) :
  Forall (fun v => 0 <= v <= n)%Z labs ->
  Forall (fun v => v = 0 \/ v = 1)%Z init ->
  let tp := uniqueZ (filter (fun v => 0 <? v)%Z (zip_with Z.mul labs init)) in
  NoDup tp /\ forall x, In x tp -> (1 <= x <= n)%Z.
Proof.
  intros Hl Hi tp. destruct (uniqueZ_spec (filter (fun v => 0 <? v)%Z
                                             (zip_with Z.mul labs init)))
    as [Hnd Hin].
  split; [exact Hnd |]. intros x Hx. apply Hin in Hx.
  apply filter_In in Hx as [Hx Hpos]. apply Z.ltb_lt in Hpos.
  assert (H : Forall (fun v => 0 <= v <= n)%Z (zip_with Z.mul labs init)).
  { clear - Hl Hi. revert init Hi.
    induction Hl as [|l labs Hl0 _ IH]; intros init Hi; [constructor |].
    destruct Hi as [|i init Hi0 Hi]; cbn [zip_with]; constructor.
    - destruct Hi0 as [-> | ->]; lia.
    - now apply IH. }
  rewrite Forall_forall in H. specialize (H x Hx). lia.
Qed.

(** X29. On a pair of 0/1 masks the component counts of
    connected_elements() partition the reference components: the number of
    reference components that touch the prediction plus the number of
    those that do not is the number of components that label() finds in
    the reference; the false-positive count is at most the number of
    components of the prediction. *)
Theorem connected_elements_partition (self : B.t) :
  B.binary self ->
  let '(tp, fp, fn) := B.connected_elements self in
  let n_ref :=
    snd (MorphologyOps.foreground_component
           (MorphologyOps.__init__ (B.ref self) (B.neigh self))) in
  let n_pred :=
    snd (MorphologyOps.foreground_component
           (MorphologyOps.__init__ (B.pred self) (B.neigh self))) in
  (tp + fn)%nat = Z.to_nat n_ref /\ (fp <= Z.to_nat n_pred)%nat.
Proof.
  intros [Hp Hr]. unfold B.connected_elements, B._connected_components.
  cbv zeta. unfold MorphologyOps.foreground_component.
  set (br := Ndimage.label _). set (bp := Ndimage.label _).
  destruct (label_range (MorphologyOps.binary_map
                           (MorphologyOps.__init__ (B.ref self) (B.neigh self))))
    as [Hn Hl].
  fold br in Hn, Hl.
  unfold B.unique_positive, amap2. cbn [data].
  destruct (matched_labels (data (fst br))
              (zip_with Z.mul (data (B.pred self)) (data (B.ref self)))
              (snd br) Hl (product_binary _ _ Hp Hr)) as [Hnd Hin].
  split.
  - apply not_in_count; assumption.
  - unfold B.not_in.
    eapply Nat.le_trans; [apply filter_length_le |].
    rewrite range_length. replace (snd bp + 1 - 1)%Z with (snd bp) by lia.
    apply Nat.le_refl.
Qed.

Lemma connected_elements_partition_witness :
  B.connected_elements Samples.unmatched_last = (1%nat, 1%nat, 1%nat).
Proof.
  pose proof (connected_elements_partition Samples.unmatched_last) as H.
  destruct (B.connected_elements Samples.unmatched_last) as [[tp fp] fn] eqn:E.
  destruct H as [_ _].
  - split; binary_list.
  - rewrite <- E. vm_compute. reflexivity.
Defined.

(* ================================================================== *)
(** * The two border maps *)

Lemma indices_rank (sh : list nat) (p : list Z) :
  In p (indices sh) -> length p = length sh.
Proof.
  revert p. induction sh as [|n rest IH]; intros p Hp; cbn [indices] in Hp.
  - destruct Hp as [<- | []]. reflexivity.
  - apply in_flat_map in Hp as (i & _ & Hp).
    apply in_map_iff in Hp as (q & <- & Hq).
    cbn [length]. now rewrite (IH q Hq).
Qed.

Lemma border_voxels_agree (x w e n s t b : Z) :
  (x = 0 \/ x = 1)%Z -> (w = 0 \/ w = 1)%Z -> (e = 0 \/ e = 1)%Z ->
  (n = 0 \/ n = 1)%Z -> (s = 0 \/ s = 1)%Z -> (t = 0 \/ t = 1)%Z ->
  (b = 0 \/ b = 1)%Z ->
  (int8 (b2z (int8 (int8 (int8 (int8 (int8 (w + e) + n) + s) + t) + b) <? 6)%Z
         * x) =? 1)%Z
  = (int8 (x - b2z (negb (x =? 0)%Z
                    && (negb (e =? 0)%Z
                        && (negb (w =? 0)%Z
                            && (negb (n =? 0)%Z
                                && (negb (s =? 0)%Z
                                    && (negb (t =? 0)%Z
                                        && (negb (b =? 0)%Z && true)))))))) =? 1)%Z.
Proof.
  intros [-> | ->] [-> | ->] [-> | ->] [-> | ->] [-> | ->] [-> | ->] [-> | ->];
    reflexivity.
Qed.

(** X30. On a well-formed three-dimensional 0/1 mask the two border
    routines agree: border_map2() returns the boolean array that is True
    exactly where border_map() is 1. *)
Theorem border_maps_agree (a : ndarray Z) (neigh : Z) (n0 n1 n2 : nat) :
  Np.wf a -> shape a = [n0; n1; n2] ->
  Forall (fun v => v = 0 \/ v = 1)%Z (data a) ->
  MorphologyOps.border_map2 (MorphologyOps.__init__ a neigh)
  = Ok (amap (fun b => (b =? 1)%Z)
             (MorphologyOps.border_map (MorphologyOps.__init__ a neigh))).
Proof.
  intros Hwf Hsh Hbin.
  unfold MorphologyOps.border_map2, MorphologyOps.border_map,
    MorphologyOps.__init__, Ndimage.shift, Ndimage.binary_erosion, amap2, amap.
  cbn [MorphologyOps.binary_map data shape].
  rewrite (map_int8_binary _ Hbin), Hsh.
  cbn [length Nat.eqb negb bind data shape].
  rewrite <- Hsh.
  replace (mk_ndarray (shape a) (data a)) with a by now destruct a.
  f_equal. f_equal.
  rewrite <- (at_index_indices a 0%Z Hwf) at 1 2.
  rewrite !zip_with_map, map_map.
  apply map_ext_in. intros p Hp.
  pose proof (indices_rank _ _ Hp) as Hlen. rewrite Hsh in Hlen.
  destruct p as [|i [|j [|k [|? ?]]]]; try discriminate.
  cbn [zip_with Ndimage.axis_neighbours map forallb].
  unfold Ndimage.nonzero.
  rewrite !Z.sub_0_r.
  replace (i - -1)%Z with (i + 1)%Z by lia.
  replace (j - -1)%Z with (j + 1)%Z by lia.
  replace (k - -1)%Z with (k + 1)%Z by lia.
  assert (Hat : forall q, (at_index a 0 q = 0 \/ at_index a 0 q = 1)%Z)
    by (intros q; apply (at_index_Forall (fun v => v = 0 \/ v = 1)%Z);
        [now left | exact Hbin]).
  apply border_voxels_agree; apply Hat.
Qed.

Lemma border_maps_agree_witness :
  MorphologyOps.border_map2
    (MorphologyOps.__init__
       (mk_ndarray [1%nat; 1%nat; 3%nat] [1; 1; 1]%Z) 8)
  = Ok (mk_ndarray [1%nat; 1%nat; 3%nat] [true; true; true]).
Proof.
  rewrite (border_maps_agree _ 8 1 1 3).
  - reflexivity.
  - reflexivity.
  - reflexivity.
  - cbn [data]. binary_list.
Defined.
